(** * A shallow embedding of the lazy-fork EVM simulator

    The development follows the layout of the repository:

    - [Common]    : addresses, hashes, 256-bit words, block tags;
    - [State]     : the account/storage store the simulator drives
                    (go-ethereum's [state.StateDB], an external collaborator);
    - [Rpc]       : the remote state source ([rpc.Client]);
    - [Vm]        : [vm/interpreter.go], the interpreter with its
                    pre-dispatch hooks, and the call entry point;
    - [Runtime]   : [runtime.Execute];
    - [Simulator] : [Simulate], [unoptimalSimulation], [SimulateBundle]
                    and [InitIdealState].

    Maps and sets of the Go code ([map[common.Address]struct{}],
    [map[string]common.Hash]) are stdpp's [gset] and [gmap]; slices are
    lists in slice order (index 0 first). *)

From stdpp Require Import gmap list strings.
From Stdlib Require Import ZArith Lia Ascii.

Open Scope Z_scope.

(** ** Common data *)

Module Common.

(** A [common.Address] is 20 bytes and a [common.Hash] is 32 bytes; both
    are read as big-endian numbers.  A [uint256.Int] is a number below
    [2^256] whose arithmetic wraps around. *)
Abbreviation Address := Z (only parsing).
Abbreviation Hash := Z (only parsing).
Abbreviation Bytes := (list Z) (only parsing).

Definition two256 : Z := 2 ^ 256.
Definition two160 : Z := 2 ^ 160.
Definition two64 : Z := 2 ^ 64.

Definition u256 (x : Z) : Z := x mod two256.
Definition u64 (x : Z) : Z := x mod two64.

(** [uint256.Int.Bytes20]: the 20 low-order bytes, as an address. *)
Definition Bytes20 (x : Z) : Address := x mod two160.

(** [uint256.Int.Bytes32]: the word itself, as a hash. *)
Definition Bytes32 (x : Z) : Hash := u256 x.

(** The key of the storage dedup map is the string
    [addr.Hex() + ":" + slot.Hex()].  Both renderings have a fixed
    width, and [InitIdealState] reads the two halves back with
    [common.HexToAddress] and [common.HexToHash]; the key is kept here
    as the pair it encodes. *)
Abbreviation SlotKey := (Z * Z)%type (only parsing).

(** The block argument of a remote call.  The callers build
    ["0x" + n.Text(16)] (or the empty string) and the client replaces
    anything that does not parse to a positive number by ["latest"]. *)
Inductive BlockTag := Latest | BlockNum (n : Z).

#[global] Instance BlockTag_eq_dec : EqDecision BlockTag.
Proof. solve_decision. Defined.

Definition blockTag (n : Z) : BlockTag :=
  if 0 <? n then BlockNum n else Latest.

(** What a Go function can do besides returning normally: return an
    error value, or panic (index out of range, nil dereference,
    [Must...] conversions). *)
Inductive Error :=
| NetworkError
| ErrInsufficientStackElements
| ErrStackUnderflow (stackLen required : Z)
| ErrStackOverflow (stackLen limit : Z)
| ErrOutOfGas
| ErrGasUintOverflow
| ErrInsufficientSimulationBalance
| ErrInsufficientBalance
| ErrInvalidOpCode (op : Z)
| ErrExecutionReverted
| ErrStateMissing
| errStopToken.

Inductive result (A : Type) :=
| Ok (a : A)
| Err (e : Error)
| Panic
| OutOfFuel.
Arguments Ok {A} a.
Arguments Err {A} e.
Arguments Panic {A}.
Arguments OutOfFuel {A}.

(** [uint256.MustFromBig]: panics when the number does not fit. *)
Definition MustFromBig (b : Z) : option Z :=
  if Z.abs b <? two256 then Some (u256 b) else None.

End Common.
Export Common.

(** A computation over a state [S]: it returns the state it leaves behind
    together with its outcome; after an error or a panic the state is the
    one at the point of failure. *)
Definition M (S A : Type) : Type := S → S * result A.

Definition ret {S A} (a : A) : M S A := λ s, (s, Ok a).
Definition fail {S A} (e : Error) : M S A := λ s, (s, Err e).
Definition panic {S A} : M S A := λ s, (s, Panic).
Definition bind {S A B} (c : M S A) (k : A → M S B) : M S B :=
  λ s, match c s with
       | (s', Ok a) => k a s'
       | (s', Err e) => (s', Err e)
       | (s', Panic) => (s', Panic)
       | (s', OutOfFuel) => (s', OutOfFuel)
       end.
Definition gets {S A} (f : S → A) : M S A := λ s, (s, Ok (f s)).
Definition modify {S} (f : S → S) : M S unit := λ s, (f s, Ok tt).

(** [onError c h]: when [c] returns an error, [h] is applied to the state
    before the error is passed on (a deferred or explicit clean-up). *)
Definition onError {S A} (c : M S A) (h : S → S) : M S A :=
  λ s, match c s with
       | (s', Err e) => (h s', Err e)
       | r => r
       end.

(** A Go index expression [l[i]]: out of range is a panic. *)
Definition index {S} (l : list Z) (i : Z) : M S Z :=
  if i <? 0 then panic
  else match l !! Z.to_nat i with
       | Some x => ret x
       | None => panic
       end.

Definition len {A} (l : list A) : Z := Z.of_nat (length l).


(** stdpp's [x ← c; k] and [c;; k] are used for sequencing. *)
#[global] Instance M_ret {S} : MRet (M S) := λ A, ret.
#[global] Instance M_bind {S} : MBind (M S) := λ A B k c, bind c k.

(** ** The state store *)

Module State.

(** One state object: balance, code and storage of an account. *)
Record Account := mkAccount {
  acc_balance : Z;
  acc_code : list Z;
  acc_storage : gmap Z Z
}.

Definition emptyAccount : Account := mkAccount 0 [] ∅.

(** [state.StateDB] as far as the simulator uses it: the live accounts,
    the accounts of the trie the state was opened at (what
    [GetTrie().GetAccount] and [GetCommittedState] see), the EIP-2929
    access list of the running transaction, and the refund counter. *)
Record StateDB := mkStateDB {
  accounts : gmap Z Account;
  trie : gmap Z Account;
  warmAddresses : gset Z;
  warmSlots : gset (Z * Z);
  refund : Z
}.

(** [state.New(types.EmptyRootHash, db, nil)] *)
Definition emptyState : StateDB := mkStateDB ∅ ∅ ∅ ∅ 0.

Definition setAccounts (s : StateDB) (m : gmap Z Account) : StateDB :=
  mkStateDB m (trie s) (warmAddresses s) (warmSlots s) (refund s).

Definition getObject (s : StateDB) (a : Z) : Account :=
  default emptyAccount (accounts s !! a).

Definition setObject (s : StateDB) (a : Z) (o : Account) : StateDB :=
  setAccounts s (<[a := o]> (accounts s)).

Definition Exist (s : StateDB) (a : Z) : bool :=
  bool_decide (is_Some (accounts s !! a)).

(** [CreateAccount] installs a fresh object, replacing what was there. *)
Definition CreateAccount (s : StateDB) (a : Z) : StateDB :=
  setObject s a emptyAccount.

Definition GetBalance (s : StateDB) (a : Z) : Z := acc_balance (getObject s a).
Definition GetCode (s : StateDB) (a : Z) : list Z := acc_code (getObject s a).
Definition GetCodeSize (s : StateDB) (a : Z) : Z := Z.of_nat (length (GetCode s a)).
Definition GetState (s : StateDB) (a k : Z) : Z :=
  default 0 (acc_storage (getObject s a) !! k).
Definition GetCommittedState (s : StateDB) (a k : Z) : Z :=
  default 0 (acc_storage (default emptyAccount (trie s !! a)) !! k).

(** The setters go through [getOrNewStateObject]. *)
Definition SetBalance (s : StateDB) (a : Z) (b : Z) : StateDB :=
  let o := getObject s a in
  setObject s a (mkAccount b (acc_code o) (acc_storage o)).

Definition AddBalance (s : StateDB) (a : Z) (amount : Z) : StateDB :=
  SetBalance s a (u256 (GetBalance s a + amount)).

Definition SubBalance (s : StateDB) (a : Z) (amount : Z) : StateDB :=
  SetBalance s a (u256 (GetBalance s a - amount)).

Definition SetCode (s : StateDB) (a : Z) (c : list Z) : StateDB :=
  let o := getObject s a in
  setObject s a (mkAccount (acc_balance o) c (acc_storage o)).

Definition SetState (s : StateDB) (a k v : Z) : StateDB :=
  let o := getObject s a in
  setObject s a (mkAccount (acc_balance o) (acc_code o) (<[k := v]> (acc_storage o))).

(** The trie lookup [state.GetTrie().GetAccount(addr)]. *)
Definition TrieHasAccount (s : StateDB) (a : Z) : bool :=
  bool_decide (is_Some (trie s !! a)).

(** EIP-2929 access list of the state. *)
Definition AddressInAccessList (s : StateDB) (a : Z) : bool :=
  bool_decide (a ∈ warmAddresses s).
Definition SlotInAccessList (s : StateDB) (a k : Z) : bool :=
  bool_decide ((a, k) ∈ warmSlots s).
Definition AddAddressToAccessList (s : StateDB) (a : Z) : StateDB :=
  mkStateDB (accounts s) (trie s) ({[a]} ∪ warmAddresses s) (warmSlots s) (refund s).
Definition AddSlotToAccessList (s : StateDB) (a k : Z) : StateDB :=
  mkStateDB (accounts s) (trie s) ({[a]} ∪ warmAddresses s)
            ({[(a, k)]} ∪ warmSlots s) (refund s).

Definition GetRefund (s : StateDB) : Z := refund s.
Definition AddRefund (s : StateDB) (g : Z) : StateDB :=
  mkStateDB (accounts s) (trie s) (warmAddresses s) (warmSlots s) (refund s + g).
Definition SubRefund (s : StateDB) (g : Z) : StateDB :=
  mkStateDB (accounts s) (trie s) (warmAddresses s) (warmSlots s) (refund s - g).

(** An access list as the transaction carries it ([types.AccessList]). *)
Record AccessTuple := mkAccessTuple {
  at_Address : Z;
  at_StorageKeys : list Z
}.

(** [Prepare] under the Berlin rules and later: the access list of the
    state is rebuilt from the sender, the destination, the precompiles,
    the transaction's access list and (Shanghai) the coinbase; transient
    storage is not modelled. *)
Definition warmTuple (s : StateDB) (t : AccessTuple) : StateDB :=
  foldl (λ s k, AddSlotToAccessList s (at_Address t) k)
        (AddAddressToAccessList s (at_Address t)) (at_StorageKeys t).

Definition Prepare (s : StateDB) (sender coinbase dst : Z)
    (precompiles : list Z) (l : list AccessTuple) : StateDB :=
  let s0 := mkStateDB (accounts s) (trie s) ∅ ∅ (refund s) in
  let s1 := AddAddressToAccessList s0 sender in
  let s2 := AddAddressToAccessList s1 dst in
  let s3 := foldl AddAddressToAccessList s2 precompiles in
  let s4 := foldl warmTuple s3 l in
  AddAddressToAccessList s4 coinbase.

(** [Commit(0, false)] followed by [state.New(root, db, nil)]: the
    reopened state holds the committed accounts; its access list and
    refund counter start empty. *)
Definition CommitAndReopen (s : StateDB) : StateDB :=
  mkStateDB (accounts s) (accounts s) ∅ ∅ 0.

End State.
Export State.

(** ** The remote state source *)

Module Rpc.

(** The answers of the remote node: [None] stands for a failure of the
    transport or of the JSON decoding, which the client returns as an
    error.  An answer that is not a hexadecimal string, on which the
    client would panic, is not modelled. *)
Record RemoteSource := mkRemote {
  eth_getCode : Z → BlockTag → option (list Z);
  eth_getStorageAt : Z → Z → BlockTag → option Z;
  eth_getBalance : Z → BlockTag → option Z
}.

(** One request sent to the remote node. *)
Inductive Fetch :=
| FetchCode (a : Z) (blk : BlockTag)
| FetchStorage (a k : Z) (blk : BlockTag)
| FetchBalance (a : Z) (blk : BlockTag).

#[global] Instance Fetch_eq_dec : EqDecision Fetch.
Proof. solve_decision. Defined.

(** *** The block argument as the client sees it

    The callers hand the client a string: the hooks build
    ["0x" + BlockNumber.Text(16)], the simulator builds the same for a
    positive block number and the empty string otherwise.  Every
    method of the client strips the leading characters [0] and [x]
    with [strings.TrimLeft], reads the rest as a hexadecimal number
    with [SetString], and replaces the argument by ["latest"] when
    that fails or the number is not positive. *)

Definition hexDigit (d : Z) : ascii :=
  ascii_of_nat (Z.to_nat (if d <? 10 then 48 + d else 87 + d)).

Definition hexValue (c : ascii) : option Z :=
  let n := Z.of_nat (nat_of_ascii c) in
  if (48 <=? n) && (n <=? 57) then Some (n - 48)
  else if (97 <=? n) && (n <=? 102) then Some (n - 87)
  else if (65 <=? n) && (n <=? 70) then Some (n - 55)
  else None.

(** The hexadecimal digits of a number that is not negative, most
    significant first; [fuel] bounds their number. *)
Fixpoint hexDigits (fuel : nat) (n : Z) : string :=
  match fuel with
  | O => EmptyString
  | S f => (if n <? 16 then EmptyString else hexDigits f (n / 16))
           +:+ String (hexDigit (n mod 16)) EmptyString
  end.

(** [big.Int.Text(16)]: lower-case digits, a minus sign for a negative
    number, ["0"] for zero. *)
Definition Text16 (n : Z) : string :=
  if n <? 0 then String "-" (hexDigits (S (Z.to_nat (Z.log2 (- n)))) (- n))
  else hexDigits (S (Z.to_nat (Z.log2 n))) n.

Fixpoint scanDigits (acc : Z) (s : string) : option Z :=
  match s with
  | EmptyString => Some acc
  | String c s' =>
      match hexValue c with
      | Some d => scanDigits (acc * 16 + d) s'
      | None => None
      end
  end.

(** [new(big.Int).SetString(s, 16)]: an optional sign followed by at
    least one hexadecimal digit and nothing else. *)
Definition SetString16 (s : string) : option Z :=
  match s with
  | EmptyString => None
  | String c s' =>
      if bool_decide (c = "-"%char) then
        if bool_decide (s' = EmptyString) then None else Z.opp <$> scanDigits 0 s'
      else if bool_decide (c = "+"%char) then
        if bool_decide (s' = EmptyString) then None else scanDigits 0 s'
      else scanDigits 0 s
  end.

Fixpoint inCutset (c : ascii) (cutset : string) : bool :=
  match cutset with
  | EmptyString => false
  | String c' rest => bool_decide (c = c') || inCutset c rest
  end.

(** [strings.TrimLeft]: the leading characters that occur in the
    cutset are removed. *)
Fixpoint TrimLeft (s cutset : string) : string :=
  match s with
  | EmptyString => EmptyString
  | String c s' => if inCutset c cutset then TrimLeft s' cutset else s
  end.

(** The first statements of [GetCode], [GetStorageAt] and
    [GetBalance]: the block argument that goes into the request. *)
Definition normaliseBlock (blk : string) : string :=
  match SetString16 (TrimLeft blk "0x") with
  | Some blkNumber => if blkNumber <=? 0 then "latest"%string else blk
  | None => "latest"%string
  end.

(** The argument the hooks pass, and the one [Simulate] and
    [unoptimalSimulation] pass. *)
Definition hookBlock (n : Z) : string := "0x" +:+ Text16 n.

Definition simulatorBlock (n : Z) : string :=
  if 0 <? n then "0x" +:+ Text16 n else EmptyString.

(** A block tag as it goes into the request. *)
Definition tagString (t : BlockTag) : string :=
  match t with
  | Latest => "latest"%string
  | BlockNum n => "0x" +:+ Text16 n
  end.

End Rpc.
Export Rpc.

(** ** The interpreter *)

Module Vm.

(** Opcodes the hooks and the test programs name ([vm/opcodes.go]). *)
Definition STOP : Z := 0x00.
Definition ADD : Z := 0x01.
Definition CALLDATALOAD : Z := 0x35.
Definition EXTCODESIZE : Z := 0x3b.
Definition EXTCODECOPY : Z := 0x3c.
Definition EXTCODEHASH : Z := 0x3f.
Definition MSTORE : Z := 0x52.
Definition SLOAD : Z := 0x54.
Definition SSTORE : Z := 0x55.
Definition PUSH0 : Z := 0x5f.
Definition PUSH1 : Z := 0x60.
Definition CALL : Z := 0xf1.
Definition CALLCODE : Z := 0xf2.
Definition RETURN : Z := 0xf3.
Definition DELEGATECALL : Z := 0xf4.
Definition STATICCALL : Z := 0xfa.

Record Contract := mkContract {
  CallerAddress : Z;
  self : Z;
  value : Z;
  Code : list Z;
  Input : list Z;
  Gas : Z
}.

(** [Contract.GetOp]: past the end of the code the opcode is STOP. *)
Definition GetOp (c : Contract) (n : Z) : Z :=
  default STOP (Code c !! Z.to_nat n).

(** [Contract.UseGas] *)
Definition UseGas (c : Contract) (gas : Z) : option Contract :=
  if Gas c <? gas then None
  else Some (mkContract (CallerAddress c) (self c) (value c) (Code c) (Input c) (Gas c - gas)).

Record ScopeContext := mkScope {
  Memory : list Z;
  Stack : list Z;
  contract : Contract
}.

Definition StackData (scope : ScopeContext) : list Z := Stack scope.
Definition Address (scope : ScopeContext) : Z := self (contract scope).

(** The fields of [EVMInterpreter] the hooks maintain.  The call depth,
    the read-only flag, the return-data buffer and the tracer callbacks
    do not take part in the hooks and are left out. *)
Record EVMInterpreter := mkInterpreter {
  addressCodeSet : gset Z;
  addressBalanceSet : gset Z;
  addressStorageSet : gmap (Z * Z) Z;
  addressSlotAccessListSet : gset (Z * Z);
  accessList : list AccessTuple
}.

Record RecordToInitiateState := mkRecord {
  AddressCodeSet : gset Z;
  AddressBalanceSet : gset Z;
  AddressStorageSet : gmap (Z * Z) Z;
  AccessList : list AccessTuple
}.

(** Whether a storage access was charged as cold or as warm. *)
Inductive Temperature := Cold | Warm.

#[global] Instance Temperature_eq_dec : EqDecision Temperature.
Proof. solve_decision. Defined.

(** What an interpreter run reaches through [in]: its own fields, the
    state store [in.evm.StateDB] and the block number of the context.
    Three fields are bookkeeping of the model and have no counterpart in
    the Go structs: [rpcLog] lists the requests sent to the remote node,
    oldest first; [charges] lists the cold/warm decisions of the storage
    gas functions, oldest first; [passes] counts the calls of
    [runtime.Execute] that were started. *)
Record World := mkWorld {
  db : StateDB;
  interp : EVMInterpreter;
  BlockNumber : Z;
  rpcLog : list Fetch;
  charges : list (Z * Z * Temperature);
  passes : nat
}.

Definition setDb (st : StateDB) (w : World) : World :=
  mkWorld st (interp w) (BlockNumber w) (rpcLog w) (charges w) (passes w).
Definition setInterp (i : EVMInterpreter) (w : World) : World :=
  mkWorld (db w) i (BlockNumber w) (rpcLog w) (charges w) (passes w).
Definition setBlockNumber (n : Z) (w : World) : World :=
  mkWorld (db w) (interp w) n (rpcLog w) (charges w) (passes w).
Definition logFetch (f : Fetch) (w : World) : World :=
  mkWorld (db w) (interp w) (BlockNumber w) (rpcLog w ++ [f]) (charges w) (passes w).
Definition logCharge (a k : Z) (t : Temperature) (w : World) : World :=
  mkWorld (db w) (interp w) (BlockNumber w) (rpcLog w) (charges w ++ [(a, k, t)]) (passes w).
Definition countPass (w : World) : World :=
  mkWorld (db w) (interp w) (BlockNumber w) (rpcLog w) (charges w) (S (passes w)).

Definition updDb (f : StateDB → StateDB) : M World unit :=
  modify (λ w, setDb (f (db w)) w).
Definition updInterp (f : EVMInterpreter → EVMInterpreter) : M World unit :=
  modify (λ w, setInterp (f (interp w)) w).

(** [NewEVMInterpreter], the part after the choice of the jump table. *)
Definition NewEVMInterpreter (record : option RecordToInitiateState) : EVMInterpreter :=
  match record with
  | Some r => mkInterpreter (AddressCodeSet r) (AddressBalanceSet r) (AddressStorageSet r) ∅ []
  | None => mkInterpreter ∅ ∅ ∅ ∅ []
  end.

Definition MarkAddressCode (addr : Z) (i : EVMInterpreter) : EVMInterpreter :=
  mkInterpreter ({[addr]} ∪ addressCodeSet i) (addressBalanceSet i)
                (addressStorageSet i) (addressSlotAccessListSet i) (accessList i).

Definition MarkAddressBalance (addr : Z) (i : EVMInterpreter) : EVMInterpreter :=
  mkInterpreter (addressCodeSet i) ({[addr]} ∪ addressBalanceSet i)
                (addressStorageSet i) (addressSlotAccessListSet i) (accessList i).

Definition markStorage (key : Z * Z) (v : Z) (i : EVMInterpreter) : EVMInterpreter :=
  mkInterpreter (addressCodeSet i) (addressBalanceSet i)
                (<[key := v]> (addressStorageSet i)) (addressSlotAccessListSet i) (accessList i).

Definition GetRecordToInitState (i : EVMInterpreter) : RecordToInitiateState :=
  mkRecord (addressCodeSet i) (addressBalanceSet i) (addressStorageSet i) (accessList i).

Definition readStorage (op : Z) : bool := bool_decide (op = SLOAD).
Definition interactWithStorage (op : Z) : bool :=
  bool_decide (op = SLOAD) || bool_decide (op = SSTORE).
Definition isCall (op : Z) : bool :=
  bool_decide (op = CALL) || bool_decide (op = CALLCODE)
  || bool_decide (op = DELEGATECALL) || bool_decide (op = STATICCALL).
Definition isExtCode (op : Z) : bool :=
  bool_decide (op = EXTCODECOPY) || bool_decide (op = EXTCODEHASH)
  || bool_decide (op = EXTCODESIZE).

(** Modelled from the spec: [Stack.peek] of [vm/stack.go], which is not
    among the sources: the top of the stack, left in place.  It is
    [&st.data[st.len()-1]], an index expression that panics on an empty
    stack. *)
Definition peek (scope : ScopeContext) : M World Z :=
  index (Stack scope) (len (Stack scope) - 1).

Section Hooks.

Variable remote : RemoteSource.

(** The three calls of [rpc.Client]; the request is logged whether or
    not it succeeds. *)
Definition GetCodeRpc (a : Z) (blk : BlockTag) : M World (list Z) :=
  modify (logFetch (FetchCode a blk));;
  match eth_getCode remote a blk with
  | Some c => mret c
  | None => fail NetworkError
  end.

Definition GetStorageAtRpc (a k : Z) (blk : BlockTag) : M World Z :=
  modify (logFetch (FetchStorage a k blk));;
  match eth_getStorageAt remote a k blk with
  | Some v => mret v
  | None => fail NetworkError
  end.

Definition GetBalanceRpc (a : Z) (blk : BlockTag) : M World Z :=
  modify (logFetch (FetchBalance a blk));;
  match eth_getBalance remote a blk with
  | Some v => mret v
  | None => fail NetworkError
  end.


(** Fetch the code of [addr] and install it; shared by the call and
    the external-code hooks, which repeat these statements. *)
Definition fetchAndInstallCode (addr : Z) (blk : BlockTag) : M World unit :=
  code ← GetCodeRpc addr blk;
  exists_ ← gets (λ w, Exist (db w) addr);
  (if negb exists_ then updDb (λ s, CreateAccount s addr) else mret tt);;
  updDb (λ s, SetCode s addr code);;
  updInterp (MarkAddressCode addr).

Definition registerAddressCodeForCalls (op : Z) (scope : ScopeContext)
    (blk : BlockTag) : M World unit :=
  if len (StackData scope) <? 3 then fail ErrInsufficientStackElements
  else
    let stackTmp := StackData scope in
    a ← index stackTmp (len stackTmp - 2);
    let addr := Bytes20 a in
    known ← gets (λ w, bool_decide (addr ∈ addressCodeSet (interp w)));
    if known : bool then mret tt
    else
      fetchAndInstallCode addr blk;;
      if bool_decide (op = CALL) || bool_decide (op = CALLCODE) then
        value ← index stackTmp (len stackTmp - 3);
        currrentStateBalance ← gets (λ w, GetBalance (db w) addr);
        balanceSetOnce ← gets (λ w, bool_decide (addr ∈ addressBalanceSet (interp w)));
        if (currrentStateBalance <? value) && negb balanceSetOnce then
          balanceBig ← GetBalanceRpc addr blk;
          match MustFromBig balanceBig with
          | None => panic
          | Some balance =>
              if value <=? balance then
                let diff := u256 (balance - currrentStateBalance) in
                updDb (λ s, AddBalance s addr diff);;
                updInterp (MarkAddressBalance addr)
              else mret tt
          end
        else mret tt
      else mret tt.

Definition registerAddressStorage (op : Z) (scope : ScopeContext)
    (blk : BlockTag) : M World unit :=
  if len (StackData scope) <? 1 then fail ErrInsufficientStackElements
  else
    loc ← peek scope;
    let hash := Bytes32 loc in
    let key := (Address scope, hash) in
    known ← gets (λ w, bool_decide (is_Some (addressStorageSet (interp w) !! key)));
    if known : bool then mret tt
    else
      storage ← GetStorageAtRpc (Address scope) hash blk;
      updDb (λ s, SetState s (Address scope) hash storage);;
      updInterp (markStorage key storage).

Definition registerAddressCodeForExt (op : Z) (scope : ScopeContext)
    (blk : BlockTag) : M World unit :=
  if len (StackData scope) <? 1 then fail ErrInsufficientStackElements
  else
    let stackTmp := StackData scope in
    a ← index stackTmp (len stackTmp - 1);
    let addr := Bytes20 a in
    known ← gets (λ w, bool_decide (addr ∈ addressCodeSet (interp w)));
    if known : bool then mret tt
    else fetchAndInstallCode addr blk.

End Hooks.

(** The loop of [appendToAccessList]: the first tuple of the address
    gets the slot appended; [None] when no tuple has that address. *)
Fixpoint appendSlot (addr slot : Z) (l : list AccessTuple) : option (list AccessTuple) :=
  match l with
  | [] => None
  | t :: l' =>
      if bool_decide (at_Address t = addr)
      then Some (mkAccessTuple (at_Address t) (at_StorageKeys t ++ [slot]) :: l')
      else cons t <$> appendSlot addr slot l'
  end.

Definition recordSlot (addr slot : Z) (i : EVMInterpreter) : EVMInterpreter :=
  let l := match appendSlot addr slot (accessList i) with
           | Some l' => l'
           | None => accessList i ++ [mkAccessTuple addr [slot]]
           end in
  mkInterpreter (addressCodeSet i) (addressBalanceSet i) (addressStorageSet i)
                ({[(addr, slot)]} ∪ addressSlotAccessListSet i) l.

Definition appendToAccessList (op : Z) (scope : ScopeContext) : M World unit :=
  loc ← peek scope;
  let slot := Bytes32 loc in
  let key := (Address scope, slot) in
  seen ← gets (λ w, bool_decide (key ∈ addressSlotAccessListSet (interp w)));
  if seen : bool then mret tt
  else updInterp (recordSlot (Address scope) slot).

(** How an opcode's [execute] function returns: with no error, with
    [errStopToken], or with [ErrExecutionReverted]; every other error is
    an error of the computation. *)
Inductive Status := Continue | Stopped | Reverted.

Record ExecOut := mkExecOut {
  eo_pc : Z;
  eo_scope : ScopeContext;
  eo_res : list Z;
  eo_status : Status
}.

(** An entry of the jump table ([vm/jump_table.go]).  [dynamicGas]
    answers [None] for a gas function that returns an error. *)
Record operation := mkOperation {
  execute : Z → ScopeContext → M World ExecOut;
  constantGas : Z;
  dynamicGas : option (ScopeContext → Z → M World (option Z));
  minStack : Z;
  maxStack : Z;
  memorySize : option (list Z → Z * bool)
}.

Definition MaxUint64 : Z := two64 - 1.

Definition toWordSize (size : Z) : Z :=
  if MaxUint64 - 31 <? size then MaxUint64 / 32 + 1 else (size + 31) / 32.

(** [math.SafeMul]: the product and whether it overflowed 64 bits. *)
Definition SafeMul (x y : Z) : Z * bool := (u64 (x * y), two64 <=? x * y).

Definition setContract (scope : ScopeContext) (c : Contract) : ScopeContext :=
  mkScope (Memory scope) (Stack scope) c.

(** [Memory.Resize] *)
Definition Resize (scope : ScopeContext) (size : Z) : ScopeContext :=
  if len (Memory scope) <? size
  then mkScope (Memory scope ++ replicate (Z.to_nat (size - len (Memory scope))) 0)
               (Stack scope) (contract scope)
  else scope.

(** What [Run] hands back to [Call]: the returned bytes, the gas left in
    the contract and whether the run ended in a revert. *)
Record RunOut := mkRunOut {
  ro_ret : list Z;
  ro_gas : Z;
  ro_reverted : bool
}.

Section Run.

Variable remote : RemoteSource.
Variable table : Z → operation.

Definition useGas (scope : ScopeContext) (cost : Z) : M World ScopeContext :=
  match UseGas (contract scope) cost with
  | Some c => mret (setContract scope c)
  | None => fail ErrOutOfGas
  end.

(** The hooks that run before an opcode is dispatched. *)
Definition preDispatch (op : Z) (scope : ScopeContext) : M World unit :=
  blk ← gets (λ w, blockTag (BlockNumber w));
  (if readStorage op then registerAddressStorage remote op scope blk
   else if isCall op then registerAddressCodeForCalls remote op scope blk
   else if isExtCode op then registerAddressCodeForExt remote op scope blk
   else mret tt);;
  (if interactWithStorage op then appendToAccessList op scope else mret tt).

(** Stack validation and gas of one opcode, up to its execution. *)
Definition chargeGas (operation : operation) (scope : ScopeContext) : M World ScopeContext :=
  let sLen := len (Stack scope) in
  if sLen <? minStack operation then fail (ErrStackUnderflow sLen (minStack operation))
  else if maxStack operation <? sLen then fail (ErrStackOverflow sLen (maxStack operation))
  else
    scope ← useGas scope (constantGas operation);
    match dynamicGas operation with
    | None => mret scope
    | Some dyn =>
        msize ← match memorySize operation with
                | None => mret 0
                | Some f =>
                    let '(memSize, overflow) := f (Stack scope) in
                    if overflow : bool then fail ErrGasUintOverflow
                    else let '(m, overflow) := SafeMul (toWordSize memSize) 32 in
                         if overflow : bool then fail ErrGasUintOverflow else mret m
                end;
        dynamicCost ← dyn scope msize;
        match dynamicCost with
        | None => fail ErrOutOfGas
        | Some d =>
            scope ← useGas scope d;
            mret (if 0 <? msize then Resize scope msize else scope)
        end
    end.

(** The main loop of [Run]; [fuel] bounds the number of opcodes. *)
Fixpoint loop (fuel : nat) (scope : ScopeContext) (pc : Z) : M World RunOut :=
  match fuel with
  | O => λ w, (w, OutOfFuel)
  | S fuel =>
      let op := GetOp (contract scope) pc in
      preDispatch op scope;;
      scope ← chargeGas (table op) scope;
      out ← execute (table op) pc scope;
      match eo_status out with
      | Continue => loop fuel (eo_scope out) (u64 (eo_pc out + 1))
      | Stopped => mret (mkRunOut (eo_res out) (Gas (contract (eo_scope out))) false)
      | Reverted => mret (mkRunOut (eo_res out) (Gas (contract (eo_scope out))) true)
      end
  end.

Definition Run (fuel : nat) (c : Contract) (input : list Z) : M World RunOut :=
  if len (Code c) =? 0 then mret (mkRunOut [] (Gas c) false)
  else
    let c := mkContract (CallerAddress c) (self c) (value c) (Code c) input (Gas c) in
    loop fuel (mkScope [] [] c) 0.

(** Modelled from the spec: the call entry point [EVM.Call] of
    [vm/evm.go], which is not among the sources.  It follows the
    standard execution rules the specification refers to: the caller
    must be able to pay the value; the state is snapshotted; a missing
    target is created (a call without value to a missing account does
    nothing); the value is transferred; the code the state holds for
    the target is run; on any error the state goes back to the
    snapshot, and on any error but a revert the gas is lost.
    Precompiled contracts and the depth limit are not modelled. *)
Definition Call (fuel : nat) (caller addr : Z) (input : list Z) (gas value : Z) :
    M World (list Z * Z) :=
  canTransfer ← gets (λ w, (value =? 0) || (value <=? GetBalance (db w) caller));
  if negb canTransfer then fail ErrInsufficientBalance
  else
    snapshot ← gets db;
    exists_ ← gets (λ w, Exist (db w) addr);
    if negb exists_ && (value =? 0) then mret ([], gas)
    else
      onError
        ((if negb exists_ then updDb (λ s, CreateAccount s addr) else mret tt);;
         updDb (λ s, AddBalance (SubBalance s caller value) addr value);;
         code ← gets (λ w, GetCode (db w) addr);
         if len code =? 0 then mret ([], gas)
         else
           out ← Run fuel (mkContract caller addr value code [] gas) input;
           if ro_reverted out then fail ErrExecutionReverted
           else mret (ro_ret out, ro_gas out))
        (setDb snapshot).

End Run.

End Vm.
Export Vm.

(** ** The instructions of the test programs *)

Module Opcodes.

(** The opcode implementations, their gas functions and the jump table
    ([vm/instructions.go], [vm/gas_table.go], [vm/operations_acl.go],
    [vm/memory.go], [vm/stack.go], [vm/jump_table.go]) are not among the
    sources.  The specification leaves them to the standard EVM
    execution rules with EIP-2929/2930 warm and cold accounting; the
    definitions of this module follow those rules for the opcodes the
    repository's test programs use. *)

(** Modelled from the spec: the gas constants of the protocol
    parameters the gas functions below use. *)
Definition GasQuickStep : Z := 2.
Definition GasFastestStep : Z := 3.
Definition ColdSloadCostEIP2929 : Z := 2100.
Definition WarmStorageReadCostEIP2929 : Z := 100.
Definition SstoreSentryGasEIP2200 : Z := 2300.
Definition SstoreSetGasEIP2200 : Z := 20000.
Definition SstoreResetGasEIP2200 : Z := 5000.
Definition SstoreClearsScheduleRefundEIP3529 : Z := 4800.
Definition MemoryGas : Z := 3.
Definition QuadCoeffDiv : Z := 512.
Definition StackLimit : Z := 1024.

Definition setStack (scope : ScopeContext) (st : list Z) : ScopeContext :=
  mkScope (Memory scope) st (contract scope).
Definition setMemory (scope : ScopeContext) (m : list Z) : ScopeContext :=
  mkScope m (Stack scope) (contract scope).

Definition push (scope : ScopeContext) (x : Z) : ScopeContext :=
  setStack scope (Stack scope ++ [x]).

(** Modelled from the spec: [Stack.pop], the last element of the slice
    and the scope without it. *)
Definition pop (scope : ScopeContext) : M World (Z * ScopeContext) :=
  x ← peek scope;
  mret (x, setStack scope (take (length (Stack scope) - 1) (Stack scope))).

(** Modelled from the spec: [Stack.Back(n)], the element [n] below the
    top. *)
Definition Back (st : list Z) (n : Z) : Z :=
  default 0 (st !! Z.to_nat (len st - n - 1)).

(** Big-endian bytes and numbers. *)
Definition bytesToZ (bs : list Z) : Z := foldl (λ acc b, acc * 256 + b) 0 bs.
Definition zToBytes (n : nat) (v : Z) : list Z :=
  (λ i, (v / 256 ^ Z.of_nat (n - 1 - i)) mod 256) <$> seq 0 n.

(** [getData]: [size] bytes of [data] from [start], padded with zeros on
    the right. *)
Definition getData (data : list Z) (start size : Z) : list Z :=
  let d := take (Z.to_nat size) (drop (Z.to_nat start) data) in
  d ++ replicate (Z.to_nat size - length d) 0.

(** Modelled from the spec: an opcode that ends without an error. *)
Definition next (pc : Z) (scope : ScopeContext) : M World ExecOut :=
  mret (mkExecOut pc scope [] Continue).

(** Modelled from the spec: [opStop], which ends the run with the stop token. *)
Definition opStop (pc : Z) (scope : ScopeContext) : M World ExecOut :=
  mret (mkExecOut pc scope [] Stopped).

(** Modelled from the spec: [opUndefined], the invalid-opcode error. *)
Definition opUndefined (op : Z) (pc : Z) (scope : ScopeContext) : M World ExecOut :=
  fail (ErrInvalidOpCode op).

(** Modelled from the spec: [opAdd], addition modulo 2^256. *)
Definition opAdd (pc : Z) (scope : ScopeContext) : M World ExecOut :=
  '(x, scope) ← pop scope;
  '(y, scope) ← pop scope;
  next pc (push scope (u256 (x + y))).

(** Modelled from the spec: [opPush0]. *)
Definition opPush0 (pc : Z) (scope : ScopeContext) : M World ExecOut :=
  next pc (push scope 0).

(** Modelled from the spec: [opPush1], which pushes the byte after the opcode and
    steps over it. *)
Definition opPush1 (pc : Z) (scope : ScopeContext) : M World ExecOut :=
  let codeLen := len (Code (contract scope)) in
  let pc := u64 (pc + 1) in
  if pc <? codeLen
  then next pc (push scope (default 0 (Code (contract scope) !! Z.to_nat pc)))
  else next pc (push scope 0).

(** Modelled from the spec: [opCallDataLoad], the 32 bytes of the input from the
    offset on the stack, read as a number. *)
Definition opCallDataLoad (pc : Z) (scope : ScopeContext) : M World ExecOut :=
  '(x, scope) ← pop scope;
  if x <? two64
  then next pc (push scope (bytesToZ (getData (Input (contract scope)) x 32)))
  else next pc (push scope 0).

(** Modelled from the spec: [opSload], the value the state holds for the slot. *)
Definition opSload (pc : Z) (scope : ScopeContext) : M World ExecOut :=
  '(loc, scope) ← pop scope;
  val ← gets (λ w, GetState (db w) (Address scope) (Bytes32 loc));
  next pc (push scope val).

(** Modelled from the spec: [opSstore], which writes the slot in the state (the
    read-only flag is not modelled). *)
Definition opSstore (pc : Z) (scope : ScopeContext) : M World ExecOut :=
  '(loc, scope) ← pop scope;
  '(val, scope) ← pop scope;
  updDb (λ s, SetState s (Address scope) (Bytes32 loc) (Bytes32 val));;
  next pc scope.

(** Modelled from the spec: [opMstore] with [Memory.Set32]; the store
    must already be large enough. *)
Definition opMstore (pc : Z) (scope : ScopeContext) : M World ExecOut :=
  '(mStart, scope) ← pop scope;
  '(val, scope) ← pop scope;
  let mem := Memory scope in
  if len mem <? mStart + 32 then panic
  else
    let off := Z.to_nat mStart in
    next pc (setMemory scope (take off mem ++ zToBytes 32 val ++ drop (off + 32) mem)).

(** Modelled from the spec: [opReturn] with [Memory.GetCopy] and the
    stop token. *)
Definition opReturn (pc : Z) (scope : ScopeContext) : M World ExecOut :=
  '(offset, scope) ← pop scope;
  '(size, scope) ← pop scope;
  let mem := Memory scope in
  if size =? 0 then mret (mkExecOut pc scope [] Stopped)
  else if offset <? len mem then
    if len mem <? offset + size then panic
    else mret (mkExecOut pc scope (take (Z.to_nat size) (drop (Z.to_nat offset) mem)) Stopped)
  else mret (mkExecOut pc scope [] Stopped).

(** Modelled from the spec: [calcMemSize64WithUint] and
    [calcMemSize64], the memory an opcode needs. *)
Definition calcMemSize64WithUint (off length64 : Z) : Z * bool :=
  if length64 =? 0 then (0, false)
  else if two64 <=? off then (0, true)
  else (u64 (off + length64), u64 (off + length64) <? off).

Definition calcMemSize64 (off l : Z) : Z * bool :=
  if two64 <=? l then (0, true) else calcMemSize64WithUint off l.

Definition memoryMStore (st : list Z) : Z * bool := calcMemSize64WithUint (Back st 0) 32.
Definition memoryReturn (st : list Z) : Z * bool := calcMemSize64 (Back st 0) (Back st 1).

(** Modelled from the spec: [memoryGasCost]; the fee already paid is
    the total fee of the current size. *)
Definition totalFee (words : Z) : Z := words * MemoryGas + words * words / QuadCoeffDiv.

Definition memoryGasCost (scope : ScopeContext) (newMemSize : Z) : M World (option Z) :=
  if newMemSize =? 0 then mret (Some 0)
  else if 0x1FFFFFFFE0 <? newMemSize then mret None
  else
    let newMemSizeWords := toWordSize newMemSize in
    if len (Memory scope) <? newMemSizeWords * 32
    then mret (Some (totalFee newMemSizeWords - totalFee (len (Memory scope) / 32)))
    else mret (Some 0).

(** Modelled from the spec: the EIP-2929 gas function of the storage
    read, [gasSLoadEIP2929] of [vm/operations_acl.go] (not among the
    sources).  A slot that is not in the access list of the state is
    added to it and charged as cold; a slot that is in it is charged as
    warm.  The decision is recorded in [charges]. *)
Definition gasSLoadEIP2929 (scope : ScopeContext) (memorySize : Z) : M World (option Z) :=
  loc ← peek scope;
  let slot := Bytes32 loc in
  slotPresent ← gets (λ w, SlotInAccessList (db w) (Address scope) slot);
  if slotPresent : bool then
    modify (logCharge (Address scope) slot Warm);;
    mret (Some WarmStorageReadCostEIP2929)
  else
    updDb (λ s, AddSlotToAccessList s (Address scope) slot);;
    modify (logCharge (Address scope) slot Cold);;
    mret (Some ColdSloadCostEIP2929).

(** Modelled from the spec: the gas function of the storage write under
    EIP-2929 and EIP-3529, [gasSStoreEIP3529] of
    [vm/operations_acl.go] (not among the sources). *)
Definition gasSStoreEIP3529 (scope : ScopeContext) (memorySize : Z) : M World (option Z) :=
  if Gas (contract scope) <=? SstoreSentryGasEIP2200 then mret None
  else
    let clearingRefund := SstoreClearsScheduleRefundEIP3529 in
    let y := Back (Stack scope) 1 in
    x ← peek scope;
    let slot := Bytes32 x in
    let addr := Address scope in
    current ← gets (λ w, GetState (db w) addr slot);
    slotPresent ← gets (λ w, SlotInAccessList (db w) addr slot);
    (if slotPresent : bool then mret tt
     else updDb (λ s, AddSlotToAccessList s addr slot));;
    let cost := if slotPresent : bool then 0 else ColdSloadCostEIP2929 in
    let value := Bytes32 y in
    if current =? value then mret (Some (cost + WarmStorageReadCostEIP2929))
    else
      original ← gets (λ w, GetCommittedState (db w) addr slot);
      if original =? current then
        if original =? 0 then mret (Some (cost + SstoreSetGasEIP2200))
        else
          (if value =? 0 then updDb (λ s, AddRefund s clearingRefund) else mret tt);;
          mret (Some (cost + (SstoreResetGasEIP2200 - ColdSloadCostEIP2929)))
      else
        (if negb (original =? 0) then
           if current =? 0 then updDb (λ s, SubRefund s clearingRefund)
           else if value =? 0 then updDb (λ s, AddRefund s clearingRefund)
           else mret tt
         else mret tt);;
        (if original =? value then
           if original =? 0
           then updDb (λ s, AddRefund s (SstoreSetGasEIP2200 - WarmStorageReadCostEIP2929))
           else updDb (λ s, AddRefund s (SstoreResetGasEIP2200 - ColdSloadCostEIP2929
                                          - WarmStorageReadCostEIP2929))
         else mret tt);;
        mret (Some (cost + WarmStorageReadCostEIP2929)).

Definition minStackOf (pops pushes : Z) : Z := pops.
Definition maxStackOf (pops pushes : Z) : Z := StackLimit + pops - pushes.

(** Modelled from the spec: the jump table restricted to the opcodes of
    the repository's test programs; every other opcode is treated like
    an undefined one. *)
Definition testInstructionSet (op : Z) : operation :=
  if bool_decide (op = STOP) then
    mkOperation opStop 0 None (minStackOf 0 0) (maxStackOf 0 0) None
  else if bool_decide (op = ADD) then
    mkOperation opAdd GasFastestStep None (minStackOf 2 1) (maxStackOf 2 1) None
  else if bool_decide (op = CALLDATALOAD) then
    mkOperation opCallDataLoad GasFastestStep None (minStackOf 1 1) (maxStackOf 1 1) None
  else if bool_decide (op = MSTORE) then
    mkOperation opMstore GasFastestStep (Some memoryGasCost)
                (minStackOf 2 0) (maxStackOf 2 0) (Some memoryMStore)
  else if bool_decide (op = SLOAD) then
    mkOperation opSload 0 (Some gasSLoadEIP2929) (minStackOf 1 1) (maxStackOf 1 1) None
  else if bool_decide (op = SSTORE) then
    mkOperation opSstore 0 (Some gasSStoreEIP3529) (minStackOf 2 0) (maxStackOf 2 0) None
  else if bool_decide (op = PUSH0) then
    mkOperation opPush0 GasQuickStep None (minStackOf 0 1) (maxStackOf 0 1) None
  else if bool_decide (op = PUSH1) then
    mkOperation opPush1 GasFastestStep None (minStackOf 0 1) (maxStackOf 0 1) None
  else if bool_decide (op = RETURN) then
    mkOperation opReturn 0 (Some memoryGasCost)
                (minStackOf 2 0) (maxStackOf 2 0) (Some memoryReturn)
  else
    mkOperation (opUndefined op) 0 None (minStackOf 0 0) (maxStackOf 0 0) None.

End Opcodes.
Export Opcodes.

(** ** [runtime.Execute] *)

Module Runtime.

(** The fields of [runtime.Config] that [Simulate] sets; [SetDefaults]
    fills the rest, among them a chain configuration with every fork up
    to Cancun active from block 0 and a zero coinbase. *)
Record Config := mkConfig {
  Origin : Z;
  cfgBlockNumber : Z;
  GasLimit : Z;
  GasPrice : Z;
  Value : Z
}.

Definition SetDefaults (cfg : Config) : Config :=
  mkConfig (Origin cfg) (cfgBlockNumber cfg)
           (if GasLimit cfg =? 0 then MaxUint64 else GasLimit cfg)
           (GasPrice cfg) (Value cfg).

Record ExecutionResult := mkExecutionResult {
  Ret : list Z;
  GasUsed : Z;
  Refund : Z;
  IntrinsicGas : Z;
  Record_ : RecordToInitiateState
}.

(** [vm.ActivePrecompiles] under the Cancun rules: addresses 1 to 10. *)
Definition ActivePrecompiles : list Z := [1; 2; 3; 4; 5; 6; 7; 8; 9; 10].

(** [core.IntrinsicGas] for a call (not a creation) under the Istanbul
    rules and later. *)
Definition TxGas : Z := 21000.
Definition TxDataZeroGas : Z := 4.
Definition TxDataNonZeroGasEIP2028 : Z := 16.
Definition TxAccessListAddressGas : Z := 2400.
Definition TxAccessListStorageKeyGas : Z := 1900.

Definition StorageKeys (l : list AccessTuple) : Z :=
  foldr (λ t n, len (at_StorageKeys t) + n) 0 l.

Definition intrinsicGas (data : list Z) (l : list AccessTuple) : Z :=
  let nz := len (filter (λ b, b ≠ 0) data) in
  let z := len data - nz in
  TxGas + nz * TxDataNonZeroGasEIP2028 + z * TxDataZeroGas
  + len l * TxAccessListAddressGas + StorageKeys l * TxAccessListStorageKeyGas.

Section Execute.

Variable remote : RemoteSource.
Variable table : Z → operation.

(** [Execute] runs on the state held in [db].  The state argument is
    never nil here, the tracer is absent, and the creation of the
    environment ([NewEnv], which ends in [NewEVMInterpreter]) is the
    assignment of the interpreter and of the block number. *)
Definition Execute (fuel : nat) (address originBalance : Z) (code input : list Z)
    (cfg : Config) (recordToInit : option RecordToInitiateState) :
    M World ExecutionResult :=
  let cfg := SetDefaults cfg in
  modify countPass;;
  modify (λ w, setBlockNumber (cfgBlockNumber cfg)
                 (setInterp (NewEVMInterpreter recordToInit) w));;
  let sender := Origin cfg in
  originAcc ← gets (λ w, TrieHasAccount (db w) (Origin cfg));
  (if negb originAcc then updDb (λ s, CreateAccount s (Origin cfg)) else mret tt);;
  (if 0 <? originBalance then
     match MustFromBig originBalance with
     | None => panic
     | Some balance =>
         updDb (λ s, SetBalance s (Origin cfg) balance);;
         updDb (λ s, SetBalance s sender balance);;
         updInterp (MarkAddressBalance (Origin cfg))
     end
   else mret tt);;
  let accessList := match recordToInit with
                    | Some r => AccessList r
                    | None => []
                    end in
  updDb (λ s, Prepare s (Origin cfg) 0 address ActivePrecompiles accessList);;
  exists_ ← gets (λ w, Exist (db w) address);
  (if negb exists_ then
     updDb (λ s, CreateAccount s address);;
     updDb (λ s, SetCode s address code);;
     updInterp (MarkAddressCode address)
   else mret tt);;
  match MustFromBig (Value cfg) with
  | None => panic
  | Some value =>
      '(ret, leftOverGas) ← Call remote table fuel sender address input (GasLimit cfg) value;
      inRecord ← gets (λ w, GetRecordToInitState (interp w));
      let intrinsic := intrinsicGas input (AccessList inRecord) in
      refund ← gets (λ w, GetRefund (db w));
      let gasUsed := u64 (GasLimit cfg - leftOverGas + intrinsic - refund) in
      mret (mkExecutionResult ret gasUsed refund intrinsic
              (mkRecord (AddressCodeSet inRecord) (AddressBalanceSet inRecord)
                        (AddressStorageSet inRecord) (AccessList inRecord)))
  end.

End Execute.

End Runtime.
Export Runtime.

(** ** The simulator *)

Module Simulator.

Record Simulation := mkSimulation {
  From : Z;
  To : Z;
  simBlockNumber : Z;
  simGasLimit : Z;
  simGasPrice : Z;
  simValue : Z;
  simInput : list Z;
  simCode : list Z
}.

Record SimulationResult := mkSimulationResult {
  ReturnedData : list Z;
  resGasUsed : Z;
  resGasLimit : Z;
  resRecord : RecordToInitiateState
}.

Definition ConfigFromSimulation (simulation : Simulation) : Config :=
  mkConfig (From simulation) (simBlockNumber simulation) (simGasLimit simulation)
           (simGasPrice simulation) (simValue simulation).


(** [InitIdealState]: a fresh state filled from the record.  The three
    [range] loops run over Go maps, whose keys are distinct; they are
    folds over the set or map.  The in-memory database does not fail,
    so the error returns of [state.New] and [Commit] do not occur. *)
Definition InitIdealState (originState : StateDB) (record : RecordToInitiateState) : StateDB :=
  let tmp := emptyState in
  let tmp := set_fold (λ acc tmp, SetCode (CreateAccount tmp acc) acc (GetCode originState acc))
                      tmp (AddressCodeSet record) in
  let tmp := set_fold (λ acc tmp, SetBalance tmp acc (GetBalance originState acc))
                      tmp (AddressBalanceSet record) in
  let tmp := map_fold (λ key value tmp, SetState tmp key.1 key.2 value)
                      tmp (AddressStorageSet record) in
  CommitAndReopen tmp.

(** [onState st c] runs [c] on the state [st] instead of the caller's
    one, which [db] holds again afterwards; it answers the state [c]
    left behind.  This is how a Go function that rebinds its local
    [stateDB] variable is read. *)
Definition onState {A} (st : StateDB) (c : M World A) : M World (StateDB * A) :=
  λ w, let '(w', r) := c (setDb st w) in
       (setDb (db w) w',
        match r with
        | Ok a => Ok (db w', a)
        | Err e => Err e
        | Panic => Panic
        | OutOfFuel => OutOfFuel
        end).

Section Simulate.

Variable remote : RemoteSource.
Variable table : Z → operation.

(** The code lookup both entry points start with. *)
Definition resolveCode (simulation : Simulation) : M World (list Z) :=
  let blk := blockTag (simBlockNumber simulation) in
  let code := simCode simulation in
  codeSize ← gets (λ w, GetCodeSize (db w) (To simulation));
  if (len code =? 0) && (codeSize =? 0) then GetCodeRpc remote (To simulation) blk
  else if len code =? 0 then gets (λ w, GetCode (db w) (To simulation))
  else mret code.

Definition withoutAccessList (r : RecordToInitiateState) : RecordToInitiateState :=
  mkRecord (AddressCodeSet r) (AddressBalanceSet r) (AddressStorageSet r) [].

Definition withAccessList (r : RecordToInitiateState) (l : list AccessTuple) :
    RecordToInitiateState :=
  mkRecord (AddressCodeSet r) (AddressBalanceSet r) (AddressStorageSet r) l.

Definition Simulate (fuel : nat) (simulation : Simulation)
    (recordInitializer : option RecordToInitiateState) : M World SimulationResult :=
  let cfg := ConfigFromSimulation simulation in
  let blk := blockTag (simBlockNumber simulation) in
  code ← resolveCode simulation;
  stateBalance ← gets (λ w, GetBalance (db w) (From simulation));
  balance ← (if (0 <? simValue simulation) && (stateBalance <=? 0) then
               balance ← GetBalanceRpc remote (From simulation) blk;
               if balance <=? simValue simulation
               then fail ErrInsufficientSimulationBalance
               else mret balance
             else mret 0);
  let recordToInit := withoutAccessList <$> recordInitializer in
  result ← Execute remote table fuel (To simulation) balance code
             (simInput simulation) cfg recordToInit;
  idealState ← gets (λ w, InitIdealState (db w) (Record_ result));
  let recordToInit := Some (withAccessList (Record_ result) (AccessList (Record_ result))) in
  '(_, result) ← onState idealState
                   (Execute remote table fuel (To simulation) balance code
                      (simInput simulation) cfg recordToInit);
  mret (mkSimulationResult (Ret result) (GasUsed result) 0 (Record_ result)).

Definition unoptimalSimulation (fuel : nat) (simulation : Simulation)
    (recordInitializer : option RecordToInitiateState) : M World SimulationResult :=
  let cfg := ConfigFromSimulation simulation in
  let blk := blockTag (simBlockNumber simulation) in
  code ← resolveCode simulation;
  stateBalance ← gets (λ w, GetBalance (db w) (From simulation));
  balance ← (if (0 <? simValue simulation) && (stateBalance <=? 0)
             then GetBalanceRpc remote (From simulation) blk
             else mret stateBalance);
  if balance <? simValue simulation then fail ErrInsufficientSimulationBalance
  else
    let recordToInit := (λ r, withAccessList r (AccessList r)) <$> recordInitializer in
    result ← Execute remote table fuel (To simulation) balance code
               (simInput simulation) cfg recordToInit;
    mret (mkSimulationResult (Ret result) (GasUsed result) 0 (Record_ result)).

(** The first loop of [SimulateBundle]: every transaction runs once on
    the caller's state; its access list is put aside and the record
    goes on without it. *)
Fixpoint discoverAll (fuel : nat) (simulations : list Simulation)
    (recordInitializer : option RecordToInitiateState) :
    M World (list (list AccessTuple) * option RecordToInitiateState) :=
  match simulations with
  | [] => mret ([], recordInitializer)
  | simulation :: rest =>
      simResult ← unoptimalSimulation fuel simulation recordInitializer;
      let accessList := AccessList (resRecord simResult) in
      let recordInitializer := withoutAccessList (resRecord simResult) in
      '(lists, final) ← discoverAll fuel rest (Some recordInitializer);
      mret (accessList :: lists, final)
  end.

(** The second loop: transaction [i] runs on the working state with
    its own access list put back; the state is then committed and
    reopened.  [recordInitializer] points to the record of the
    previous result, so that writing the next access list into it
    changes the record that result carries: [retag] is that write. *)
Definition retag (lists : list (list AccessTuple)) (r : SimulationResult) : SimulationResult :=
  match lists with
  | [] => r
  | l :: _ => mkSimulationResult (ReturnedData r) (resGasUsed r) (resGasLimit r)
                                 (withAccessList (resRecord r) l)
  end.

Fixpoint accountAll (fuel : nat) (simulations : list Simulation)
    (lists : list (list AccessTuple)) (stateDB : StateDB)
    (recordInitializer : RecordToInitiateState) : M World (list SimulationResult) :=
  match simulations, lists with
  | simulation :: rest, accessList :: lists' =>
      let recordInitializer := withAccessList recordInitializer accessList in
      '(stateDB, simResult) ← onState stateDB
                                (unoptimalSimulation fuel simulation (Some recordInitializer));
      let stateDB := CommitAndReopen stateDB in
      results ← accountAll fuel rest lists' stateDB (resRecord simResult);
      mret (retag lists' simResult :: results)
  | _, _ => mret []
  end.

(** All the records of one bundle share their three maps, which are
    updated in place: every returned record shows the final maps. *)
Definition shareSets (final : RecordToInitiateState) (r : SimulationResult) : SimulationResult :=
  mkSimulationResult (ReturnedData r) (resGasUsed r) (resGasLimit r)
    (mkRecord (AddressCodeSet final) (AddressBalanceSet final)
              (AddressStorageSet final) (AccessList (resRecord r))).

Definition SimulateBundle (fuel : nat) (simulations : list Simulation)
    (recordInitializer : option RecordToInitiateState) : M World (list SimulationResult) :=
  '(recordAccessLists, recordInitializer) ← discoverAll fuel simulations recordInitializer;
  match recordInitializer with
  | None => panic
  | Some recordInitializer =>
      stateDB ← gets (λ w, InitIdealState (db w) recordInitializer);
      result ← accountAll fuel simulations recordAccessLists stateDB recordInitializer;
      mret (match last result with
            | Some r => shareSets (resRecord r) <$> result
            | None => result
            end)
  end.

End Simulate.

(** [combineRecordInitializers]: the records are merged from the left
    into a record with fresh maps.  A nil record is skipped.  The
    address sets are copied key by key; of a storage key only the first
    occurrence is kept.  The access list of the result is not set. *)
Definition combineOne (record : RecordToInitiateState)
    (r : option RecordToInitiateState) : RecordToInitiateState :=
  match r with
  | None => record
  | Some r =>
      let codes := set_fold (λ k acc, {[k]} ∪ acc)
                            (AddressCodeSet record) (AddressCodeSet r) in
      let balances := set_fold (λ k acc, {[k]} ∪ acc)
                               (AddressBalanceSet record) (AddressBalanceSet r) in
      let storage := map_fold (λ k v acc, if decide (is_Some (acc !! k)) then acc
                                          else <[k := v]> acc)
                              (AddressStorageSet record) (AddressStorageSet r) in
      mkRecord codes balances storage (AccessList record)
  end.

Definition combineRecordInitializers
    (records : list (option RecordToInitiateState)) : RecordToInitiateState :=
  foldl combineOne (mkRecord ∅ ∅ ∅ []) records.

End Simulator.
Export Simulator.

(** ** Notions used in the statements *)

(** The (address, slot) pair a storage opcode is about to touch: the
    executing contract and the top of the stack. *)
Definition touched (scope : ScopeContext) : option (Z * Z) :=
  (λ loc, (Address scope, Bytes32 loc)) <$> last (Stack scope).

(** First occurrences of a list, in order. *)
Fixpoint firsts {A} `{EqDecision A} (l : list A) : list A :=
  match l with
  | [] => []
  | x :: l' => x :: filter (λ y, y ≠ x) (firsts l')
  end.

(** The slots touched on address [a], in touch order. *)
Definition slotsOf (a : Z) (trace : list (Z * Z)) : list Z :=
  snd <$> filter (λ p, p.1 = a) trace.

(** The access list in first-touch order of a sequence of touches: one
    tuple per address, in the order the addresses are first touched, each
    with its slots in the order they are first touched. *)
Definition firstTouchList (trace : list (Z * Z)) : list AccessTuple :=
  (λ a, mkAccessTuple a (firsts (slotsOf a trace))) <$> firsts (trace.*1).

(** The (address, slot) pairs of an access list. *)
Definition pairsOf (l : list AccessTuple) : list (Z * Z) :=
  t ← l; (λ k, (at_Address t, k)) <$> at_StorageKeys t.

(** A sequence of storage opcodes dispatched one after the other. *)
Fixpoint dispatchAll (remote : RemoteSource) (ops : list (Z * ScopeContext)) : M World unit :=
  match ops with
  | [] => mret tt
  | (op, scope) :: rest => preDispatch remote op scope;; dispatchAll remote rest
  end.

(** Concrete data for the examples: a remote node that answers every
    request with an empty code, a zero word and a zero balance, and a
    scope of a contract at a given address with a given stack. *)
Definition remoteZero : RemoteSource :=
  mkRemote (λ _ _, Some []) (λ _ _ _, Some 0) (λ _ _, Some 0).

Definition scopeAt (a : Z) (stack : list Z) : ScopeContext :=
  mkScope [] stack (mkContract 0 a 0 [] [] 100000).

Definition freshWorld (st : StateDB) (blockNumber : Z) : World :=
  mkWorld st (NewEVMInterpreter None) blockNumber [] [] 0.

(** The effect of a successful code fetch on the world: the account is
    created when missing, the code installed and the address marked. *)
Definition installCode (addr : Z) (code : list Z) (w : World) : World :=
  let st := if Exist (db w) addr then db w else CreateAccount (db w) addr in
  setInterp (MarkAddressCode addr (interp w)) (setDb (SetCode st addr code) w).

(** The effect of a balance top-up: the difference between the remote
    and the local balance is added and the address marked. *)
Definition topUp (addr balance : Z) (w : World) : World :=
  setInterp (MarkAddressBalance addr (interp w))
    (setDb (AddBalance (db w) addr (u256 (balance - GetBalance (db w) addr))) w).

(** The stack depth below which the hook of an opcode cannot read what
    it needs: address and value of a call, the address of an
    external-code read, the slot of a storage access. *)
Definition hookDepth (op : Z) : Z :=
  if isCall op then 3
  else if readStorage op || isExtCode op || interactWithStorage op then 1
  else 0.

(** A remote node on which every account holds the balance 10. *)
Definition remoteTen : RemoteSource :=
  mkRemote (λ _ _, Some []) (λ _ _ _, Some 0) (λ _ _, Some 10).

(** The stack of a CALL from the bottom up: return size and offset,
    argument size and offset, the value 5, the target 18, the gas. *)
Definition callScope : ScopeContext := scopeAt 17 [0; 0; 0; 0; 5; 18; 1000].

(** A fact of the remote chain, whatever the block it is asked at. *)
Inductive Fact :=
| CodeOf (a : Z)
| StorageOf (a k : Z)
| BalanceOf (a : Z).

#[global] Instance Fact_eq_dec : EqDecision Fact.
Proof. solve_decision. Defined.

Definition factOf (f : Fetch) : Fact :=
  match f with
  | FetchCode a _ => CodeOf a
  | FetchStorage a k _ => StorageOf a k
  | FetchBalance a _ => BalanceOf a
  end.

(** What the dedup sets say about a fact.  A balance counts as settled
    once the address is in the balance set or in the code set, since the
    call hook looks at the balance only while it installs the code. *)
Definition settled (i : EVMInterpreter) (f : Fact) : Prop :=
  match f with
  | CodeOf a => a ∈ addressCodeSet i
  | StorageOf a k => is_Some (addressStorageSet i !! (a, k))
  | BalanceOf a => a ∈ addressCodeSet i ∨ a ∈ addressBalanceSet i
  end.

(** What happens to one Fork Record over its life, as far as the dedup
    sets and the remote node are concerned: an opcode reaches the hooks
    (in whatever call frame); the execution of an opcode changes the
    state store; [runtime.Execute] marks the code of the target or the
    balance of the origin; a new pass starts, with an interpreter
    created from the record of the previous one. *)
Inductive Event :=
| Dispatch (op : Z) (scope : ScopeContext)
| Effect (f : StateDB → StateDB)
| MarkCode (a : Z)
| MarkBalance (a : Z)
| NextPass (blockNumber : Z).

Definition runEvent (remote : RemoteSource) (e : Event) : M World unit :=
  match e with
  | Dispatch op scope => preDispatch remote op scope
  | Effect f => updDb f
  | MarkCode a => updInterp (MarkAddressCode a)
  | MarkBalance a => updInterp (MarkAddressBalance a)
  | NextPass n =>
      modify (λ w, setBlockNumber n
                     (setInterp (NewEVMInterpreter (Some (GetRecordToInitState (interp w)))) w))
  end.

Fixpoint runEvents (remote : RemoteSource) (es : list Event) : M World unit :=
  match es with
  | [] => mret tt
  | e :: es' => runEvent remote e;; runEvents remote es'
  end.

(** The dedup sets of [i'] extend those of [i]. *)
Definition grows (i i' : EVMInterpreter) : Prop :=
  addressCodeSet i ⊆ addressCodeSet i'
  ∧ addressBalanceSet i ⊆ addressBalanceSet i'
  ∧ (∀ key, is_Some (addressStorageSet i !! key) → is_Some (addressStorageSet i' !! key)).

(** One step from [w] to [w'] with outcome [r]: the log grows by
    requests for facts that were not settled, each asked once; the sets
    grow; and when the step succeeds the new facts are settled. *)
Definition logStep {A} (w w' : World) (r : result A) : Prop :=
  ∃ new, rpcLog w' = rpcLog w ++ new
         ∧ NoDup (factOf <$> new)
         ∧ (∀ f, f ∈ new → ¬ settled (interp w) (factOf f))
         ∧ grows (interp w) (interp w')
         ∧ (∀ a, r = Ok a → ∀ f, f ∈ new → settled (interp w') (factOf f)).

(** The state of a record some way into its life: no fact was asked
    twice, every fact asked is settled, none was settled in the
    interpreter [i0] the life started with, and the sets only grew. *)
Definition fetchedOnce (i0 : EVMInterpreter) (w : World) : Prop :=
  NoDup (factOf <$> rpcLog w)
  ∧ (∀ f, f ∈ rpcLog w → settled (interp w) (factOf f) ∧ ¬ settled i0 (factOf f))
  ∧ grows i0 (interp w).

(** The state [InitIdealState] builds, after each of its three loops. *)
Definition idealCodes (originState : StateDB) (record : RecordToInitiateState) : StateDB :=
  set_fold (λ acc tmp, SetCode (CreateAccount tmp acc) acc (GetCode originState acc))
           emptyState (AddressCodeSet record).

Definition idealBalances (originState : StateDB) (record : RecordToInitiateState) : StateDB :=
  set_fold (λ acc tmp, SetBalance tmp acc (GetBalance originState acc))
           (idealCodes originState record) (AddressBalanceSet record).

Definition idealStorage (originState : StateDB) (record : RecordToInitiateState) : StateDB :=
  map_fold (λ key value tmp, SetState tmp key.1 key.2 value)
           (idealBalances originState record) (AddressStorageSet record).

(** The claim of the specification about the ideal state, in its own
    words: what the record names reads back as the reference state holds
    it, and everything else reads back as zero or empty. *)
Definition copiesReferenceState (originState : StateDB) (record : RecordToInitiateState) : Prop :=
  (∀ a, GetCode (InitIdealState originState record) a =
        if decide (a ∈ AddressCodeSet record) then GetCode originState a else [])
  ∧ (∀ a, GetBalance (InitIdealState originState record) a =
          if decide (a ∈ AddressBalanceSet record) then GetBalance originState a else 0)
  ∧ (∀ a k, GetState (InitIdealState originState record) a k =
            if decide (is_Some (AddressStorageSet record !! (a, k)))
            then GetState originState a k else 0).

(** The reference state and the record after the discovery pass of a
    transaction that read slot 0 of the contract at address 17 (the
    remote node answered 0) and then wrote 1 into it. *)
Definition stateAfterWrite : StateDB := SetState (SetCode emptyState 17 [SLOAD]) 17 0 1.

Definition recordAfterWrite : RecordToInitiateState :=
  mkRecord {[17]} ∅ {[(17, 0) := 0]} [mkAccessTuple 17 [0]].

(** The steps of [Simulate] before its first pass: the code to run and
    the balance of the sender. *)
Definition simulatePrelude (remote : RemoteSource) (simulation : Simulation) :
    M World (list Z * Z) :=
  code ← resolveCode remote simulation;
  stateBalance ← gets (λ w, GetBalance (db w) (From simulation));
  balance ← (if (0 <? simValue simulation) && (stateBalance <=? 0) then
               balance ← GetBalanceRpc remote (From simulation)
                           (blockTag (simBlockNumber simulation));
               if balance <=? simValue simulation
               then fail ErrInsufficientSimulationBalance
               else mret balance
             else mret 0);
  mret (code, balance).

(** The code lookup of the first step does not fail: the simulation
    brings its code, or the state has the code of the target, or the
    remote node answers the request for it. *)
Definition codeAvailable (remote : RemoteSource) (simulation : Simulation) (w : World) : Prop :=
  simCode simulation ≠ []
  ∨ GetCodeSize (db w) (To simulation) ≠ 0
  ∨ is_Some (eth_getCode remote (To simulation) (blockTag (simBlockNumber simulation))).

(** A simulation that sends the value 5 from address 1 to the contract
    at address 17, whose code is the single opcode STOP. *)
Definition transferSimulation : Simulation :=
  mkSimulation 1 17 1 300000 0 5 [] [STOP].

(** A remote node on which every account holds the balance 5. *)
Definition remoteFive : RemoteSource :=
  mkRemote (λ _ _, Some []) (λ _ _ _, Some 0) (λ _ _, Some 5).

(** The balance of the sender as [unoptimalSimulation] knows it: the
    balance in the state, or the answer of the remote node when the
    simulation carries a value and the state has none. *)
Definition knownBalance (remote : RemoteSource) (simulation : Simulation) (w : World) :
    option Z :=
  if (0 <? simValue simulation) && (GetBalance (db w) (From simulation) <=? 0)
  then eth_getBalance remote (From simulation) (blockTag (simBlockNumber simulation))
  else Some (GetBalance (db w) (From simulation)).


(** The program of the bundle test: load the input word, read slot 0,
    add, write slot 0, read it back, return it as 32 bytes. *)
Definition accumulatorCode : list Z :=
  [PUSH0; CALLDATALOAD; PUSH0; SLOAD; ADD; PUSH0; SSTORE;
   PUSH0; SLOAD; PUSH0; MSTORE; PUSH1; 0x20; PUSH0; RETURN].

(** The simulations of the bundle test: sender 0, contract 0x11, block
    1, gas limit 300000, no value, the input word [n]. *)
Definition accumulate (n : Z) : Simulation :=
  mkSimulation 0 0x11 1 300000 0 0 (zToBytes 32 n) accumulatorCode.

(** A transfer without value to an address that has no code, neither in
    the state nor on the remote node. *)
Definition plainCall : Simulation := mkSimulation 0 0x11 1 300000 0 0 [] [].

(** A program that reads slot 0 twice. *)
Definition readTwiceCode : list Z := [PUSH0; SLOAD; PUSH0; SLOAD; STOP].

Definition readTwice : Simulation := mkSimulation 0 0x11 1 300000 0 0 [] readTwiceCode.

(** The first pass of [Simulate]: the preliminary steps and the first
    call of [Execute]. *)
Definition discoveryPass (remote : RemoteSource) (table : Z → operation) (fuel : nat)
    (simulation : Simulation) (prior : option RecordToInitiateState) :
    M World ExecutionResult :=
  '(code, balance) ← simulatePrelude remote simulation;
  Execute remote table fuel (To simulation) balance code (simInput simulation)
    (ConfigFromSimulation simulation) (withoutAccessList <$> prior).



(** [preserves P c]: the computation [c] leaves [P] standing, however
    it ends. *)
Definition preserves {A} (P : World → Prop) (c : M World A) : Prop :=
  ∀ w, P w → P (c w).1.



(** [hoare P c Q]: started in a world with [P], the computation [c]
    ends, however it ends, in a world with [Q]. *)
Definition hoare {A} (P : World → Prop) (c : M World A) (Q : World → Prop) : Prop :=
  ∀ w, P w → Q (c w).1.




(** The value of the first record of the list that holds the key. *)
Fixpoint firstValue (key : Z * Z) (records : list (option RecordToInitiateState)) : option Z :=
  match records with
  | [] => None
  | None :: rest => firstValue key rest
  | Some r :: rest =>
      match AddressStorageSet r !! key with
      | Some v => Some v
      | None => firstValue key rest
      end
  end.

(** A call without value to the contract at address 18, whose code is
    the single opcode STOP. *)
Definition stopCall : Simulation := mkSimulation 0 0x12 1 300000 0 0 [] [STOP].

(** A bundle of two transactions: the program that reads slot 0 of the
    contract at address 17 twice, then the call to address 18. *)
Definition readThenStop : list Simulation := [readTwice; stopCall].

(** The request the fetch hook of an opcode starts with, when the stack
    is deep enough for it: the slot of a storage read, the code of the
    target of a call or of an external-code read. *)
Definition firstRequest (op : Z) (scope : ScopeContext) (blk : BlockTag) : option Fetch :=
  if readStorage op then
    (λ loc, FetchStorage (Address scope) (Bytes32 loc) blk) <$> last (Stack scope)
  else if isCall op then
    if len (Stack scope) <? 3 then None
    else (λ a, FetchCode (Bytes20 a) blk) <$> Stack scope !! Z.to_nat (len (Stack scope) - 2)
  else if isExtCode op then
    (λ a, FetchCode (Bytes20 a) blk) <$> last (Stack scope)
  else None.

(** The remote node fails on a request. *)
Definition unanswered (remote : RemoteSource) (f : Fetch) : Prop :=
  match f with
  | FetchCode a blk => eth_getCode remote a blk = None
  | FetchStorage a k blk => eth_getStorageAt remote a k blk = None
  | FetchBalance a blk => eth_getBalance remote a blk = None
  end.

(** A remote node that cannot be reached. *)
Definition remoteDown : RemoteSource :=
  mkRemote (λ _ _, None) (λ _ _ _, None) (λ _ _, None).

(** The dedup sets of [i'] hold everything those of [i] hold, and the
    storage map holds it with the same values. *)
Definition extends (i i' : EVMInterpreter) : Prop :=
  addressCodeSet i ⊆ addressCodeSet i'
  ∧ addressBalanceSet i ⊆ addressBalanceSet i'
  ∧ addressStorageSet i ⊆ addressStorageSet i'.

(** The same for two records. *)
Definition recordExtends (r r' : RecordToInitiateState) : Prop :=
  AddressCodeSet r ⊆ AddressCodeSet r'
  ∧ AddressBalanceSet r ⊆ AddressBalanceSet r'
  ∧ AddressStorageSet r ⊆ AddressStorageSet r'.

(** A jump table whose entries leave the dedup sets to the hooks: the
    execution and the dynamic gas function of an opcode take nothing out
    of the sets and change no recorded value. *)
Definition keepsRecord (table : Z → operation) : Prop :=
  (∀ op pc scope w, extends (interp w) (interp (execute (table op) pc scope w).1))
  ∧ (∀ op dyn scope m w, dynamicGas (table op) = Some dyn →
                         extends (interp w) (interp (dyn scope m w).1)).

(** [post c Q]: the computation [c] does not end for lack of fuel, and
    a value it returns satisfies [Q]. *)
Definition post {A} (c : M World A) (Q : A → Prop) : Prop :=
  ∀ w, match (c w).2 with
       | Ok a => Q a
       | OutOfFuel => False
       | _ => True
       end.

(** A jump table that charges for every step.  No constant cost is
    negative; the dynamic cost of an opcode is never below a floor that
    is not negative; the execution of an opcode after which the run
    goes on leaves the gas of the contract between 0 and what it was,
    and the constant cost and the floor of such an opcode add up to at
    least 1.  Neither the gas functions nor the executions run out of
    fuel themselves. *)
Definition dynamicFloor (table : Z → operation) (floor : Z → Z) (op : Z) : Z :=
  match dynamicGas (table op) with
  | Some _ => floor op
  | None => 0
  end.

Definition metered (table : Z → operation) : Prop :=
  ∃ floor : Z → Z,
  ∀ op,
    0 ≤ constantGas (table op)
    ∧ 0 ≤ floor op
    ∧ (∀ dyn scope m, dynamicGas (table op) = Some dyn →
         post (dyn scope m) (λ r, ∀ d, r = Some d → floor op ≤ d))
    ∧ (∀ pc scope,
         post (execute (table op) pc scope)
              (λ out, eo_status out = Continue →
                      (0 ≤ Gas (contract scope) →
                       0 ≤ Gas (contract (eo_scope out)) ≤ Gas (contract scope))
                      ∧ 1 ≤ constantGas (table op) + dynamicFloor table floor op)).

(** The floor of the dynamic cost in the table of the test programs: a
    storage access costs at least the warm read. *)
Definition testFloor (op : Z) : Z :=
  if bool_decide (op = SLOAD) || bool_decide (op = SSTORE)
  then WarmStorageReadCostEIP2929 else 0.






(** ** Properties *)

Ltac munfold :=
  unfold mbind, mret, M_bind, M_ret, bind, ret, fail, panic, gets, modify,
         updDb, updInterp, index, onError in *.
Section Firsts.
Context {A : Type} `{EqDecision A}.

Lemma elem_of_firsts (l : list A) (x : A) : x ∈ firsts l ↔ x ∈ l.
Proof.
  induction l as [|y l IH]; simpl; [done|].
  rewrite !elem_of_cons, list_elem_of_filter, IH.
  destruct (decide (x = y)); intuition congruence.
Qed.

Lemma NoDup_firsts (l : list A) : NoDup (firsts l).
Proof.
  induction l as [|y l IH]; simpl; [constructor|].
  constructor.
  - rewrite list_elem_of_filter. intros [Hne _]. by apply Hne.
  - by apply NoDup_filter.
Qed.

Lemma firsts_snoc (l : list A) (x : A) :
  firsts (l ++ [x]) = if decide (x ∈ l) then firsts l else firsts l ++ [x].
Proof.
  induction l as [|y l IH]; [done|].
  cbn [firsts app]. rewrite IH. destruct (decide (x ∈ l)) as [Hin|Hin].
  - rewrite decide_True by (right; done). done.
  - rewrite filter_app. destruct (decide (x = y)) as [->|Hne].
    + rewrite decide_True by (left; done).
      rewrite filter_cons_False by (intros Hc; by apply Hc).
      rewrite filter_nil, app_nil_r. done.
    + rewrite decide_False by (rewrite elem_of_cons; intuition congruence).
      rewrite filter_cons_True by done. done.
Qed.
End Firsts.

Lemma slotsOf_snoc (a : Z) (trace : list (Z * Z)) (x : Z * Z) :
  slotsOf a (trace ++ [x]) = if decide (x.1 = a) then slotsOf a trace ++ [x.2] else slotsOf a trace.
Proof.
  unfold slotsOf. rewrite filter_app, fmap_app.
  destruct (decide (x.1 = a)) as [He|Hne].
  - rewrite filter_cons_True by done. done.
  - rewrite filter_cons_False by done. rewrite filter_nil. simpl. by rewrite app_nil_r.
Qed.

Lemma elem_of_slotsOf (a k : Z) (trace : list (Z * Z)) :
  k ∈ slotsOf a trace ↔ (a, k) ∈ trace.
Proof.
  unfold slotsOf. rewrite list_elem_of_fmap. split.
  - intros [[a' k'] [-> Hin]]. apply list_elem_of_filter in Hin as [Ha Hin].
    simpl in *. by subst.
  - intros Hin. exists (a, k). split; [done|]. by apply list_elem_of_filter.
Qed.

(** [appendSlot] on a list with one tuple per address. *)
Lemma appendSlot_found (a s : Z) (g g' : Z → list Z) (L : list Z) :
  NoDup L → a ∈ L → g' a = g a ++ [s] → (∀ b, b ≠ a → g' b = g b) →
  appendSlot a s ((λ b, mkAccessTuple b (g b)) <$> L)
  = Some ((λ b, mkAccessTuple b (g' b)) <$> L).
Proof.
  intros Hnd Hin Ha Hother. induction L as [|b L IH]; [by apply elem_of_nil in Hin|].
  apply NoDup_cons in Hnd as [Hb Hnd]. cbn [fmap list_fmap appendSlot at_Address at_StorageKeys].
  destruct (decide (b = a)) as [->|Hne].
  - rewrite bool_decide_eq_true_2 by done. rewrite Ha. do 2 f_equal.
    apply list_fmap_ext. intros i b Hb'. rewrite Hother; [done|].
    intros ->. apply Hb. by eapply list_elem_of_lookup_2.
  - rewrite bool_decide_eq_false_2 by done.
    apply elem_of_cons in Hin as [->|Hin]; [done|].
    fold (@fmap list _ _ _ (λ b, mkAccessTuple b (g b)) L).
    rewrite IH by done. simpl. by rewrite Hother.
Qed.

Lemma appendSlot_missing (a s : Z) (g : Z → list Z) (L : list Z) :
  a ∉ L → appendSlot a s ((λ b, mkAccessTuple b (g b)) <$> L) = None.
Proof.
  induction L as [|b L IH]; [done|]. intros Hin.
  apply not_elem_of_cons in Hin as [Hne Hin].
  cbn [fmap list_fmap appendSlot at_Address].
  rewrite bool_decide_eq_false_2 by done.
  fold (@fmap list _ _ _ (λ b, mkAccessTuple b (g b)) L).
  by rewrite IH.
Qed.

(** One more touch of a pair that was not touched before. *)
Lemma firstTouchList_snoc_new (trace : list (Z * Z)) (a s : Z) :
  (a, s) ∉ trace →
  match appendSlot a s (firstTouchList trace) with
  | Some l => l
  | None => firstTouchList trace ++ [mkAccessTuple a [s]]
  end = firstTouchList (trace ++ [(a, s)]).
Proof.
  intros Hnew. unfold firstTouchList.
  rewrite fmap_app. change ([(a, s)].*1) with [a]. rewrite firsts_snoc.
  assert (Hs : s ∉ slotsOf a trace) by by rewrite elem_of_slotsOf.
  assert (Hg : firsts (slotsOf a (trace ++ [(a, s)])) = firsts (slotsOf a trace) ++ [s]).
  { rewrite slotsOf_snoc. simpl. rewrite decide_True by done.
    rewrite firsts_snoc. by rewrite decide_False. }
  assert (Hother : ∀ b, b ≠ a →
            firsts (slotsOf b (trace ++ [(a, s)])) = firsts (slotsOf b trace)).
  { intros b Hb. rewrite slotsOf_snoc. simpl. by rewrite decide_False. }
  destruct (decide (a ∈ trace.*1)) as [Hin|Hin].
  - rewrite (appendSlot_found a s (λ b, firsts (slotsOf b trace))
               (λ b, firsts (slotsOf b (trace ++ [(a, s)])))); try done.
    + apply NoDup_firsts.
    + by apply elem_of_firsts.
  - rewrite appendSlot_missing by (by rewrite elem_of_firsts).
    rewrite fmap_app. simpl. rewrite Hg. f_equal.
    + apply list_fmap_ext. intros i b Hb. rewrite Hother; [done|].
      intros ->. apply Hin. apply elem_of_firsts. by eapply list_elem_of_lookup_2.
    + assert (Hnil : slotsOf a trace = []).
      { destruct (slotsOf a trace) as [|k l] eqn:E; [done|]. exfalso.
        assert (Hk : k ∈ slotsOf a trace) by (rewrite E; left).
        apply elem_of_slotsOf in Hk. apply Hin.
        apply list_elem_of_fmap. by exists (a, k). }
      by rewrite Hnil.
Qed.

Lemma firstTouchList_snoc_old (trace : list (Z * Z)) (a s : Z) :
  (a, s) ∈ trace → firstTouchList (trace ++ [(a, s)]) = firstTouchList trace.
Proof.
  intros Hold. unfold firstTouchList.
  rewrite fmap_app. change ([(a, s)].*1) with [a]. rewrite firsts_snoc.
  rewrite decide_True by (apply list_elem_of_fmap; by exists (a, s)).
  apply list_fmap_ext. intros i b Hb. f_equal.
  rewrite slotsOf_snoc. simpl. destruct (decide (a = b)) as [->|]; [|done].
  rewrite firsts_snoc. rewrite decide_True; [done|]. by apply elem_of_slotsOf.
Qed.

Lemma index_last {S} (l : list Z) (s : S) :
  index l (len l - 1) s = match last l with Some x => (s, Ok x) | None => (s, Panic) end.
Proof.
  unfold index, len. destruct l as [|x l] using rev_ind.
  - reflexivity.
  - rewrite last_snoc, length_app. simpl.
    replace (Z.of_nat (length l + 1) - 1 <? 0) with false by (symmetry; apply Z.ltb_ge; lia).
    replace (Z.to_nat (Z.of_nat (length l + 1) - 1)) with (length l) by lia.
    rewrite lookup_app_r by lia. by rewrite Nat.sub_diag.
Qed.

Lemma peek_last (scope : ScopeContext) (w : World) :
  peek scope w = match last (Stack scope) with Some x => (w, Ok x) | None => (w, Panic) end.
Proof. apply index_last. Qed.

Lemma appendToAccessList_touched (op : Z) (scope : ScopeContext) (w : World) (a s : Z) :
  touched scope = Some (a, s) →
  appendToAccessList op scope w =
    (if bool_decide ((a, s) ∈ addressSlotAccessListSet (interp w)) then w
     else setInterp (recordSlot a s (interp w)) w, Ok tt).
Proof.
  unfold touched, appendToAccessList. intros Ht. munfold.
  rewrite peek_last. destruct (last (Stack scope)) as [loc|]; [|done].
  simpl in Ht. injection Ht as <- <-.
  by destruct (bool_decide _).
Qed.

Lemma len_lt_1_last {A} (l : list A) : (len l <? 1) = bool_decide (last l = None).
Proof.
  unfold len. destruct l as [|x l] using rev_ind; [done|].
  rewrite last_snoc, length_app.
  rewrite bool_decide_eq_false_2 by done. apply Z.ltb_ge. simpl. lia.
Qed.

(** What the storage hook does, case by case. *)
Lemma registerAddressStorage_cases remote op scope blk (w : World) :
  registerAddressStorage remote op scope blk w =
    match last (Stack scope) with
    | None => (w, Err ErrInsufficientStackElements)
    | Some loc =>
        let key := (Address scope, Bytes32 loc) in
        if bool_decide (is_Some (addressStorageSet (interp w) !! key)) then (w, Ok tt)
        else
          let w1 := logFetch (FetchStorage (Address scope) (Bytes32 loc) blk) w in
          match eth_getStorageAt remote (Address scope) (Bytes32 loc) blk with
          | None => (w1, Err NetworkError)
          | Some v =>
              (setInterp (markStorage key v (interp w1))
                 (setDb (SetState (db w1) (Address scope) (Bytes32 loc) v) w1), Ok tt)
          end
    end.
Proof.
  unfold registerAddressStorage, StackData. rewrite len_lt_1_last.
  destruct (last (Stack scope)) as [loc|] eqn:Hl.
  - rewrite bool_decide_eq_false_2 by done. munfold. rewrite peek_last, Hl. simpl.
    destruct (bool_decide _); [done|].
    unfold GetStorageAtRpc. munfold.
    by destruct (eth_getStorageAt _ _ _ _).
  - by rewrite bool_decide_eq_true_2.
Qed.

Lemma preDispatch_storage remote op scope (w : World) (a s : Z) :
  (∀ a k b, is_Some (eth_getStorageAt remote a k b)) →
  interactWithStorage op = true → touched scope = Some (a, s) →
  ∃ w', preDispatch remote op scope w = (w', Ok tt)
        ∧ accessList (interp w') =
            (if bool_decide ((a, s) ∈ addressSlotAccessListSet (interp w))
             then accessList (interp w)
             else accessList (recordSlot a s (interp w)))
        ∧ addressSlotAccessListSet (interp w') = {[(a, s)]} ∪ addressSlotAccessListSet (interp w).
Proof.
  intros Hremote Hop Ht. unfold preDispatch.
  assert (Hcases : op = SLOAD ∨ op = SSTORE).
  { unfold interactWithStorage in Hop. apply orb_true_iff in Hop.
    destruct Hop as [H|H]; apply bool_decide_eq_true in H; auto. }
  assert (Hfin : ∀ w0 : World, accessList (interp w0) = accessList (interp w) →
            addressSlotAccessListSet (interp w0) = addressSlotAccessListSet (interp w) →
            ∃ w', appendToAccessList op scope w0 = (w', Ok tt)
              ∧ accessList (interp w') =
                  (if bool_decide ((a, s) ∈ addressSlotAccessListSet (interp w))
                   then accessList (interp w)
                   else accessList (recordSlot a s (interp w)))
              ∧ addressSlotAccessListSet (interp w') = {[(a, s)]} ∪ addressSlotAccessListSet (interp w)).
  { intros w0 Hal Hset. rewrite (appendToAccessList_touched _ _ _ a s Ht).
    eexists; split; [done|]. rewrite Hset.
    destruct (bool_decide _) eqn:Hb.
    - apply bool_decide_eq_true in Hb. split; [done|]. rewrite Hset. set_solver.
    - simpl. unfold recordSlot. simpl. rewrite Hal, Hset. done. }
  munfold. rewrite Hop.
  destruct Hcases as [-> | ->].
  - change (readStorage SLOAD) with true. cbv beta iota.
    rewrite registerAddressStorage_cases.
    unfold touched in Ht. destruct (last (Stack scope)) as [loc|]; [|done].
    simpl in Ht. injection Ht as <- <-. cbv zeta.
    destruct (bool_decide (is_Some _)).
    + by apply Hfin.
    + destruct (Hremote (Address scope) (Bytes32 loc) (blockTag (BlockNumber w))) as [v ->].
      by apply Hfin.
  - change (readStorage SSTORE) with false. change (isCall SSTORE) with false.
    change (isExtCode SSTORE) with false. cbv beta iota.
    by apply Hfin.
Qed.

Lemma dispatchAll_access_list remote (ops : list (Z * ScopeContext)) :
  (∀ a k b, is_Some (eth_getStorageAt remote a k b)) →
  ∀ (keys p : list (Z * Z)) (w : World),
  Forall2 (λ o key, interactWithStorage o.1 = true ∧ touched o.2 = Some key) ops keys →
  accessList (interp w) = firstTouchList p →
  addressSlotAccessListSet (interp w) = list_to_set p →
  ∃ w', dispatchAll remote ops w = (w', Ok tt)
        ∧ accessList (interp w') = firstTouchList (p ++ keys)
        ∧ addressSlotAccessListSet (interp w') = list_to_set (p ++ keys).
Proof.
  intros Hremote. induction ops as [|[op scope] ops IH]; intros keys p w Hops Hal Hset.
  - apply Forall2_nil_inv_l in Hops as ->. rewrite app_nil_r. by exists w.
  - apply Forall2_cons_inv_l in Hops as ([a s] & keys' & [Hop Ht] & Hops & ->).
    simpl in Hop, Ht.
    destruct (preDispatch_storage remote op scope w a s Hremote Hop Ht)
      as (w1 & Hrun & Hal1 & Hset1).
    destruct (IH keys' (p ++ [(a, s)]) w1 Hops) as (w' & Hrest & Hal' & Hset').
    + rewrite Hal1. destruct (bool_decide _) eqn:Hb.
      * apply bool_decide_eq_true in Hb. rewrite Hset, elem_of_list_to_set in Hb.
        by rewrite firstTouchList_snoc_old.
      * apply bool_decide_eq_false in Hb. rewrite Hset, elem_of_list_to_set in Hb.
        unfold recordSlot. simpl. rewrite Hal. by apply firstTouchList_snoc_new.
    + rewrite Hset1, Hset, list_to_set_app_L. simpl. set_solver.
    + exists w'. rewrite <- !app_assoc in *. split; [|done].
      cbn [dispatchAll]. munfold. by rewrite Hrun.
Qed.

Lemma pairsOf_firstTouchList (keys : list (Z * Z)) (a k : Z) :
  (a, k) ∈ pairsOf (firstTouchList keys) ↔ (a, k) ∈ keys.
Proof.
  unfold pairsOf, firstTouchList. rewrite list_elem_of_bind. split.
  - intros (t & Hin & Ht). apply list_elem_of_fmap in Ht as (b & -> & _).
    apply list_elem_of_fmap in Hin as (k' & Heq & Hk'). simpl in *.
    injection Heq as -> ->. rewrite elem_of_firsts, elem_of_slotsOf in Hk'. done.
  - intros Hin. exists (mkAccessTuple a (firsts (slotsOf a keys))). split.
    + apply list_elem_of_fmap. exists k. split; [done|].
      apply elem_of_firsts. by apply elem_of_slotsOf.
    + apply list_elem_of_fmap. exists a. split; [done|].
      apply elem_of_firsts. apply list_elem_of_fmap. by exists (a, k).
Qed.

Lemma NoDup_pairsOf (g : Z → list Z) (L : list Z) :
  NoDup L → (∀ a, NoDup (g a)) → NoDup (pairsOf ((λ a, mkAccessTuple a (g a)) <$> L)).
Proof.
  intros HL Hg. induction L as [|a L IH]; [constructor|].
  apply NoDup_cons in HL as [Ha HL]. unfold pairsOf in *.
  cbn [fmap list_fmap mbind list_bind at_Address at_StorageKeys].
  apply NoDup_app. split; [|split].
  - apply NoDup_fmap_2; [|apply Hg]. intros x y Heq. by injection Heq.
  - intros [b k] Hin Hin'. apply list_elem_of_fmap in Hin as (k' & Heq & _).
    injection Heq as -> ->.
    apply list_elem_of_bind in Hin' as (t & Hin' & Ht).
    apply list_elem_of_fmap in Ht as (b & -> & Hb).
    apply list_elem_of_fmap in Hin' as (k2 & Heq & _). simpl in Heq.
    injection Heq as -> ->. done.
  - by apply IH.
Qed.

Lemma firstTouchList_NoDup (keys : list (Z * Z)) :
  NoDup (at_Address <$> firstTouchList keys) ∧ NoDup (pairsOf (firstTouchList keys)).
Proof.
  split.
  - unfold firstTouchList. rewrite <- list_fmap_compose.
    replace (_ <$> firsts (keys.*1)) with (firsts (keys.*1)); [apply NoDup_firsts|].
    symmetry. transitivity (id <$> firsts (keys.*1)); [by apply list_fmap_ext|].
    apply list_fmap_id.
  - apply NoDup_pairsOf; [apply NoDup_firsts|]. intros a. apply NoDup_firsts.
Qed.

Lemma firstTouchList_example (A B s1 s2 : Z) :
  A ≠ B → s1 ≠ s2 →
  firstTouchList [(A, s1); (A, s2); (B, s1)]
  = [mkAccessTuple A [s1; s2]; mkAccessTuple B [s1]].
Proof.
  intros HAB Hs. unfold firstTouchList, slotsOf. simpl.
  repeat (first [ rewrite filter_nil
                | rewrite filter_cons_True by (simpl; congruence)
                | rewrite filter_cons_False by (simpl; intros ?; congruence) ]; simpl).
  done.
Qed.

(** C3.  An interpreter created from a record starts with an empty
    access list.  When storage opcodes (SLOAD or SSTORE) are dispatched
    one after the other and the remote node answers the storage requests,
    the access list it ends with is the first-touch list of the touched
    (address, slot) pairs: one tuple per address in the order the
    addresses are first touched, each with its slots in the order they
    are first touched, no address and no pair twice.  For the touches
    (A, s1), (A, s2), (B, s1) with A and B distinct and s1 and s2
    distinct this is the list of A with s1 and s2, then B with s1. *)
Theorem access_list_first_touch_order
    (remote : RemoteSource) (ops : list (Z * ScopeContext)) (keys : list (Z * Z))
    (record : option RecordToInitiateState) (w : World) (A B s1 s2 : Z) :
  (∀ a k b, is_Some (eth_getStorageAt remote a k b)) →
  Forall2 (λ o key, interactWithStorage o.1 = true ∧ touched o.2 = Some key) ops keys →
  ∃ w', dispatchAll remote ops (setInterp (NewEVMInterpreter record) w) = (w', Ok tt)
        ∧ accessList (interp w') = firstTouchList keys
        ∧ NoDup (at_Address <$> accessList (interp w'))
        ∧ NoDup (pairsOf (accessList (interp w')))
        ∧ (A ≠ B → s1 ≠ s2 → keys = [(A, s1); (A, s2); (B, s1)] →
           accessList (interp w') = [mkAccessTuple A [s1; s2]; mkAccessTuple B [s1]]).
Proof.
  intros Hremote Hops.
  destruct (dispatchAll_access_list remote ops Hremote keys []
              (setInterp (NewEVMInterpreter record) w) Hops) as (w' & Hrun & Hal & _).
  - by destruct record.
  - by destruct record.
  - exists w'. simpl in Hal. rewrite Hal.
    destruct (firstTouchList_NoDup keys) as [Ha Hp].
    repeat split; try done.
    intros HAB Hs ->. by apply firstTouchList_example.
Qed.

Lemma access_list_first_touch_order_witness :
  ∃ w', dispatchAll remoteZero
          [(SLOAD, scopeAt 17 [5]); (SSTORE, scopeAt 17 [9; 6]); (SLOAD, scopeAt 18 [5])]
          (setInterp (NewEVMInterpreter None) (freshWorld emptyState 1))
        = (w', Ok tt)
      ∧ accessList (interp w') = [mkAccessTuple 17 [5; 6]; mkAccessTuple 18 [5]].
Proof.
  destruct (access_list_first_touch_order remoteZero
              [(SLOAD, scopeAt 17 [5]); (SSTORE, scopeAt 17 [9; 6]); (SLOAD, scopeAt 18 [5])]
              [(17, 5); (17, 6); (18, 5)] None
              (freshWorld emptyState 1) 17 18 5 6)
    as (w' & Hrun & _ & _ & _ & Hex).
  - intros a k b. by eexists.
  - repeat constructor.
  - exists w'. split; [exact Hrun|]. apply Hex; [lia|lia|reflexivity].
Defined.

(** *** The hooks, case by case *)

Lemma fetchAndInstallCode_cases remote addr blk (w : World) :
  fetchAndInstallCode remote addr blk w =
    let w1 := logFetch (FetchCode addr blk) w in
    match eth_getCode remote addr blk with
    | None => (w1, Err NetworkError)
    | Some code => (installCode addr code w1, Ok tt)
    end.
Proof.
  unfold fetchAndInstallCode, GetCodeRpc, installCode. munfold. simpl.
  destruct (eth_getCode remote addr blk) as [code|]; [|done].
  simpl. by destruct (Exist (db w) addr).
Qed.

Lemma index_lookup {S} (l : list Z) (i : Z) (s : S) :
  0 ≤ i → index l i s = match l !! Z.to_nat i with Some x => (s, Ok x) | None => (s, Panic) end.
Proof.
  intros Hi. unfold index. replace (i <? 0) with false by (symmetry; apply Z.ltb_ge; lia).
  by destruct (l !! Z.to_nat i).
Qed.

(** What the call hook does, case by case. *)
Lemma registerAddressCodeForCalls_cases remote op scope blk (w : World) :
  registerAddressCodeForCalls remote op scope blk w =
    let st := Stack scope in
    if len st <? 3 then (w, Err ErrInsufficientStackElements)
    else
      match st !! Z.to_nat (len st - 2), st !! Z.to_nat (len st - 3) with
      | Some a, Some value =>
          let addr := Bytes20 a in
          if bool_decide (addr ∈ addressCodeSet (interp w)) then (w, Ok tt)
          else
            let w1 := logFetch (FetchCode addr blk) w in
            match eth_getCode remote addr blk with
            | None => (w1, Err NetworkError)
            | Some code =>
                let w2 := installCode addr code w1 in
                if (bool_decide (op = CALL) || bool_decide (op = CALLCODE))
                   && (GetBalance (db w2) addr <? value)
                   && negb (bool_decide (addr ∈ addressBalanceSet (interp w2)))
                then
                  let w3 := logFetch (FetchBalance addr blk) w2 in
                  match eth_getBalance remote addr blk with
                  | None => (w3, Err NetworkError)
                  | Some balanceBig =>
                      match MustFromBig balanceBig with
                      | None => (w3, Panic)
                      | Some balance =>
                          if value <=? balance then (topUp addr balance w3, Ok tt)
                          else (w3, Ok tt)
                      end
                  end
                else (w2, Ok tt)
            end
      | _, _ => (w, Panic)
      end.
Proof.
  unfold registerAddressCodeForCalls, StackData. cbv zeta.
  destruct (len (Stack scope) <? 3) eqn:Hlen; [done|].
  apply Z.ltb_ge in Hlen.
  assert (H2 : is_Some (Stack scope !! Z.to_nat (len (Stack scope) - 2))).
  { apply lookup_lt_is_Some. unfold len in *. lia. }
  assert (H3 : is_Some (Stack scope !! Z.to_nat (len (Stack scope) - 3))).
  { apply lookup_lt_is_Some. unfold len in *. lia. }
  destruct H2 as [a Ha], H3 as [value Hv]. rewrite Ha, Hv.
  unfold mbind at 1, M_bind at 1, bind at 1.
  rewrite index_lookup, Ha by lia.
  unfold mbind at 1, M_bind at 1, bind at 1, gets at 1.
  destruct (bool_decide (Bytes20 a ∈ addressCodeSet (interp w))); [done|].
  unfold mbind at 1, M_bind at 1, bind at 1.
  rewrite fetchAndInstallCode_cases. cbv zeta.
  destruct (eth_getCode remote (Bytes20 a) blk) as [code|]; [|done].
  remember (installCode _ _ _) as w2 eqn:Hw2. clear Hw2.
  destruct (bool_decide (op = CALL) || bool_decide (op = CALLCODE)); [|done].
  unfold mbind at 1, M_bind at 1, bind at 1.
  rewrite index_lookup, Hv by lia.
  munfold. simpl.
  destruct (GetBalance (db w2) (Bytes20 a) <? value); [|done].
  destruct (bool_decide (Bytes20 a ∈ addressBalanceSet (interp w2))); [done|]. simpl.
  unfold GetBalanceRpc. munfold. simpl.
  destruct (eth_getBalance remote (Bytes20 a) blk) as [big|]; [|done].
  destruct (MustFromBig big) as [balance|]; [|done].
  by destruct (value <=? balance).
Qed.

Lemma registerAddressCodeForExt_cases remote op scope blk (w : World) :
  registerAddressCodeForExt remote op scope blk w =
    match last (Stack scope) with
    | None => (w, Err ErrInsufficientStackElements)
    | Some a =>
        let addr := Bytes20 a in
        if bool_decide (addr ∈ addressCodeSet (interp w)) then (w, Ok tt)
        else
          let w1 := logFetch (FetchCode addr blk) w in
          match eth_getCode remote addr blk with
          | None => (w1, Err NetworkError)
          | Some code => (installCode addr code w1, Ok tt)
          end
    end.
Proof.
  unfold registerAddressCodeForExt, StackData. rewrite len_lt_1_last.
  destruct (last (Stack scope)) as [a|] eqn:Hl.
  - rewrite bool_decide_eq_false_2 by done. cbv zeta.
    unfold mbind at 1, M_bind at 1, bind at 1. rewrite index_last, Hl.
    unfold mbind at 1, M_bind at 1, bind at 1, gets at 1.
    destruct (bool_decide _); [done|]. apply fetchAndInstallCode_cases.
  - by rewrite bool_decide_eq_true_2.
Qed.

(** *** Stack depth of the hooks *)

Lemma preDispatch_shallow_fetching remote op scope (w : World) :
  readStorage op || isCall op || isExtCode op = true →
  len (Stack scope) < hookDepth op →
  preDispatch remote op scope w = (w, Err ErrInsufficientStackElements).
Proof.
  intros Hop Hlen. unfold preDispatch, hookDepth in *. munfold.
  destruct (readStorage op) eqn:Hr.
  - assert (isCall op = false) as Hc.
    { unfold readStorage, isCall in *. apply bool_decide_eq_true in Hr. by subst. }
    rewrite Hc in Hlen. simpl in Hlen.
    rewrite registerAddressStorage_cases.
    replace (last (Stack scope)) with (@None Z); [done|].
    symmetry. apply (bool_decide_eq_true_1 _). rewrite <- len_lt_1_last. apply Z.ltb_lt. lia.
  - destruct (isCall op) eqn:Hc.
    + rewrite registerAddressCodeForCalls_cases. cbv zeta.
      by replace (len (Stack scope) <? 3) with true by (symmetry; apply Z.ltb_lt; lia).
    + simpl in Hop. rewrite Hop in *. simpl in Hlen.
      rewrite registerAddressCodeForExt_cases.
      replace (last (Stack scope)) with (@None Z); [done|].
      symmetry. apply (bool_decide_eq_true_1 _). rewrite <- len_lt_1_last. apply Z.ltb_lt. lia.
Qed.

(** C7.  A storage write dispatched on an empty stack: the hook that
    maintains the access list reads the top of the stack without a depth
    check, so the run panics on the index instead of returning a
    stack-underflow error.  This holds for every jump table, since the
    hooks run before the table is consulted. *)
Theorem sstore_on_empty_stack_panics
    (remote : RemoteSource) (table : Z → operation) (fuel : nat)
    (caller addr val gas : Z) (code input : list Z) (w : World) :
  Run remote table (S fuel) (mkContract caller addr val (SSTORE :: code) [] gas) input w
  = (w, Panic).
Proof.
  unfold Run. cbn [Code CallerAddress self value Gas].
  replace (len (SSTORE :: code) =? 0) with false
    by (symmetry; apply Z.eqb_neq; unfold len; simpl; lia).
  cbn [loop]. unfold GetOp. cbn [Code contract lookup]. simpl (default _ _).
  unfold preDispatch. munfold.
  change (readStorage SSTORE) with false. change (isCall SSTORE) with false.
  change (isExtCode SSTORE) with false. change (interactWithStorage SSTORE) with true.
  cbv beta iota. unfold appendToAccessList. munfold.
  rewrite peek_last. reflexivity.
Qed.

(** *** The ideal state *)

Lemma lookup_setObject (s : StateDB) (a b : Z) (o : Account) :
  accounts (setObject s a o) !! b = if decide (a = b) then Some o else accounts s !! b.
Proof. unfold setObject, setAccounts. simpl. apply lookup_insert. Qed.

Lemma getObject_setObject (s : StateDB) (a b : Z) (o : Account) :
  getObject (setObject s a o) b = if decide (a = b) then o else getObject s b.
Proof. unfold getObject. rewrite lookup_setObject. by destruct (decide (a = b)). Qed.

Lemma Exist_setObject (s : StateDB) (a b : Z) (o : Account) :
  Exist (setObject s a o) b = true ↔ a = b ∨ Exist s b = true.
Proof.
  unfold Exist. rewrite !bool_decide_eq_true, lookup_setObject.
  destruct (decide (a = b)); [|intuition]. split; [by left|by eexists].
Qed.

Section IdealState.
Variable originState : StateDB.
Variable record : RecordToInitiateState.

Local Abbreviation withCode := (idealCodes originState record).
Local Abbreviation withBalance := (idealBalances originState record).
Local Abbreviation withStorage := (idealStorage originState record).

Lemma withCode_accounts (a : Z) :
  accounts withCode !! a =
    if decide (a ∈ AddressCodeSet record)
    then Some (mkAccount 0 (GetCode originState a) ∅) else None.
Proof.
  unfold idealCodes. revert a.
  pose (P := λ (tmp : StateDB) (X : gset Z), ∀ a, accounts tmp !! a =
           if decide (a ∈ X) then Some (mkAccount 0 (GetCode originState a) ∅) else None).
  apply (set_fold_ind_L P); unfold P; clear P.
  - intros a. by rewrite decide_False by set_solver.
  - intros x X tmp Hx IH a. unfold SetCode, CreateAccount.
    rewrite lookup_setObject, getObject_setObject.
    destruct (decide (x = x)) as [_|]; [|done].
    destruct (decide (x = a)) as [->|Hne].
    + by rewrite decide_True by set_solver.
    + rewrite lookup_setObject. destruct (decide (x = a)); [done|]. rewrite IH.
      destruct (decide (a ∈ X)).
      * by rewrite decide_True by set_solver.
      * by rewrite decide_False by set_solver.
Qed.

Lemma withBalance_accounts (a : Z) :
  accounts withBalance !! a =
    if decide (a ∈ AddressBalanceSet record)
    then Some (mkAccount (GetBalance originState a)
                 (acc_code (getObject withCode a)) (acc_storage (getObject withCode a)))
    else accounts withCode !! a.
Proof.
  unfold idealBalances. revert a.
  pose (P := λ (tmp : StateDB) (X : gset Z), ∀ a, accounts tmp !! a =
           if decide (a ∈ X)
           then Some (mkAccount (GetBalance originState a)
                        (acc_code (getObject withCode a)) (acc_storage (getObject withCode a)))
           else accounts withCode !! a).
  apply (set_fold_ind_L P); unfold P; clear P.
  - intros a. by rewrite decide_False by set_solver.
  - intros x X tmp Hx IH a. unfold SetBalance. rewrite lookup_setObject.
    destruct (decide (x = a)) as [->|Hne].
    + rewrite decide_True by set_solver. unfold getObject at 1 2.
      rewrite IH, decide_False by done. done.
    + rewrite IH. destruct (decide (a ∈ X)).
      * by rewrite decide_True by set_solver.
      * by rewrite decide_False by set_solver.
Qed.

Lemma withStorage_reads :
  (∀ a, GetCode withStorage a = GetCode withBalance a)
  ∧ (∀ a, GetBalance withStorage a = GetBalance withBalance a)
  ∧ (∀ a k, GetState withStorage a k =
            default (GetState withBalance a k) (AddressStorageSet record !! (a, k)))
  ∧ (∀ a, Exist withStorage a = true ↔
          Exist withBalance a = true ∨ ∃ k, is_Some (AddressStorageSet record !! (a, k))).
Proof.
  unfold idealStorage.
  pose (P := λ (tmp : StateDB) (m : gmap (Z * Z) Z),
           (∀ a, GetCode tmp a = GetCode withBalance a)
           ∧ (∀ a, GetBalance tmp a = GetBalance withBalance a)
           ∧ (∀ a k, GetState tmp a k = default (GetState withBalance a k) (m !! (a, k)))
           ∧ (∀ a, Exist tmp a = true ↔
                   Exist withBalance a = true ∨ ∃ k, is_Some (m !! (a, k)))).
  apply (map_fold_weak_ind P); unfold P; clear P.
  - repeat split; try done.
    + by left.
    + intros [H|[k [v H]]]; [done|]. by rewrite lookup_empty in H.
  - intros [b j] v m tmp Hfresh (Hcode & Hbal & Hst & Hex). simpl.
    repeat split.
    + intros a. rewrite <- Hcode. unfold GetCode, SetState.
      rewrite getObject_setObject. by destruct (decide (b = a)) as [->|].
    + intros a. rewrite <- Hbal. unfold GetBalance, SetState.
      rewrite getObject_setObject. by destruct (decide (b = a)) as [->|].
    + intros a k. unfold GetState at 1. unfold SetState. rewrite getObject_setObject.
      destruct (decide (b = a)) as [->|Hne]; simpl.
      * destruct (decide (j = k)) as [->|Hne].
        -- by rewrite !lookup_insert_eq.
        -- rewrite !lookup_insert_ne by congruence. apply Hst.
      * rewrite lookup_insert_ne by congruence. apply Hst.
    + unfold SetState. rewrite Exist_setObject. intros [->|H].
      * right. exists j. rewrite lookup_insert_eq. by eexists.
      * apply Hex in H as [H|[k H]]; [by left|].
        right. exists k. rewrite lookup_insert.
        by destruct (decide ((b, j) = (a, k))); [eexists|].
    + unfold SetState. rewrite Exist_setObject.
      destruct (decide (b = a)) as [->|Hne]; [by left|].
      intros H. right. apply Hex.
      destruct H as [H|[k H]]; [by left|]. right. exists k.
      by rewrite lookup_insert_ne in H by congruence.
Qed.

Lemma InitIdealState_unfold :
  InitIdealState originState record = CommitAndReopen withStorage.
Proof. reflexivity. Qed.

Lemma InitIdealState_GetCode (a : Z) :
  GetCode (InitIdealState originState record) a =
    if decide (a ∈ AddressCodeSet record) then GetCode originState a else [].
Proof.
  rewrite InitIdealState_unfold.
  change (GetCode (CommitAndReopen withStorage) a) with (GetCode withStorage a).
  rewrite (proj1 withStorage_reads). unfold GetCode at 1, getObject.
  rewrite withBalance_accounts.
  destruct (decide (a ∈ AddressBalanceSet record)); simpl; unfold getObject;
    rewrite withCode_accounts; by destruct (decide (a ∈ AddressCodeSet record)).
Qed.

Lemma InitIdealState_GetBalance (a : Z) :
  GetBalance (InitIdealState originState record) a =
    if decide (a ∈ AddressBalanceSet record) then GetBalance originState a else 0.
Proof.
  rewrite InitIdealState_unfold.
  change (GetBalance (CommitAndReopen withStorage) a) with (GetBalance withStorage a).
  rewrite (proj1 (proj2 withStorage_reads)). unfold GetBalance at 1, getObject.
  rewrite withBalance_accounts.
  destruct (decide (a ∈ AddressBalanceSet record)); simpl; [done|].
  rewrite withCode_accounts; by destruct (decide (a ∈ AddressCodeSet record)).
Qed.

Lemma InitIdealState_GetState (a k : Z) :
  GetState (InitIdealState originState record) a k =
    default 0 (AddressStorageSet record !! (a, k)).
Proof.
  rewrite InitIdealState_unfold.
  change (GetState (CommitAndReopen withStorage) a k) with (GetState withStorage a k).
  rewrite (proj1 (proj2 (proj2 withStorage_reads))).
  replace (GetState withBalance a k) with 0; [done|].
  unfold GetState, getObject. rewrite withBalance_accounts.
  destruct (decide (a ∈ AddressBalanceSet record)); simpl; unfold getObject;
    rewrite withCode_accounts; by destruct (decide (a ∈ AddressCodeSet record)).
Qed.

Lemma InitIdealState_Exist (a : Z) :
  Exist (InitIdealState originState record) a = true ↔
    a ∈ AddressCodeSet record ∨ a ∈ AddressBalanceSet record
    ∨ ∃ k, is_Some (AddressStorageSet record !! (a, k)).
Proof.
  rewrite InitIdealState_unfold.
  change (Exist (CommitAndReopen withStorage) a) with (Exist withStorage a).
  rewrite (proj2 (proj2 (proj2 withStorage_reads))).
  unfold Exist. rewrite bool_decide_eq_true, withBalance_accounts, withCode_accounts.
  destruct (decide (a ∈ AddressBalanceSet record)),
           (decide (a ∈ AddressCodeSet record)); split; intros H;
    try (destruct H as [H|H]; [|by auto]); auto;
    try (by eexists); try (by destruct H as [x H]).
  - destruct H as [H|[H|H]]; [done|done|by right].
Qed.

End IdealState.

(** C1, as the code has it: the ideal state holds the code of the
    reference state for the addresses of the code set, the balance of the
    reference state for the addresses of the balance set, and for every
    (address, slot) of the storage map the value the record itself holds
    for it, which is the value fetched when the slot was first read, not
    the value of the reference state.  Everything else reads back as
    empty or zero, and no other account exists. *)
Theorem ideal_state_reads (originState : StateDB) (record : RecordToInitiateState) :
  (∀ a, GetCode (InitIdealState originState record) a =
        if decide (a ∈ AddressCodeSet record) then GetCode originState a else [])
  ∧ (∀ a, GetBalance (InitIdealState originState record) a =
          if decide (a ∈ AddressBalanceSet record) then GetBalance originState a else 0)
  ∧ (∀ a k, GetState (InitIdealState originState record) a k =
            default 0 (AddressStorageSet record !! (a, k)))
  ∧ (∀ a, Exist (InitIdealState originState record) a = true ↔
          a ∈ AddressCodeSet record ∨ a ∈ AddressBalanceSet record
          ∨ ∃ k, is_Some (AddressStorageSet record !! (a, k))).
Proof.
  split_and!.
  - apply InitIdealState_GetCode.
  - apply InitIdealState_GetBalance.
  - apply InitIdealState_GetState.
  - apply InitIdealState_Exist.
Qed.

(** The claim as the specification words it fails: after a transaction
    read slot 0 (fetched as 0) and wrote 1, the reference state holds 1
    and the ideal state holds the recorded 0. *)
Lemma ideal_state_storage_from_record :
  ¬ copiesReferenceState stateAfterWrite recordAfterWrite.
Proof.
  intros (_ & _ & Hstorage). specialize (Hstorage 17 0).
  rewrite InitIdealState_GetState in Hstorage.
  vm_compute in Hstorage. discriminate.
Qed.


(** *** The balance top-up of the call hook *)

Lemma u256_top_up (current balance : Z) :
  0 ≤ balance < two256 → u256 (current + u256 (balance - current)) = balance.
Proof.
  intros Hb. unfold u256. rewrite Zplus_mod_idemp_r.
  replace (current + (balance - current)) with balance by lia.
  apply Z.mod_small. done.
Qed.

Lemma MustFromBig_small (b : Z) : 0 ≤ b < two256 → MustFromBig b = Some b.
Proof.
  intros Hb. unfold MustFromBig, u256.
  replace (Z.abs b <? two256) with true by (symmetry; apply Z.ltb_lt; lia).
  by rewrite Z.mod_small.
Qed.

Lemma GetBalance_installCode (addr : Z) (code : list Z) (w : World) :
  GetBalance (db (installCode addr code w)) addr = GetBalance (db w) addr.
Proof.
  unfold installCode, GetBalance, SetCode, CreateAccount. simpl.
  rewrite getObject_setObject, decide_True by done. simpl.
  destruct (Exist (db w) addr) eqn:He; [done|].
  rewrite getObject_setObject, decide_True by done.
  unfold Exist in He. apply bool_decide_eq_false in He.
  unfold getObject. destruct (accounts (db w) !! addr); [|done].
  exfalso. apply He. by eexists.
Qed.

Lemma GetBalance_topUp (addr balance : Z) (w : World) :
  0 ≤ balance < two256 → GetBalance (db (topUp addr balance w)) addr = balance.
Proof.
  intros Hb. unfold topUp, AddBalance, SetBalance. simpl. unfold GetBalance at 1.
  rewrite getObject_setObject, decide_True by done. simpl.
  by apply u256_top_up.
Qed.

(** C9, as the code has it: the balance is handled only on the path that
    fetches the code of the target, that is, when the target is not yet
    in the code set.  Then the remote balance is fetched at the block of
    the simulation when the value exceeds the local balance and the
    balance was not fetched before; when it covers the value, the local
    balance grows by the difference and ends equal to the remote one,
    and the address is marked. *)
Theorem call_hook_tops_up_balance
    (remote : RemoteSource) (op : Z) (scope : ScopeContext) (w : World)
    (a val remoteBalance : Z) (code : list Z) :
  op = CALL ∨ op = CALLCODE →
  3 ≤ len (Stack scope) →
  Stack scope !! Z.to_nat (len (Stack scope) - 2) = Some a →
  Stack scope !! Z.to_nat (len (Stack scope) - 3) = Some val →
  Bytes20 a ∉ addressCodeSet (interp w) →
  eth_getCode remote (Bytes20 a) (blockTag (BlockNumber w)) = Some code →
  GetBalance (db w) (Bytes20 a) < val →
  Bytes20 a ∉ addressBalanceSet (interp w) →
  eth_getBalance remote (Bytes20 a) (blockTag (BlockNumber w)) = Some remoteBalance →
  0 ≤ remoteBalance < two256 →
  ∃ w', preDispatch remote op scope w = (w', Ok tt)
        ∧ rpcLog w' = rpcLog w ++ [FetchCode (Bytes20 a) (blockTag (BlockNumber w));
                                   FetchBalance (Bytes20 a) (blockTag (BlockNumber w))]
        ∧ (val ≤ remoteBalance →
             GetBalance (db w') (Bytes20 a)
               = u256 (GetBalance (db w) (Bytes20 a)
                       + u256 (remoteBalance - GetBalance (db w) (Bytes20 a)))
             ∧ GetBalance (db w') (Bytes20 a) = remoteBalance
             ∧ Bytes20 a ∈ addressBalanceSet (interp w'))
        ∧ (remoteBalance < val →
             GetBalance (db w') (Bytes20 a) = GetBalance (db w) (Bytes20 a)
             ∧ Bytes20 a ∉ addressBalanceSet (interp w')).
Proof.
  intros Hop Hlen Ha Hv Hcode Hrc Hlt Hbal Hrb Hrange.
  set (addr := Bytes20 a) in *. set (blk := blockTag (BlockNumber w)) in *.
  unfold preDispatch. munfold.
  assert (readStorage op = false) as ->
    by (destruct Hop as [-> | ->]; reflexivity).
  assert (isCall op = true) as ->
    by (destruct Hop as [-> | ->]; reflexivity).
  assert (interactWithStorage op = false) as ->
    by (destruct Hop as [-> | ->]; reflexivity).
  rewrite registerAddressCodeForCalls_cases. cbv zeta.
  replace (len (Stack scope) <? 3) with false by (symmetry; apply Z.ltb_ge; lia).
  rewrite Ha, Hv. fold addr. fold blk.
  rewrite bool_decide_eq_false_2 by done. rewrite Hrc.
  assert ((bool_decide (op = CALL) || bool_decide (op = CALLCODE)) = true) as ->.
  { destruct Hop as [-> | ->]; reflexivity. }
  rewrite GetBalance_installCode.
  replace (GetBalance (db (logFetch (FetchCode addr blk) w)) addr <? val) with true
    by (symmetry; apply Z.ltb_lt; exact Hlt).
  rewrite bool_decide_eq_false_2 by (unfold installCode; simpl; set_solver).
  cbn [andb negb]. rewrite Hrb, (MustFromBig_small _ Hrange).
  destruct (val <=? remoteBalance) eqn:Hcmp.
  - apply Z.leb_le in Hcmp. eexists. split; [reflexivity|]. split; [|split].
    + simpl. by rewrite <- app_assoc.
    + intros _. rewrite GetBalance_topUp by done.
      split; [|split]; [|done|].
      * symmetry. by apply u256_top_up.
      * unfold topUp. simpl. set_solver.
    + lia.
  - apply Z.leb_gt in Hcmp. eexists. split; [reflexivity|]. split; [|split].
    + simpl. by rewrite <- app_assoc.
    + lia.
    + intros _. split.
      * change (db (logFetch ?f ?w)) with (db w). by rewrite GetBalance_installCode.
      * unfold installCode. simpl. done.
Qed.

Lemma call_hook_tops_up_balance_witness :
  ∃ w', preDispatch remoteTen CALL callScope (freshWorld emptyState 1) = (w', Ok tt)
        ∧ GetBalance (db w') 18 = 10
        ∧ 18 ∈ addressBalanceSet (interp w').
Proof.
  destruct (call_hook_tops_up_balance remoteTen CALL callScope (freshWorld emptyState 1)
              18 5 10 [])
    as (w' & Hrun & _ & Hcovered & _).
  - left. reflexivity.
  - vm_compute. discriminate.
  - reflexivity.
  - reflexivity.
  - apply (bool_decide_unpack _). vm_compute. exact I.
  - reflexivity.
  - vm_compute. reflexivity.
  - apply (bool_decide_unpack _). vm_compute. exact I.
  - reflexivity.
  - vm_compute. split; [discriminate|reflexivity].
  - exists w'. split; [exact Hrun|].
    destruct Hcovered as (_ & Hb & Hin); [lia|]. split; [exact Hb|exact Hin].
Defined.

(** The claim fails when the code of the target is already known: a
    program that reads the code size of address 18 and then calls it with
    the value 5 sends one request, for the code; the balance, 10 on the
    remote node, is not asked for, the local balance stays 0 and the
    address does not enter the balance set. *)
Lemma call_hook_known_code_skips_balance :
  (dispatchAll remoteTen [(EXTCODESIZE, scopeAt 17 [18]); (CALL, callScope)]
     (freshWorld emptyState 1)).2 = Ok tt
  ∧ rpcLog (dispatchAll remoteTen [(EXTCODESIZE, scopeAt 17 [18]); (CALL, callScope)]
              (freshWorld emptyState 1)).1 = [FetchCode 18 (BlockNum 1)]
  ∧ GetBalance (db (dispatchAll remoteTen [(EXTCODESIZE, scopeAt 17 [18]); (CALL, callScope)]
                      (freshWorld emptyState 1)).1) 18 = 0
  ∧ eth_getBalance remoteTen 18 (BlockNum 1) = Some 10
  ∧ 18 ∉ addressBalanceSet
           (interp (dispatchAll remoteTen [(EXTCODESIZE, scopeAt 17 [18]); (CALL, callScope)]
                      (freshWorld emptyState 1)).1).
Proof.
  repeat split; try (vm_compute; reflexivity).
  apply (bool_decide_unpack _). vm_compute. exact I.
Qed.

(** *** Requests to the remote node *)

Lemma grows_refl (i : EVMInterpreter) : grows i i.
Proof. unfold grows. by split_and!. Qed.

Lemma grows_trans (i1 i2 i3 : EVMInterpreter) : grows i1 i2 → grows i2 i3 → grows i1 i3.
Proof.
  intros (Hc & Hb & Hs) (Hc' & Hb' & Hs'). unfold grows. split_and!; [set_solver|set_solver|auto].
Qed.

Lemma settled_mono (i i' : EVMInterpreter) (f : Fact) :
  grows i i' → settled i f → settled i' f.
Proof.
  intros (Hc & Hb & Hs). destruct f as [a|a k|a]; simpl; [set_solver|auto|set_solver].
Qed.

Lemma logStep_silent {A} (w w' : World) (r : result A) :
  rpcLog w' = rpcLog w → grows (interp w) (interp w') → logStep w w' r.
Proof.
  intros Hlog Hg. exists []. rewrite app_nil_r. split_and!; try done.
  - constructor.
  - intros f Hf. by apply elem_of_nil in Hf.
  - intros a _ f Hf. by apply elem_of_nil in Hf.
Qed.

Lemma logStep_trans {A B} (w w1 w2 : World) (a : A) (r : result B) :
  logStep w w1 (Ok a) → logStep w1 w2 r → logStep w w2 r.
Proof.
  intros (n1 & Hl1 & Hnd1 & Hns1 & Hg1 & Hs1) (n2 & Hl2 & Hnd2 & Hns2 & Hg2 & Hs2).
  exists (n1 ++ n2). split_and!.
  - by rewrite Hl2, Hl1, app_assoc.
  - rewrite fmap_app. apply NoDup_app. split_and!; [done| |done].
    intros x Hx1 Hx2. apply list_elem_of_fmap in Hx1 as (f1 & -> & Hf1).
    apply list_elem_of_fmap in Hx2 as (f2 & Heq & Hf2).
    apply (Hns2 f2 Hf2). rewrite <- Heq. by eapply Hs1.
  - intros f Hf Hset. apply elem_of_app in Hf as [Hf|Hf].
    + by apply (Hns1 f Hf).
    + apply (Hns2 f Hf). by eapply settled_mono.
  - by eapply grows_trans.
  - intros b Hr f Hf. apply elem_of_app in Hf as [Hf|Hf].
    + eapply settled_mono; [done|]. by eapply Hs1.
    + by eapply Hs2.
Qed.

Lemma logStep_intro {A} (new : list Fetch) (w w' : World) (r : result A) :
  rpcLog w' = rpcLog w ++ new →
  NoDup (factOf <$> new) →
  (∀ f, f ∈ new → ¬ settled (interp w) (factOf f)) →
  grows (interp w) (interp w') →
  (∀ a, r = Ok a → ∀ f, f ∈ new → settled (interp w') (factOf f)) →
  logStep w w' r.
Proof. intros. exists new. by split_and!. Qed.

Lemma registerAddressStorage_logStep remote op scope blk (w w' : World) r :
  registerAddressStorage remote op scope blk w = (w', r) → logStep w w' r.
Proof.
  rewrite registerAddressStorage_cases.
  destruct (last (Stack scope)) as [loc|].
  2:{ intros [= <- <-]. apply logStep_silent; [done|apply grows_refl]. }
  cbv zeta. destruct (bool_decide _) eqn:Hk.
  { intros [= <- <-]. apply logStep_silent; [done|apply grows_refl]. }
  apply bool_decide_eq_false in Hk.
  assert (Hnew : ∀ f, f ∈ [FetchStorage (Address scope) (Bytes32 loc) blk] →
                      ¬ settled (interp w) (factOf f)).
  { intros f Hf. apply list_elem_of_singleton in Hf as ->. done. }
  destruct (eth_getStorageAt _ _ _ _) as [v|]; intros [= <- <-];
    apply (logStep_intro [FetchStorage (Address scope) (Bytes32 loc) blk]);
    try done; try apply NoDup_singleton; try apply grows_refl.
  - unfold grows. simpl. split_and!; try done.
    intros key Hkey. rewrite lookup_insert. by destruct (decide _); [eexists|].
  - intros a _ f Hf. apply list_elem_of_singleton in Hf as ->. simpl.
    rewrite lookup_insert_eq. by eexists.
Qed.

Lemma installCode_grows (addr : Z) (code : list Z) (w : World) :
  grows (interp w) (interp (installCode addr code w)).
Proof. unfold installCode, grows. simpl. split_and!; [set_solver|done|done]. Qed.

Lemma registerAddressCodeForExt_logStep remote op scope blk (w w' : World) r :
  registerAddressCodeForExt remote op scope blk w = (w', r) → logStep w w' r.
Proof.
  rewrite registerAddressCodeForExt_cases.
  destruct (last (Stack scope)) as [a|].
  2:{ intros [= <- <-]. apply logStep_silent; [done|apply grows_refl]. }
  cbv zeta. destruct (bool_decide _) eqn:Hk.
  { intros [= <- <-]. apply logStep_silent; [done|apply grows_refl]. }
  apply bool_decide_eq_false in Hk.
  assert (Hnew : ∀ f, f ∈ [FetchCode (Bytes20 a) blk] → ¬ settled (interp w) (factOf f)).
  { intros f Hf. apply list_elem_of_singleton in Hf as ->. done. }
  destruct (eth_getCode _ _ _) as [code|]; intros [= <- <-];
    apply (logStep_intro [FetchCode (Bytes20 a) blk]);
    try done; try apply NoDup_singleton; try apply grows_refl.
  - apply (installCode_grows _ _ (logFetch _ w)).
  - intros x _ f Hf. apply list_elem_of_singleton in Hf as ->. simpl. set_solver.
Qed.

Lemma registerAddressCodeForCalls_logStep remote op scope blk (w w' : World) r :
  registerAddressCodeForCalls remote op scope blk w = (w', r) → logStep w w' r.
Proof.
  rewrite registerAddressCodeForCalls_cases. cbv zeta.
  destruct (len (Stack scope) <? 3).
  { intros [= <- <-]. apply logStep_silent; [done|apply grows_refl]. }
  destruct (Stack scope !! _) as [a|];
    [|intros [= <- <-]; apply logStep_silent; [done|apply grows_refl]].
  destruct (Stack scope !! _) as [val|];
    [|intros [= <- <-]; apply logStep_silent; [done|apply grows_refl]].
  destruct (bool_decide _) eqn:Hk.
  { intros [= <- <-]. apply logStep_silent; [done|apply grows_refl]. }
  apply bool_decide_eq_false in Hk.
  set (addr := Bytes20 a) in *.
  assert (Hcode : ∀ f, f ∈ [FetchCode addr blk] → ¬ settled (interp w) (factOf f)).
  { intros f Hf. apply list_elem_of_singleton in Hf as ->. done. }
  destruct (eth_getCode _ _ _) as [code|].
  2:{ intros [= <- <-]. apply (logStep_intro [FetchCode addr blk]); try done;
        try apply NoDup_singleton; try apply grows_refl. }
  set (w1 := logFetch (FetchCode addr blk) w).
  assert (Hone : ∀ A (r : result A), logStep w (installCode addr code w1) r).
  { intros A r0. apply (logStep_intro [FetchCode addr blk]); try done.
    - apply NoDup_singleton.
    - apply (installCode_grows _ _ w1).
    - intros x _ f Hf. apply list_elem_of_singleton in Hf as ->. simpl. set_solver. }
  destruct (_ && _ && negb (bool_decide (addr ∈ _))) eqn:Hcond.
  2:{ intros [= <- <-]. apply Hone. }
  apply andb_true_iff in Hcond as [_ Hbal]. apply negb_true_iff in Hbal.
  apply bool_decide_eq_false in Hbal. simpl in Hbal.
  assert (Htwo : ∀ A (r : result A) w3,
            rpcLog w3 = rpcLog w ++ [FetchCode addr blk; FetchBalance addr blk] →
            grows (interp (installCode addr code w1)) (interp w3) →
            logStep w w3 r).
  { intros A r0 w3 Hlog Hg.
    apply (logStep_intro [FetchCode addr blk; FetchBalance addr blk]); try done.
    - simpl. apply NoDup_cons. split; [|apply NoDup_singleton].
      intros Hin. by apply list_elem_of_singleton in Hin.
    - intros f Hf. apply elem_of_cons in Hf as [->|Hf]; [done|].
      apply list_elem_of_singleton in Hf as ->. simpl. intros [H|H]; done.
    - eapply grows_trans; [|exact Hg]. apply (installCode_grows _ _ w1).
    - intros x _ f Hf. destruct Hg as (Hc & _ & _).
      apply elem_of_cons in Hf as [->|Hf]; simpl.
      + apply Hc. simpl. set_solver.
      + apply list_elem_of_singleton in Hf as ->. simpl. left. apply Hc. simpl. set_solver. }
  destruct (eth_getBalance _ _ _) as [big|].
  2:{ intros [= <- <-]. apply Htwo; [simpl; by rewrite <- app_assoc|apply grows_refl]. }
  destruct (MustFromBig big) as [balance|].
  2:{ intros [= <- <-]. apply Htwo; [simpl; by rewrite <- app_assoc|apply grows_refl]. }
  destruct (val <=? balance); intros [= <- <-]; apply Htwo;
    try (simpl; by rewrite <- app_assoc); try apply grows_refl.
  unfold topUp, grows. simpl. split_and!; [done|set_solver|done].
Qed.

Lemma appendToAccessList_logStep op scope (w w' : World) r :
  appendToAccessList op scope w = (w', r) → logStep w w' r.
Proof.
  unfold appendToAccessList. munfold. rewrite peek_last.
  destruct (last (Stack scope)) as [loc|];
    [|intros [= <- <-]; apply logStep_silent; [done|apply grows_refl]].
  simpl. destruct (bool_decide _); intros [= <- <-];
    apply logStep_silent; try done; try apply grows_refl;
    unfold grows, recordSlot; simpl; by split_and!.
Qed.

Lemma preDispatch_logStep remote op scope (w w' : World) r :
  preDispatch remote op scope w = (w', r) → logStep w w' r.
Proof.
  unfold preDispatch.
  unfold mbind at 1, M_bind at 1, bind at 1, gets at 1.
  unfold mbind at 1, M_bind at 1, bind at 1.
  set (blk := blockTag (BlockNumber w)).
  set (hook := if readStorage op then registerAddressStorage remote op scope blk
               else if isCall op then registerAddressCodeForCalls remote op scope blk
               else if isExtCode op then registerAddressCodeForExt remote op scope blk
               else mret tt).
  assert (Hhook : ∀ w1 r1, hook w = (w1, r1) → logStep w w1 r1).
  { intros w1 r1. unfold hook.
    destruct (readStorage op); [apply registerAddressStorage_logStep|].
    destruct (isCall op); [apply registerAddressCodeForCalls_logStep|].
    destruct (isExtCode op); [apply registerAddressCodeForExt_logStep|].
    intros [= <- <-]. apply logStep_silent; [done|apply grows_refl]. }
  destruct (hook w) as [w1 r1] eqn:Hrun.
  specialize (Hhook w1 r1 eq_refl).
  destruct r1 as [[]|e| |]; try (intros [= <- <-];
    destruct Hhook as (new & ? & ? & ? & ? & ?); exists new; by split_and!).
  intros Hrest. eapply logStep_trans; [exact Hhook|].
  destruct (interactWithStorage op).
  - by apply (appendToAccessList_logStep op scope).
  - injection Hrest as <- <-. apply logStep_silent; [done|apply grows_refl].
Qed.

Lemma fetchedOnce_step {A} (i0 : EVMInterpreter) (w w' : World) (r : result A) :
  fetchedOnce i0 w → logStep w w' r →
  NoDup (factOf <$> rpcLog w')
  ∧ (∀ f, f ∈ rpcLog w' → ¬ settled i0 (factOf f))
  ∧ (∀ a, r = Ok a → fetchedOnce i0 w').
Proof.
  intros (Hnd & Hlog & Hg) (new & Hl & Hndn & Hns & Hg' & Hs).
  assert (Hnd' : NoDup (factOf <$> rpcLog w')).
  { rewrite Hl, fmap_app. apply NoDup_app. split_and!; [done| |done].
    intros x Hx1 Hx2. apply list_elem_of_fmap in Hx1 as (f1 & -> & Hf1).
    apply list_elem_of_fmap in Hx2 as (f2 & Heq & Hf2).
    apply (Hns f2 Hf2). rewrite <- Heq. by apply Hlog. }
  assert (Hfresh : ∀ f, f ∈ rpcLog w' → ¬ settled i0 (factOf f)).
  { intros f Hf. rewrite Hl in Hf. apply elem_of_app in Hf as [Hf|Hf].
    - by apply Hlog.
    - intros Hset. apply (Hns f Hf). by eapply settled_mono. }
  split_and!; [done|done|].
  intros a Hr. unfold fetchedOnce. split_and!; [done| |by eapply grows_trans].
  intros f Hf. split; [|by apply Hfresh].
  rewrite Hl in Hf. apply elem_of_app in Hf as [Hf|Hf].
  - eapply settled_mono; [done|]. by apply Hlog.
  - by eapply Hs.
Qed.

Lemma runEvent_logStep remote (e : Event) (w w' : World) r :
  runEvent remote e w = (w', r) → logStep w w' r.
Proof.
  destruct e as [op scope|f|a|a|n]; simpl.
  - apply preDispatch_logStep.
  - intros [= <- <-]. apply logStep_silent; [done|apply grows_refl].
  - intros [= <- <-]. apply logStep_silent; [done|].
    unfold grows. simpl. split_and!; [set_solver|done|done].
  - intros [= <- <-]. apply logStep_silent; [done|].
    unfold grows. simpl. split_and!; [done|set_solver|done].
  - intros [= <- <-]. apply logStep_silent; [done|].
    unfold grows. simpl. by split_and!.
Qed.

Lemma runEvents_fetchedOnce remote (es : list Event) :
  ∀ (i0 : EVMInterpreter) (w w' : World) r,
  fetchedOnce i0 w → runEvents remote es w = (w', r) →
  NoDup (factOf <$> rpcLog w') ∧ (∀ f, f ∈ rpcLog w' → ¬ settled i0 (factOf f)).
Proof.
  induction es as [|e es IH]; intros i0 w w' r Hinv Hrun.
  - injection Hrun as <- <-. destruct Hinv as (Hnd & Hlog & _).
    split; [done|]. intros f Hf. by apply Hlog.
  - cbn [runEvents] in Hrun. unfold mbind, M_bind, bind in Hrun.
    destruct (runEvent remote e w) as [w1 r1] eqn:Hstep.
    apply runEvent_logStep in Hstep.
    destruct (fetchedOnce_step i0 w w1 r1 Hinv Hstep) as (Hnd & Hfresh & Hok).
    destruct r1 as [[]|err| |]; try (injection Hrun as <- <-; by split).
    eapply IH; [|exact Hrun]. by eapply Hok.
Qed.

(** C4.  Over the life of one Fork Record (any number of passes, each
    started from the record of the one before, with whatever opcodes reach
    the hooks and whatever the execution does to the state in between)
    no fact is asked of the remote node twice, and no fact the record
    already named at the start is asked at all.  This holds for complete
    runs and for runs cut short by an error. *)
Theorem remote_fact_fetched_at_most_once
    (remote : RemoteSource) (es : list Event) (st : StateDB)
    (record : option RecordToInitiateState) (blockNumber : Z) :
  NoDup (factOf <$> rpcLog (runEvents remote es
            (mkWorld st (NewEVMInterpreter record) blockNumber [] [] 0)).1)
  ∧ (∀ f, f ∈ rpcLog (runEvents remote es
                        (mkWorld st (NewEVMInterpreter record) blockNumber [] [] 0)).1 →
          ¬ settled (NewEVMInterpreter record) (factOf f)).
Proof.
  set (w := mkWorld st (NewEVMInterpreter record) blockNumber [] [] 0).
  destruct (runEvents remote es w) as [w' r] eqn:Hrun. simpl.
  eapply (runEvents_fetchedOnce remote es (NewEVMInterpreter record) w w' r); [|done].
  unfold fetchedOnce, w. simpl. split_and!.
  - constructor.
  - intros f Hf. by apply elem_of_nil in Hf.
  - apply grows_refl.
Qed.

(** *** The simulator *)

Lemma resolveCode_cases remote (sim : Simulation) (w : World) :
  resolveCode remote sim w =
    let blk := blockTag (simBlockNumber sim) in
    if (len (simCode sim) =? 0) && (GetCodeSize (db w) (To sim) =? 0) then
      (logFetch (FetchCode (To sim) blk) w,
       match eth_getCode remote (To sim) blk with
       | Some c => Ok c
       | None => Err NetworkError
       end)
    else if len (simCode sim) =? 0 then (w, Ok (GetCode (db w) (To sim)))
    else (w, Ok (simCode sim)).
Proof.
  unfold resolveCode, GetCodeRpc. munfold. cbv zeta.
  destruct (len (simCode sim) =? 0); simpl; [|done].
  destruct (GetCodeSize (db w) (To sim) =? 0); [|done].
  by destruct (eth_getCode _ _ _).
Qed.

(** The code lookup touches nothing but the log. *)
Lemma resolveCode_available remote (sim : Simulation) (w : World) :
  codeAvailable remote sim w →
  ∃ w0 code, resolveCode remote sim w = (w0, Ok code)
             ∧ db w0 = db w ∧ interp w0 = interp w ∧ BlockNumber w0 = BlockNumber w
             ∧ charges w0 = charges w ∧ passes w0 = passes w
             ∧ (rpcLog w0 = rpcLog w
                ∨ rpcLog w0 = rpcLog w ++ [FetchCode (To sim) (blockTag (simBlockNumber sim))]).
Proof.
  intros Hav. rewrite resolveCode_cases. cbv zeta.
  destruct (len (simCode sim) =? 0) eqn:Hlen; simpl.
  - destruct (GetCodeSize (db w) (To sim) =? 0) eqn:Hsize.
    + destruct Hav as [Hc|[Hs|[c Hr]]].
      * exfalso. apply Z.eqb_eq in Hlen. unfold len in Hlen.
        destruct (simCode sim); [done|]. simpl in Hlen. lia.
      * apply Z.eqb_eq in Hsize. done.
      * rewrite Hr. eexists _, _. split; [done|]. simpl. split_and!; try done. by right.
    + eexists _, _. split; [done|]. split_and!; try done. by left.
  - eexists _, _. split; [done|]. split_and!; try done. by left.
Qed.

(** [Simulate], step by step. *)
Lemma Simulate_unfold
    (remote : RemoteSource) (table : Z → operation) (fuel : nat)
    (sim : Simulation) (prior : option RecordToInitiateState) (w : World) :
  Simulate remote table fuel sim prior w =
    ('(code, balance) ← simulatePrelude remote sim;
     pass1 ← Execute remote table fuel (To sim) balance code (simInput sim)
               (ConfigFromSimulation sim) (withoutAccessList <$> prior);
     idealState ← gets (λ w, InitIdealState (db w) (Record_ pass1));
     '(_, pass2) ← onState idealState
                     (Execute remote table fuel (To sim) balance code (simInput sim)
                        (ConfigFromSimulation sim) (Some (Record_ pass1)));
     mret (mkSimulationResult (Ret pass2) (GasUsed pass2) 0 (Record_ pass2))) w.
Proof.
  unfold Simulate, simulatePrelude. munfold.
  destruct (resolveCode remote sim w) as [w0 [code|e| |]]; try done.
  destruct (_ && _); [|simpl].
  - destruct (GetBalanceRpc remote _ _ w0) as [w0' [balance|e| |]]; try done.
    destruct (balance <=? simValue sim); [done|].
    destruct (Execute _ _ _ _ _ _ _ _ _ w0') as [w1 [[ret gas ref intr [c b s l]]|e| |]];
      try done.
  - destruct (Execute _ _ _ _ _ _ _ _ _ w0) as [w1 [[ret gas ref intr [c b s l]]|e| |]];
      try done.
Qed.


(** C6.  A simulation that carries a value, from a sender without
    balance in the reference state: once the code lookup has succeeded,
    the balance of the sender is asked of the remote node at the block of
    the simulation, and when the answer does not exceed the value the
    call fails with the insufficient-balance error.  [Execute] was not
    entered: the pass counter, the state, the interpreter fields and the
    gas charges are those of the start, and the balance request is the
    last one sent. *)
Theorem simulate_insufficient_balance
    (remote : RemoteSource) (table : Z → operation) (fuel : nat)
    (sim : Simulation) (prior : option RecordToInitiateState) (w : World)
    (remoteBalance : Z) :
  0 < simValue sim →
  GetBalance (db w) (From sim) = 0 →
  codeAvailable remote sim w →
  eth_getBalance remote (From sim) (blockTag (simBlockNumber sim)) = Some remoteBalance →
  remoteBalance ≤ simValue sim →
  (Simulate remote table fuel sim prior w).2 = Err ErrInsufficientSimulationBalance
  ∧ passes (Simulate remote table fuel sim prior w).1 = passes w
  ∧ db (Simulate remote table fuel sim prior w).1 = db w
  ∧ interp (Simulate remote table fuel sim prior w).1 = interp w
  ∧ charges (Simulate remote table fuel sim prior w).1 = charges w
  ∧ last (rpcLog (Simulate remote table fuel sim prior w).1)
    = Some (FetchBalance (From sim) (blockTag (simBlockNumber sim))).
Proof.
  intros Hval Hbal Hav Hrb Hle.
  destruct (resolveCode_available remote sim w Hav)
    as (w0 & code & Hrc & Hdb & Hin & _ & Hch & Hps & _).
  unfold Simulate. munfold. rewrite Hrc, Hdb, Hbal.
  replace (0 <? simValue sim) with true by (symmetry; by apply Z.ltb_lt).
  simpl. unfold GetBalanceRpc. munfold. rewrite Hrb.
  replace (remoteBalance <=? simValue sim) with true by (symmetry; by apply Z.leb_le).
  simpl. split_and!; try done. by rewrite last_snoc.
Qed.

Lemma simulate_insufficient_balance_witness :
  (Simulate remoteFive testInstructionSet 10 transferSimulation None
     (freshWorld emptyState 1)).2 = Err ErrInsufficientSimulationBalance
  ∧ passes (Simulate remoteFive testInstructionSet 10 transferSimulation None
              (freshWorld emptyState 1)).1 = 0%nat.
Proof.
  destruct (simulate_insufficient_balance remoteFive testInstructionSet 10
              transferSimulation None (freshWorld emptyState 1) 5)
    as (Herr & Hpasses & _).
  - reflexivity.
  - reflexivity.
  - left. discriminate.
  - reflexivity.
  - vm_compute. discriminate.
  - split; [exact Herr|exact Hpasses].
Defined.

Lemma unoptimalSimulation_cases
    (remote : RemoteSource) (table : Z → operation) (fuel : nat)
    (sim : Simulation) (prior : option RecordToInitiateState) (w : World) (known : Z) :
  codeAvailable remote sim w →
  knownBalance remote sim w = Some known →
  ∃ w0 code,
    db w0 = db w ∧ passes w0 = passes w
    ∧ unoptimalSimulation remote table fuel sim prior w =
        if known <? simValue sim then (w0, Err ErrInsufficientSimulationBalance)
        else (result ← Execute remote table fuel (To sim) known code (simInput sim)
                         (ConfigFromSimulation sim)
                         ((λ r, withAccessList r (AccessList r)) <$> prior);
              mret (mkSimulationResult (Ret result) (GasUsed result) 0 (Record_ result))) w0.
Proof.
  intros Hav Hknown.
  destruct (resolveCode_available remote sim w Hav)
    as (w0 & code & Hrc & Hdb & Hin & Hbn & Hch & Hps & _).
  unfold unoptimalSimulation, knownBalance in *. munfold. rewrite Hrc, Hdb.
  destruct (_ && _).
  - unfold GetBalanceRpc. munfold. rewrite Hknown. simpl.
    exists (logFetch (FetchBalance (From sim) (blockTag (simBlockNumber sim))) w0), code.
    split_and!; try done. by destruct (known <? simValue sim).
  - injection Hknown as <-. simpl. exists w0, code.
    split_and!; try done. by destruct (_ <? simValue sim).
Qed.

(** C10.  The two entry points test the balance of the sender
    differently.  [Simulate] fails as soon as the fetched balance does
    not exceed the value; [unoptimalSimulation], which [SimulateBundle]
    runs for every transaction, fails only when the balance it knows is
    below the value, and otherwise goes on to [Execute].  With a sender
    whose balance, 5 on the remote node, equals the value sent,
    [Simulate] fails before any pass, while [SimulateBundle] runs the
    transaction in both of its passes and returns its result. *)
Theorem balance_predicates_differ :
  (∀ remote table fuel sim prior w remoteBalance,
     0 < simValue sim →
     GetBalance (db w) (From sim) = 0 →
     codeAvailable remote sim w →
     eth_getBalance remote (From sim) (blockTag (simBlockNumber sim)) = Some remoteBalance →
     remoteBalance ≤ simValue sim →
     (Simulate remote table fuel sim prior w).2 = Err ErrInsufficientSimulationBalance
     ∧ passes (Simulate remote table fuel sim prior w).1 = passes w)
  ∧ (∀ remote table fuel sim prior w known,
       codeAvailable remote sim w →
       knownBalance remote sim w = Some known →
       ∃ w0 code,
         db w0 = db w ∧ passes w0 = passes w
         ∧ unoptimalSimulation remote table fuel sim prior w =
             if known <? simValue sim then (w0, Err ErrInsufficientSimulationBalance)
             else (result ← Execute remote table fuel (To sim) known code (simInput sim)
                              (ConfigFromSimulation sim)
                              ((λ r, withAccessList r (AccessList r)) <$> prior);
                   mret (mkSimulationResult (Ret result) (GasUsed result) 0
                           (Record_ result))) w0)
  ∧ (knownBalance remoteFive transferSimulation (freshWorld emptyState 1)
       = Some (simValue transferSimulation)
     ∧ (Simulate remoteFive testInstructionSet 10 transferSimulation None
          (freshWorld emptyState 1)).2 = Err ErrInsufficientSimulationBalance
     ∧ passes (Simulate remoteFive testInstructionSet 10 transferSimulation None
                 (freshWorld emptyState 1)).1 = 0%nat
     ∧ (∃ r, (SimulateBundle remoteFive testInstructionSet 10 [transferSimulation] None
                (freshWorld emptyState 1)).2 = Ok [r])
     ∧ passes (SimulateBundle remoteFive testInstructionSet 10 [transferSimulation] None
                 (freshWorld emptyState 1)).1 = 2%nat).
Proof.
  split_and!.
  - intros remote table fuel sim prior w b Hv Hb Hav Hrb Hle.
    rewrite Simulate_unfold.
    destruct (resolveCode_available remote sim w Hav)
      as (w0 & code & Hrc & Hdb & Hin & _ & Hch & Hps & _).
    unfold simulatePrelude. munfold. rewrite Hrc, Hdb, Hb.
    replace (0 <? simValue sim) with true by (symmetry; by apply Z.ltb_lt).
    simpl. unfold GetBalanceRpc. munfold. rewrite Hrb.
    replace (b <=? simValue sim) with true by (symmetry; by apply Z.leb_le).
    done.
  - intros. by apply unoptimalSimulation_cases.
  - reflexivity.
  - vm_compute. reflexivity.
  - vm_compute. reflexivity.
  - eexists. vm_compute. reflexivity.
  - vm_compute. reflexivity.
Qed.


(** *** Invariants of a run *)

Section Preserves.
Context (P : World → Prop).

Lemma preserves_ret {A} (a : A) : preserves P (mret a).
Proof. by intros w Hw. Qed.

Lemma preserves_fail {A} (e : Error) : preserves P (@fail World A e).
Proof. by intros w Hw. Qed.

Lemma preserves_panic {A} : preserves P (@panic World A).
Proof. by intros w Hw. Qed.

Lemma preserves_gets {A} (f : World → A) : preserves P (gets f).
Proof. by intros w Hw. Qed.

Lemma preserves_modify (f : World → World) :
  (∀ w, P w → P (f w)) → preserves P (modify f).
Proof. intros Hf w Hw. by apply Hf. Qed.

Lemma preserves_bind {A B} (c : M World A) (k : A → M World B) :
  preserves P c → (∀ a, preserves P (k a)) → preserves P (c ≫= k).
Proof.
  intros Hc Hk w Hw. unfold mbind, M_bind, bind.
  specialize (Hc w Hw). destruct (c w) as [w1 [a|e| |]]; try done.
  by apply Hk.
Qed.

Lemma preserves_index (l : list Z) (i : Z) : preserves P (index l i).
Proof.
  unfold index. destruct (i <? 0); [apply preserves_panic|].
  destruct (l !! Z.to_nat i) as [x|]; [apply (preserves_ret x)|apply preserves_panic].
Qed.

Lemma preserves_peek (scope : ScopeContext) : preserves P (peek scope).
Proof. apply preserves_index. Qed.

Lemma preserves_pop (scope : ScopeContext) : preserves P (pop scope).
Proof.
  unfold pop. apply preserves_bind; [apply preserves_peek|].
  intros x. apply (preserves_ret (x, _)).
Qed.

Lemma preserves_useGas (scope : ScopeContext) (cost : Z) : preserves P (useGas scope cost).
Proof.
  unfold useGas. destruct (UseGas _ _); [apply (preserves_ret _)|apply preserves_fail].
Qed.

Lemma preserves_onState {A} (st : StateDB) (c : M World A) :
  (∀ w, P w → P (c (setDb st w)).1) →
  (∀ w w', P w' → P (setDb (db w) w')) →
  preserves P (onState st c).
Proof.
  intros Hc Hback w Hw. unfold onState.
  specialize (Hc w Hw). destruct (c (setDb st w)) as [w' r]. simpl in *.
  by apply Hback.
Qed.
End Preserves.

(** Break a computation down to the steps that touch the world. *)
Ltac preserve_step :=
  first
    [ apply preserves_ret | apply preserves_fail | apply preserves_panic
    | apply preserves_gets | apply preserves_peek | apply preserves_pop
    | apply preserves_index | apply preserves_useGas
    | apply preserves_bind; [|intros ?]
    | match goal with
      | |- preserves _ (match ?x with _ => _ end) => destruct x
      | |- preserves _ (let '(_, _) := ?x in _) => destruct x
      end ].


Lemma hoare_modify {B} (P R Q : World → Prop) (f : World → World) (k : M World B) :
  (∀ w, P w → R (f w)) → hoare R k Q → hoare P (modify f ≫= λ _, k) Q.
Proof. intros Hf Hk w Hw. unfold mbind, M_bind, bind, modify. apply Hk. by apply Hf. Qed.


Lemma hoare_preserves {A} (P Q : World → Prop) (c : M World A) :
  preserves P c → (∀ w, P w → Q w) → hoare P c Q.
Proof. intros Hc HPQ w Hw. apply HPQ. by apply Hc. Qed.

(** The main loop keeps what the hooks together with the gas of each
    opcode, and the execution of each opcode, keep. *)
Lemma preserves_loop remote table (P : World → Prop) :
  (∀ op scope, preserves P (preDispatch remote op scope ≫= λ _, chargeGas (table op) scope)) →
  (∀ op pc scope, preserves P (execute (table op) pc scope)) →
  ∀ fuel scope pc, preserves P (loop remote table fuel scope pc).
Proof.
  intros Hhead Hexec. induction fuel as [|fuel IH]; intros scope pc w Hw; [done|].
  cbn [loop]. specialize (Hhead (GetOp (contract scope) pc) scope w Hw).
  unfold mbind, M_bind, bind in *.
  destruct (preDispatch _ _ _ w) as [w1 [[]|e| |]]; simpl in *; try done.
  destruct (chargeGas _ _ w1) as [w2 [scope2|e| |]]; simpl in *; try done.
  specialize (Hexec (GetOp (contract scope) pc) pc scope2 w2 Hhead).
  destruct (execute _ _ _ w2) as [w3 [out|e| |]]; simpl in *; try done.
  destruct (eo_status out); try done. by apply IH.
Qed.

Lemma preserves_Run remote table (P : World → Prop) :
  (∀ op scope, preserves P (preDispatch remote op scope ≫= λ _, chargeGas (table op) scope)) →
  (∀ op pc scope, preserves P (execute (table op) pc scope)) →
  ∀ fuel c input, preserves P (Run remote table fuel c input).
Proof.
  intros Hhead Hexec fuel c input. unfold Run.
  destruct (len (Code c) =? 0); [apply (preserves_ret _ _)|].
  by apply preserves_loop.
Qed.

(** [Call] keeps an invariant that the run keeps, that does not depend
    on the accounts, and that holds again when the state goes back to
    the snapshot. *)
Lemma preserves_Call remote table (P : World → Prop) :
  (∀ op scope, preserves P (preDispatch remote op scope ≫= λ _, chargeGas (table op) scope)) →
  (∀ op pc scope, preserves P (execute (table op) pc scope)) →
  (∀ f, (∀ s, warmSlots (f s) = warmSlots s) → ∀ w, P w → P (setDb (f (db w)) w)) →
  (∀ w w', P w → P w' → P (setDb (db w) w')) →
  ∀ fuel caller addr input gas val, preserves P (Call remote table fuel caller addr input gas val).
Proof.
  intros Hhead Hexec Hdb Hsnap fuel caller addr input gas val w Hw.
  unfold Call. unfold mbind at 1, M_bind at 1, bind at 1, gets at 1.
  destruct (negb _); [done|].
  unfold mbind at 1, M_bind at 1, bind at 1, gets at 1.
  unfold mbind at 1, M_bind at 1, bind at 1, gets at 1.
  generalize (Exist (db w) addr). intros ex.
  destruct (negb ex && (val =? 0)); [done|].
  match goal with |- P (onError ?c ?h w).1 =>
    assert (Hc : preserves P c)
  end.
  { apply preserves_bind.
    - destruct (negb ex); [|apply (preserves_ret _ _)].
      apply preserves_modify. intros w0 Hw0. by apply (Hdb (λ s, CreateAccount s addr)).
    - intros _. apply preserves_bind.
      + apply preserves_modify. intros w0 Hw0.
        by apply (Hdb (λ s, AddBalance (SubBalance s caller val) addr val)).
      + intros _. apply preserves_bind; [apply preserves_gets|]. intros code.
        destruct (len code =? 0); [apply (preserves_ret _ _)|].
        apply preserves_bind; [by apply preserves_Run|]. intros out.
        destruct (ro_reverted out); [apply preserves_fail|apply (preserves_ret _ _)]. }
  unfold onError. specialize (Hc w Hw).
  match goal with |- P (let (_, _) := ?c w in _).1 =>
    destruct (c w) as [w' [a|e| |]]; simpl in *; auto
  end.
Qed.

(** Prove [preserves P c] step by step; [tac] proves that [P] survives
    one change of the world. *)
Ltac preserve_with tac :=
  repeat first
    [ preserve_step
    | apply preserves_modify; intros ? ?; tac
    | progress unfold updDb, updInterp, GetCodeRpc, GetStorageAtRpc, GetBalanceRpc,
                      fetchAndInstallCode, next
    | progress cbv zeta ].





































Lemma bind_Ok_inv {A B} (c : M World A) (k : A → M World B) (w w' : World) (b : B) :
  (c ≫= k) w = (w', Ok b) → ∃ a w1, c w = (w1, Ok a) ∧ k a w1 = (w', Ok b).
Proof.
  unfold mbind, M_bind, bind. destruct (c w) as [w1 [a|e| |]]; try done.
  intros Hk. by exists a, w1.
Qed.

(** The record a pass returns is the one its interpreter ends with. *)
Lemma Execute_record (remote : RemoteSource) table (fuel : nat) (address originBalance : Z)
    (code input : list Z) (cfg : Config) (record : option RecordToInitiateState)
    (w w1 : World) (res : ExecutionResult) :
  Execute remote table fuel address originBalance code input cfg record w = (w1, Ok res) →
  Record_ res = GetRecordToInitState (interp w1).
Proof.
  unfold Execute. cbv zeta. intros H.
  do 8 (apply bind_Ok_inv in H as (? & ? & _ & H)).
  destruct (MustFromBig _); [|done].
  apply bind_Ok_inv in H as ([ret left] & w2 & _ & H).
  apply bind_Ok_inv in H as (inRecord & w3 & [= <- <-] & H).
  apply bind_Ok_inv in H as (refund & w4 & [= <- <-] & H).
  injection H as <- <-. simpl. by destruct (interp w2).
Qed.


(** *** Cold and warm charges of the two passes *)





(** *** Requests of the simulator itself *)

(** The claim that no fact is ever asked twice over the life of a record
    fails for the look-ups the simulator makes on its own: a bundle with
    one call to an address without code asks for the code of that address
    before the first pass and again before the second, because the
    look-up consults the state (which holds no code) and not the record
    (which names the address). *)
Lemma bundle_repeats_code_lookup :
  (∃ r, (SimulateBundle remoteZero testInstructionSet 10 [plainCall] None
           (freshWorld emptyState 1)).2 = Ok [r])
  ∧ rpcLog (SimulateBundle remoteZero testInstructionSet 10 [plainCall] None
              (freshWorld emptyState 1)).1
    = [FetchCode 17 (BlockNum 1); FetchCode 17 (BlockNum 1)]
  ∧ ¬ NoDup (factOf <$> rpcLog (SimulateBundle remoteZero testInstructionSet 10 [plainCall]
                                  None (freshWorld emptyState 1)).1).
Proof.
  assert (Hlog : rpcLog (SimulateBundle remoteZero testInstructionSet 10 [plainCall] None
                           (freshWorld emptyState 1)).1
                 = [FetchCode 17 (BlockNum 1); FetchCode 17 (BlockNum 1)])
    by (vm_compute; reflexivity).
  split_and!.
  - eexists. vm_compute. reflexivity.
  - exact Hlog.
  - rewrite Hlog. simpl. intros Hnd. apply NoDup_cons in Hnd as [Hin _].
    apply Hin. left.
Qed.

(** The state and the record of the counterexample to the first claim
    are what the discovery pass of the accumulator program leaves behind,
    as far as the storage goes. *)
Lemma discovery_leaves_written_slot :
  ∃ w1 pass1,
    discoveryPass remoteZero testInstructionSet 20 (accumulate 1) None
      (freshWorld emptyState 1) = (w1, Ok pass1)
    ∧ GetState (db w1) 17 0 = 1
    ∧ AddressStorageSet (Record_ pass1) !! (17, 0) = Some 0
    ∧ GetState (InitIdealState (db w1) (Record_ pass1)) 17 0 = 0.
Proof.
  destruct (discoveryPass remoteZero testInstructionSet 20 (accumulate 1) None
              (freshWorld emptyState 1)) as [w1 r] eqn:Hd.
  assert (Hr : ∃ pass1, r = Ok pass1
                 ∧ AddressStorageSet (Record_ pass1) !! (17, 0) = Some 0).
  { replace r with (discoveryPass remoteZero testInstructionSet 20 (accumulate 1) None
                      (freshWorld emptyState 1)).2 by (by rewrite Hd).
    eexists. split; vm_compute; reflexivity. }
  destruct Hr as (pass1 & -> & Hrec).
  exists w1, pass1. split_and!; [done| |done|].
  - replace w1 with (discoveryPass remoteZero testInstructionSet 20 (accumulate 1) None
                       (freshWorld emptyState 1)).1 by (by rewrite Hd).
    vm_compute. reflexivity.
  - rewrite InitIdealState_GetState, Hrec. reflexivity.
Qed.

(** The reads of a hooked opcode on a stack that is too shallow, next to
    the storage write: the storage read and the call return the error
    before anything is fetched. *)
Lemma shallow_stack_examples :
  preDispatch remoteZero SLOAD (scopeAt 17 []) (freshWorld emptyState 1)
  = (freshWorld emptyState 1, Err ErrInsufficientStackElements)
  ∧ preDispatch remoteZero CALL (scopeAt 17 [5; 18]) (freshWorld emptyState 1)
    = (freshWorld emptyState 1, Err ErrInsufficientStackElements)
  ∧ preDispatch remoteZero EXTCODESIZE (scopeAt 17 []) (freshWorld emptyState 1)
    = (freshWorld emptyState 1, Err ErrInsufficientStackElements)
  ∧ preDispatch remoteZero SSTORE (scopeAt 17 []) (freshWorld emptyState 1)
    = (freshWorld emptyState 1, Panic).
Proof. split_and!; reflexivity. Qed.

(** With one element on the stack the storage write gets past its hook,
    which puts the slot on the access list, and fails in the stack
    validation of the loop. *)
Lemma sstore_on_one_element :
  (Run remoteZero testInstructionSet 5 (mkContract 0 17 0 [PUSH0; SSTORE] [] 100000) []
     (freshWorld emptyState 1)).2 = Err (ErrStackUnderflow 1 2)
  ∧ accessList (interp (Run remoteZero testInstructionSet 5
                          (mkContract 0 17 0 [PUSH0; SSTORE] [] 100000) []
                          (freshWorld emptyState 1)).1)
    = [mkAccessTuple 17 [0]].
Proof. split; vm_compute; reflexivity. Qed.

(** *** Merging records *)

Lemma set_fold_union_acc (X Y : gset Z) :
  set_fold (λ k acc, {[k]} ∪ acc) X Y = X ∪ Y.
Proof.
  pose (P := λ (acc : gset Z) (Z' : gset Z), acc = X ∪ Z').
  apply (set_fold_ind_L P); unfold P; clear P.
  - set_solver.
  - intros x Z' acc Hx ->. set_solver.
Qed.

Lemma map_fold_first_kept (m0 m : gmap (Z * Z) Z) :
  map_fold (λ k v acc, if decide (is_Some (acc !! k)) then acc else <[k := v]> acc) m0 m
  = m0 ∪ m.
Proof.
  pose (P := λ (acc : gmap (Z * Z) Z) (m' : gmap (Z * Z) Z), acc = m0 ∪ m').
  apply (map_fold_weak_ind P); unfold P; clear P.
  - symmetry. apply map_union_empty.
  - intros k v m' acc Hfresh ->.
    destruct (decide (is_Some ((m0 ∪ m') !! k))) as [Hs|Hn].
    + apply map_eq. intros j. rewrite !lookup_union.
      destruct (decide (k = j)) as [<-|Hne].
      * rewrite lookup_insert, decide_True by done.
        rewrite lookup_union, Hfresh in Hs.
        destruct (m0 !! k) as [x|] eqn:Hm0; [|by destruct Hs].
        rewrite Hfresh. done.
      * by rewrite lookup_insert_ne.
    + rewrite <- eq_None_not_Some in Hn. apply lookup_union_None in Hn as [Hn _].
      by rewrite insert_union_r.
Qed.

Lemma combineOne_Some (record r : RecordToInitiateState) :
  combineOne record (Some r) =
    mkRecord (AddressCodeSet record ∪ AddressCodeSet r)
             (AddressBalanceSet record ∪ AddressBalanceSet r)
             (AddressStorageSet record ∪ AddressStorageSet r) (AccessList record).
Proof.
  unfold combineOne. by rewrite !set_fold_union_acc, map_fold_first_kept.
Qed.

Lemma foldl_combineOne (records : list (option RecordToInitiateState)) :
  ∀ record,
  (∀ a, a ∈ AddressCodeSet (foldl combineOne record records) ↔
        a ∈ AddressCodeSet record ∨ ∃ r, Some r ∈ records ∧ a ∈ AddressCodeSet r)
  ∧ (∀ a, a ∈ AddressBalanceSet (foldl combineOne record records) ↔
          a ∈ AddressBalanceSet record ∨ ∃ r, Some r ∈ records ∧ a ∈ AddressBalanceSet r)
  ∧ (∀ key, AddressStorageSet (foldl combineOne record records) !! key =
            match AddressStorageSet record !! key with
            | Some v => Some v
            | None => firstValue key records
            end)
  ∧ AccessList (foldl combineOne record records) = AccessList record.
Proof.
  induction records as [|[r|] records IH]; intros record.
  - simpl. split_and!; try done.
    + intros a. split; [by left|]. intros [H|(r & Hr & _)]; [done|]. by apply elem_of_nil in Hr.
    + intros a. split; [by left|]. intros [H|(r & Hr & _)]; [done|]. by apply elem_of_nil in Hr.
    + intros key. by destruct (_ !! key).
  - cbn [foldl]. rewrite combineOne_Some.
    destruct (IH (mkRecord (AddressCodeSet record ∪ AddressCodeSet r)
                    (AddressBalanceSet record ∪ AddressBalanceSet r)
                    (AddressStorageSet record ∪ AddressStorageSet r) (AccessList record)))
      as (Hc & Hb & Hs & Hl).
    split_and!.
    + intros a. rewrite Hc. simpl. rewrite elem_of_union. split.
      * intros [[H|H]|(r' & Hr' & H)]; [by left| |].
        -- right. exists r. split; [left|done].
        -- right. exists r'. split; [by right|done].
      * intros [H|(r' & Hr' & H)]; [by left; left|].
        apply elem_of_cons in Hr' as [[= ->]|Hr']; [by left; right|].
        right. by exists r'.
    + intros a. rewrite Hb. simpl. rewrite elem_of_union. split.
      * intros [[H|H]|(r' & Hr' & H)]; [by left| |].
        -- right. exists r. split; [left|done].
        -- right. exists r'. split; [by right|done].
      * intros [H|(r' & Hr' & H)]; [by left; left|].
        apply elem_of_cons in Hr' as [[= ->]|Hr']; [by left; right|].
        right. by exists r'.
    + intros key. rewrite Hs. simpl. rewrite lookup_union.
      by destruct (AddressStorageSet record !! key) as [v|],
                  (AddressStorageSet r !! key) as [v'|].
    + by rewrite Hl.
  - cbn [foldl combineOne]. destruct (IH record) as (Hc & Hb & Hs & Hl).
    split_and!.
    + intros a. rewrite Hc. split.
      * intros [H|(r' & Hr' & H)]; [by left|]. right. exists r'. split; [by right|done].
      * intros [H|(r' & Hr' & H)]; [by left|].
        apply elem_of_cons in Hr' as [[=]|Hr']. right. by exists r'.
    + intros a. rewrite Hb. split.
      * intros [H|(r' & Hr' & H)]; [by left|]. right. exists r'. split; [by right|done].
      * intros [H|(r' & Hr' & H)]; [by left|].
        apply elem_of_cons in Hr' as [[=]|Hr']. right. by exists r'.
    + intros key. by rewrite Hs.
    + done.
Qed.

(** X1.  The address sets of the merged record are the unions of the
    address sets of the records that are not nil: an address is in the
    merged code set exactly when some record of the list has it in its
    code set, and likewise for the balance set.  The merged record never
    carries an access list, whatever access lists the records carry. *)
Theorem combine_address_sets (records : list (option RecordToInitiateState)) :
  (∀ a, a ∈ AddressCodeSet (combineRecordInitializers records) ↔
        ∃ r, Some r ∈ records ∧ a ∈ AddressCodeSet r)
  ∧ (∀ a, a ∈ AddressBalanceSet (combineRecordInitializers records) ↔
          ∃ r, Some r ∈ records ∧ a ∈ AddressBalanceSet r)
  ∧ AccessList (combineRecordInitializers records) = [].
Proof.
  unfold combineRecordInitializers.
  destruct (foldl_combineOne records (mkRecord ∅ ∅ ∅ [])) as (Hc & Hb & _ & Hl).
  split_and!.
  - intros a. rewrite Hc. simpl. split; [|by right]. by intros [H|H]; [set_solver|].
  - intros a. rewrite Hb. simpl. split; [|by right]. by intros [H|H]; [set_solver|].
  - done.
Qed.

(** X2.  Of a storage key that several records hold, the merged record
    keeps the value of the first record in list order that holds it; a
    key that no record holds is absent. *)
Theorem combine_storage_first_wins
    (records : list (option RecordToInitiateState)) (key : Z * Z) :
  AddressStorageSet (combineRecordInitializers records) !! key = firstValue key records.
Proof.
  unfold combineRecordInitializers.
  destruct (foldl_combineOne records (mkRecord ∅ ∅ ∅ [])) as (_ & _ & Hs & _).
  rewrite Hs. simpl. by rewrite lookup_empty.
Qed.

Lemma firstValue_app (key : Z * Z) (rs1 rs2 : list (option RecordToInitiateState)) :
  firstValue key (rs1 ++ rs2) =
    match firstValue key rs1 with
    | Some v => Some v
    | None => firstValue key rs2
    end.
Proof.
  induction rs1 as [|[r|] rs1 IH]; simpl; [done| |done].
  by destruct (AddressStorageSet r !! key).
Qed.

Lemma record_ext (r1 r2 : RecordToInitiateState) :
  (∀ a, a ∈ AddressCodeSet r1 ↔ a ∈ AddressCodeSet r2) →
  (∀ a, a ∈ AddressBalanceSet r1 ↔ a ∈ AddressBalanceSet r2) →
  (∀ key, AddressStorageSet r1 !! key = AddressStorageSet r2 !! key) →
  AccessList r1 = AccessList r2 →
  r1 = r2.
Proof.
  destruct r1 as [c1 b1 s1 l1], r2 as [c2 b2 s2 l2]. simpl.
  intros Hc Hb Hs ->. f_equal.
  - by apply set_eq.
  - by apply set_eq.
  - by apply map_eq.
Qed.

(** X3.  Merging composes: merging a list of records in one go gives the
    same record as merging its two halves separately and then merging the
    two results; merging a single record gives that record back, without
    its access list; and nil entries make no difference. *)
Theorem combine_composes :
  (∀ rs1 rs2, combineRecordInitializers (rs1 ++ rs2) =
              combineRecordInitializers [Some (combineRecordInitializers rs1);
                                         Some (combineRecordInitializers rs2)])
  ∧ (∀ r, combineRecordInitializers [Some r] = withoutAccessList r)
  ∧ (∀ rs1 rs2, combineRecordInitializers (rs1 ++ None :: rs2) =
                combineRecordInitializers (rs1 ++ rs2)).
Proof.
  split_and!.
  - intros rs1 rs2.
    destruct (foldl_combineOne (rs1 ++ rs2) (mkRecord ∅ ∅ ∅ [])) as (Hc & Hb & Hs & Hl).
    destruct (foldl_combineOne rs1 (mkRecord ∅ ∅ ∅ [])) as (Hc1 & Hb1 & Hs1 & Hl1).
    destruct (foldl_combineOne rs2 (mkRecord ∅ ∅ ∅ [])) as (Hc2 & Hb2 & Hs2 & Hl2).
    simpl in *.
    unfold combineRecordInitializers at 1 2. cbn [foldl]. rewrite !combineOne_Some.
    fold (combineRecordInitializers rs1). fold (combineRecordInitializers rs2).
    fold (combineRecordInitializers (rs1 ++ rs2)).
    unfold combineRecordInitializers in *.
    apply record_ext; simpl.
    + intros a. rewrite Hc, !elem_of_union, Hc1, Hc2. split.
      * intros [H|(r & Hr & H)]; [set_solver|].
        apply elem_of_app in Hr as [Hr|Hr]; [left; right; right|right; right]; by exists r.
      * intros [[H|[H|(r & Hr & H)]]|[H|(r & Hr & H)]]; try set_solver;
          right; exists r; (split; [|done]); apply elem_of_app; auto.
    + intros a. rewrite Hb, !elem_of_union, Hb1, Hb2. split.
      * intros [H|(r & Hr & H)]; [set_solver|].
        apply elem_of_app in Hr as [Hr|Hr]; [left; right; right|right; right]; by exists r.
      * intros [[H|[H|(r & Hr & H)]]|[H|(r & Hr & H)]]; try set_solver;
          right; exists r; (split; [|done]); apply elem_of_app; auto.
    + intros key. rewrite Hs, !lookup_union, Hs1, Hs2, !lookup_empty, firstValue_app.
      by destruct (firstValue key rs1), (firstValue key rs2).
    + done.
  - intros [c b s l]. unfold combineRecordInitializers. cbn [foldl].
    rewrite combineOne_Some. unfold withoutAccessList. simpl. f_equal.
    + apply (left_id_L ∅ (∪)).
    + apply (left_id_L ∅ (∪)).
    + apply (left_id_L ∅ (∪)).
  - intros rs1 rs2. unfold combineRecordInitializers. by rewrite !foldl_app.
Qed.

(** *** What the ideal state depends on *)

Lemma foldr_ext_in {A B} (f g : A → B → B) (l : list A) (b : B) :
  (∀ x, x ∈ l → ∀ b, f x b = g x b) → foldr f b l = foldr g b l.
Proof.
  induction l as [|x l IH]; intros H; [done|]. simpl.
  rewrite IH by (intros y Hy; apply H; by right). apply H. left.
Qed.

Lemma set_fold_ext_in {B} (f g : Z → B → B) (X : gset Z) (b : B) :
  (∀ x, x ∈ X → ∀ b, f x b = g x b) → set_fold f b X = set_fold g b X.
Proof.
  intros H. unfold set_fold. simpl. apply foldr_ext_in.
  intros x Hx. apply H. by apply elem_of_elements.
Qed.

Lemma InitIdealState_ext (s s' : StateDB) (record : RecordToInitiateState) :
  (∀ a, a ∈ AddressCodeSet record → GetCode s a = GetCode s' a) →
  (∀ a, a ∈ AddressBalanceSet record → GetBalance s a = GetBalance s' a) →
  InitIdealState s record = InitIdealState s' record.
Proof.
  intros Hc Hb. unfold InitIdealState. cbv zeta.
  rewrite (set_fold_ext_in
             (λ acc tmp, SetCode (CreateAccount tmp acc) acc (GetCode s acc))
             (λ acc tmp, SetCode (CreateAccount tmp acc) acc (GetCode s' acc)))
    by (intros a Ha tmp; by rewrite Hc).
  rewrite (set_fold_ext_in
             (λ acc tmp, SetBalance tmp acc (GetBalance s acc))
             (λ acc tmp, SetBalance tmp acc (GetBalance s' acc)))
    by (intros a Ha tmp; by rewrite Hb).
  done.
Qed.

(** X4.  The ideal state depends on the reference state only through the
    code of the addresses in the code set and the balance of the
    addresses in the balance set: two reference states that agree on
    these give the same ideal state, whatever else they hold (storage,
    other accounts, access list, refund counter). *)
Theorem ideal_state_depends_on_named_facts
    (s s' : StateDB) (record : RecordToInitiateState) :
  (∀ a, a ∈ AddressCodeSet record → GetCode s a = GetCode s' a) →
  (∀ a, a ∈ AddressBalanceSet record → GetBalance s a = GetBalance s' a) →
  InitIdealState s record = InitIdealState s' record.
Proof. apply InitIdealState_ext. Qed.

Lemma ideal_state_depends_on_named_facts_witness :
  InitIdealState (SetCode emptyState 17 [SLOAD]) recordAfterWrite
  = InitIdealState stateAfterWrite recordAfterWrite.
Proof.
  apply (ideal_state_depends_on_named_facts (SetCode emptyState 17 [SLOAD]) stateAfterWrite
           recordAfterWrite).
  - intros a Ha. simpl in Ha. apply elem_of_singleton in Ha as ->. reflexivity.
  - intros a Ha. simpl in Ha. by apply elem_of_empty in Ha.
Defined.

(** X5.  Rebuilding is idempotent: the ideal state built from an ideal
    state and the same record is that ideal state again.  A state
    written to after the rebuild is brought back by a second rebuild as
    long as the code and the balances the record names are untouched. *)
Theorem ideal_state_idempotent (s : StateDB) (record : RecordToInitiateState) :
  InitIdealState (InitIdealState s record) record = InitIdealState s record
  ∧ (∀ a k v, InitIdealState (SetState (InitIdealState s record) a k v) record
              = InitIdealState s record).
Proof.
  split.
  - apply InitIdealState_ext.
    + intros a Ha. rewrite InitIdealState_GetCode. by rewrite decide_True.
    + intros a Ha. rewrite InitIdealState_GetBalance. by rewrite decide_True.
  - intros a k v. apply InitIdealState_ext.
    + intros b Hb. unfold GetCode at 1. unfold SetState. rewrite getObject_setObject.
      destruct (decide (a = b)) as [->|]; simpl;
        fold (GetCode (InitIdealState s record) b);
        rewrite InitIdealState_GetCode; by rewrite decide_True.
    + intros b Hb. unfold GetBalance at 1. unfold SetState. rewrite getObject_setObject.
      destruct (decide (a = b)) as [->|]; simpl;
        fold (GetBalance (InitIdealState s record) b);
        rewrite InitIdealState_GetBalance; by rewrite decide_True.
Qed.

(** *** The two loops of the bundle *)

Lemma discoverAll_length remote table fuel (sims : list Simulation) :
  ∀ prior w w1 lists final,
  discoverAll remote table fuel sims prior w = (w1, Ok (lists, final)) →
  length lists = length sims ∧ (sims = [] → final = prior) ∧ (sims ≠ [] → is_Some final).
Proof.
  induction sims as [|sim sims IH]; intros prior w w1 lists final H.
  - injection H as <- <- <-. by split_and!.
  - cbn [discoverAll] in H. munfold.
    destruct (unoptimalSimulation remote table fuel sim prior w) as [w0 [res|e| |]];
      try done.
    destruct (discoverAll remote table fuel sims _ w0) as [w0' [[lists' final']|e| |]] eqn:Hd;
      try done.
    injection H as <- <- <-.
    destruct (IH _ _ _ _ _ Hd) as (Hlen & Hnil & Hcons).
    split_and!; [simpl; by rewrite Hlen|done|].
    intros _. destruct sims; [rewrite Hnil by done; by eexists|by apply Hcons].
Qed.

Lemma onState_db {A} (st : StateDB) (c : M World A) (w : World) :
  db (onState st c w).1 = db w.
Proof. unfold onState. by destruct (c (setDb st w)) as [w' [a|e| |]]. Qed.

Lemma accountAll_db remote table fuel (sims : list Simulation) :
  ∀ lists st rec w, db (accountAll remote table fuel sims lists st rec w).1 = db w.
Proof.
  induction sims as [|sim sims IH]; intros lists st rec w; [done|].
  destruct lists as [|l lists]; [done|].
  cbn [accountAll]. munfold.
  pose proof (onState_db st (unoptimalSimulation remote table fuel sim
                               (Some (withAccessList rec l))) w) as Hdb.
  destruct (onState st _ w) as [w0 [[st' res]|e| |]]; try done.
  simpl in Hdb. rewrite <- Hdb.
  specialize (IH lists (CommitAndReopen st') (resRecord res) w0).
  by destruct (accountAll remote table fuel sims lists _ _ w0) as [w0' [results|e| |]].
Qed.

Lemma accountAll_results remote table fuel (sims : list Simulation) :
  ∀ lists st rec w w' results,
  length lists = length sims →
  accountAll remote table fuel sims lists st rec w = (w', Ok results) →
  length results = length sims
  ∧ (∀ i r l, results !! i = Some r → lists !! S i = Some l →
              AccessList (resRecord r) = l).
Proof.
  induction sims as [|sim sims IH]; intros lists st rec w w' results Hlen H.
  - destruct lists; [|done]. injection H as <- <-. split; [done|]. by intros i r l Hr.
  - destruct lists as [|l0 lists]; [done|]. injection Hlen as Hlen.
    cbn [accountAll] in H. munfold.
    destruct (onState st _ w) as [w0 [[st' res]|e| |]]; try done.
    destruct (accountAll remote table fuel sims lists _ _ w0) as [w0' [rest|e| |]] eqn:Ha;
      try done.
    injection H as <- <-.
    destruct (IH _ _ _ _ _ _ Hlen Ha) as [Hl Hsh].
    split; [simpl; by rewrite Hl|].
    intros [|i] r l Hr Hlk; simpl in Hr, Hlk.
    + injection Hr as <-. unfold retag. destruct lists as [|l1 lists]; [done|].
      simpl in Hlk. by injection Hlk as <-.
    + by eapply Hsh.
Qed.

Lemma SimulateBundle_inv remote table fuel sims prior w w2 results :
  SimulateBundle remote table fuel sims prior w = (w2, Ok results) →
  ∃ w1 lists final inner,
    discoverAll remote table fuel sims prior w = (w1, Ok (lists, Some final))
    ∧ accountAll remote table fuel sims lists (InitIdealState (db w1) final) final w1
      = (w2, Ok inner)
    ∧ length results = length inner
    ∧ (∀ i r, results !! i = Some r →
              ∃ r', inner !! i = Some r'
                    ∧ AccessList (resRecord r) = AccessList (resRecord r')
                    ∧ ReturnedData r = ReturnedData r'
                    ∧ resGasUsed r = resGasUsed r').
Proof.
  unfold SimulateBundle. munfold. intros H.
  destruct (discoverAll remote table fuel sims prior w) as [w1 [[lists [final|]]|e| |]];
    try done.
  destruct (accountAll remote table fuel sims lists _ final w1) as [w2' [inner|e| |]] eqn:Ha;
    try done.
  injection H as <- <-. exists w1, lists, final, inner. split_and!; try done.
  - destruct (last inner); [by rewrite length_fmap|done].
  - intros i r Hr. destruct (last inner) as [f|].
    + rewrite list_lookup_fmap in Hr. destruct (inner !! i) as [r'|]; [|done].
      injection Hr as <-. by exists r'.
    + by exists r.
Qed.

(** X6.  The empty bundle.  With no record to start from, the
    reconstruction of the ideal state dereferences the nil record and
    the call panics; with a record it returns the empty list of results
    and neither the state nor the remote node is touched. *)
Theorem bundle_of_nothing
    (remote : RemoteSource) (table : Z → operation) (fuel : nat) (w : World) :
  SimulateBundle remote table fuel [] None w = (w, Panic)
  ∧ (∀ record, SimulateBundle remote table fuel [] (Some record) w = (w, Ok [])).
Proof. split; [reflexivity|]. intros record. reflexivity. Qed.

(** X7.  A bundle that succeeds returns one result per transaction, in
    the order of the transactions; a failure of any transaction in
    either loop leaves no partial list. *)
Theorem bundle_one_result_each
    (remote : RemoteSource) (table : Z → operation) (fuel : nat)
    (sims : list Simulation) (prior : option RecordToInitiateState)
    (w w2 : World) (results : list SimulationResult) :
  SimulateBundle remote table fuel sims prior w = (w2, Ok results) →
  length results = length sims.
Proof.
  intros H. apply SimulateBundle_inv in H as (w1 & lists & final & inner & Hd & Ha & Hl & _).
  apply discoverAll_length in Hd as (Hlen & _).
  apply accountAll_results in Ha as [Hin _]; [|done]. by rewrite Hl.
Qed.

(** X8.  The record of every result but the last carries the access
    list that the first loop put aside for the next transaction, not the
    list of its own second run: the second loop writes the next access
    list into the record the previous result points to. *)
Theorem bundle_records_carry_next_access_list
    (remote : RemoteSource) (table : Z → operation) (fuel : nat)
    (sims : list Simulation) (prior : option RecordToInitiateState)
    (w w1 w2 : World) (lists : list (list AccessTuple))
    (final : option RecordToInitiateState) (results : list SimulationResult) :
  discoverAll remote table fuel sims prior w = (w1, Ok (lists, final)) →
  SimulateBundle remote table fuel sims prior w = (w2, Ok results) →
  ∀ i r l, results !! i = Some r → lists !! S i = Some l → AccessList (resRecord r) = l.
Proof.
  intros Hd H i r l Hr Hl.
  apply SimulateBundle_inv in H as (w1' & lists' & final' & inner & Hd' & Ha & _ & Hsh).
  rewrite Hd in Hd'. injection Hd' as <- <- ->.
  destruct (discoverAll_length _ _ _ _ _ _ _ _ _ Hd) as (Hlen & _).
  apply accountAll_results in Ha as [_ Hin]; [|done].
  destruct (Hsh i r Hr) as (r' & Hr' & -> & _). by eapply Hin.
Qed.

(** X9.  The second loop of a bundle runs on the ideal state and its
    successors only: whether the bundle succeeds or fails there, the
    state of the caller is left as the first loop left it. *)
Theorem bundle_second_loop_spares_caller_state
    (remote : RemoteSource) (table : Z → operation) (fuel : nat)
    (sims : list Simulation) (prior : option RecordToInitiateState)
    (w w1 : World) (lists : list (list AccessTuple))
    (final : option RecordToInitiateState) :
  discoverAll remote table fuel sims prior w = (w1, Ok (lists, final)) →
  db (SimulateBundle remote table fuel sims prior w).1 = db w1.
Proof.
  intros Hd. unfold SimulateBundle. munfold. rewrite Hd.
  destruct final as [final|]; [|done].
  pose proof (accountAll_db remote table fuel sims lists (InitIdealState (db w1) final)
                final w1) as Hdb.
  by destruct (accountAll remote table fuel sims lists _ final w1) as [w2 [inner|e| |]].
Qed.

Lemma bundle_one_result_each_witness :
  ∃ results,
    (SimulateBundle remoteZero testInstructionSet 20 readThenStop None
       (freshWorld emptyState 1)).2 = Ok results
    ∧ length results = 2%nat.
Proof.
  destruct (SimulateBundle remoteZero testInstructionSet 20 readThenStop None
              (freshWorld emptyState 1)) as [w2 r] eqn:Hb.
  assert (Hr : ∃ results, r = Ok results).
  { replace r with (SimulateBundle remoteZero testInstructionSet 20 readThenStop None
                      (freshWorld emptyState 1)).2 by (by rewrite Hb).
    eexists. vm_compute. reflexivity. }
  destruct Hr as [results ->]. exists results. split; [reflexivity|].
  exact (bundle_one_result_each remoteZero testInstructionSet 20 readThenStop None
           (freshWorld emptyState 1) w2 results Hb).
Defined.

Lemma bundle_records_carry_next_access_list_witness :
  ∃ results r,
    (SimulateBundle remoteZero testInstructionSet 20 readThenStop None
       (freshWorld emptyState 1)).2 = Ok results
    ∧ results !! 0%nat = Some r
    ∧ AccessList (resRecord r) = [].
Proof.
  destruct (discoverAll remoteZero testInstructionSet 20 readThenStop None
              (freshWorld emptyState 1)) as [w1 d] eqn:Hd.
  assert (Hl : ∃ lists final, d = Ok (lists, final) ∧ lists !! 1%nat = Some []).
  { replace d with (discoverAll remoteZero testInstructionSet 20 readThenStop None
                      (freshWorld emptyState 1)).2 by (by rewrite Hd).
    eexists _, _. split; vm_compute; reflexivity. }
  destruct Hl as (lists & final & -> & Hl).
  destruct (SimulateBundle remoteZero testInstructionSet 20 readThenStop None
              (freshWorld emptyState 1)) as [w2 b] eqn:Hb.
  assert (Hr : ∃ results r, b = Ok results ∧ results !! 0%nat = Some r).
  { replace b with (SimulateBundle remoteZero testInstructionSet 20 readThenStop None
                      (freshWorld emptyState 1)).2 by (by rewrite Hb).
    eexists _, _. split; vm_compute; reflexivity. }
  destruct Hr as (results & r & -> & Hr).
  exists results, r. split_and!; [reflexivity|exact Hr|].
  exact (bundle_records_carry_next_access_list remoteZero testInstructionSet 20 readThenStop
           None (freshWorld emptyState 1) w1 w2 lists final results Hd Hb 0%nat r [] Hr Hl).
Defined.

Lemma bundle_second_loop_spares_caller_state_witness :
  db (SimulateBundle remoteZero testInstructionSet 20 readThenStop None
        (freshWorld emptyState 1)).1
  = db (discoverAll remoteZero testInstructionSet 20 readThenStop None
          (freshWorld emptyState 1)).1.
Proof.
  destruct (discoverAll remoteZero testInstructionSet 20 readThenStop None
              (freshWorld emptyState 1)) as [w1 d] eqn:Hd.
  assert (Hl : ∃ lists final, d = Ok (lists, final)).
  { replace d with (discoverAll remoteZero testInstructionSet 20 readThenStop None
                      (freshWorld emptyState 1)).2 by (by rewrite Hd).
    eexists _, _. vm_compute. reflexivity. }
  destruct Hl as (lists & final & ->).
  exact (bundle_second_loop_spares_caller_state remoteZero testInstructionSet 20 readThenStop
           None (freshWorld emptyState 1) w1 lists final Hd).
Defined.

(** *** The code [Execute] installs *)

Lemma Exist_SetBalance (s : StateDB) (a b v : Z) :
  Exist s b = true → Exist (SetBalance s a v) b = true.
Proof. intros H. unfold SetBalance. apply Exist_setObject. by right. Qed.

Lemma Exist_CreateAccount (s : StateDB) (a b : Z) :
  a = b ∨ Exist s b = true → Exist (CreateAccount s a) b = true.
Proof. intros H. unfold CreateAccount. by apply Exist_setObject. Qed.

Lemma Exist_Prepare (s : StateDB) (sender coinbase dst : Z) (pre : list Z)
    (l : list AccessTuple) (b : Z) :
  Exist (Prepare s sender coinbase dst pre l) b = Exist s b.
Proof.
  unfold Exist. f_equal.
  assert (Hacc : accounts (Prepare s sender coinbase dst pre l) = accounts s); [|by rewrite Hacc].
  unfold Prepare. cbv zeta. cbn [AddAddressToAccessList accounts].
  assert (Ht : ∀ l s0, accounts (foldl warmTuple s0 l) = accounts s0).
  { clear. induction l as [|t l IH]; intros s0; [done|]. simpl. rewrite IH.
    unfold warmTuple.
    assert (Hk : ∀ ks s1, accounts (foldl (λ s k, AddSlotToAccessList s (at_Address t) k) s1 ks)
                          = accounts s1).
    { clear. induction ks as [|k ks IH]; intros s1; [done|]. simpl. by rewrite IH. }
    by rewrite Hk. }
  assert (Hp : ∀ l s0, accounts (foldl AddAddressToAccessList s0 l) = accounts s0).
  { clear. induction l as [|t l IH]; intros s0; [done|]. simpl. by rewrite IH. }
  by rewrite Ht, Hp.
Qed.

Lemma Execute_code_unused remote table (fuel : nat) (address originBalance : Z)
    (code code' input : list Z) (cfg : Config) (recordToInit : option RecordToInitiateState)
    (w : World) :
  Exist (db w) address = true
  ∨ address = Origin cfg ∧ TrieHasAccount (db w) address = false →
  Execute remote table fuel address originBalance code input cfg recordToInit w
  = Execute remote table fuel address originBalance code' input cfg recordToInit w.
Proof.
  intros H. unfold Execute. munfold. unfold modify.
  change (Origin (SetDefaults cfg)) with (Origin cfg).
  cbv beta iota zeta. cbn [db countPass setBlockNumber setInterp setDb].
  destruct (TrieHasAccount (db w) (Origin cfg)) eqn:Ht; cbn [negb];
    destruct (0 <? originBalance); try destruct (MustFromBig originBalance) as [balance|];
    cbv beta iota zeta; cbn [db countPass setBlockNumber setInterp setDb]; try done;
    rewrite Exist_Prepare;
    match goal with
    | |- context [Exist ?s address] =>
        replace (Exist s address) with true; [done|symmetry]
    end;
    repeat apply Exist_SetBalance;
    try (apply Exist_CreateAccount; destruct H as [H|[-> H]]; [by right|by left]);
    try (destruct H as [H|[-> H]]; [done|congruence]).
Qed.

(** X10.  [Execute] installs the code it is handed only when the target
    account is missing from the state once the origin has been set up.
    When the target already exists, or when the target is the origin
    itself and the origin is not in the trie (so that it has just been
    created), the code argument is never looked at: the run is the same
    for any two codes, and what runs is the code the state holds. *)
Theorem execute_ignores_code_of_existing_target
    (remote : RemoteSource) (table : Z → operation) (fuel : nat)
    (address originBalance : Z) (code code' input : list Z) (cfg : Config)
    (recordToInit : option RecordToInitiateState) (w : World) :
  Exist (db w) address = true
  ∨ address = Origin cfg ∧ TrieHasAccount (db w) address = false →
  Execute remote table fuel address originBalance code input cfg recordToInit w
  = Execute remote table fuel address originBalance code' input cfg recordToInit w.
Proof. apply Execute_code_unused. Qed.

Lemma execute_ignores_code_of_existing_target_witness :
  Execute remoteZero testInstructionSet 10 17 0 readTwiceCode []
    (ConfigFromSimulation readTwice) None (freshWorld stateAfterWrite 1)
  = Execute remoteZero testInstructionSet 10 17 0 [STOP] []
      (ConfigFromSimulation readTwice) None (freshWorld stateAfterWrite 1).
Proof.
  apply (execute_ignores_code_of_existing_target remoteZero testInstructionSet 10 17 0
           readTwiceCode [STOP] [] (ConfigFromSimulation readTwice) None
           (freshWorld stateAfterWrite 1)).
  left. reflexivity.
Defined.

(** *** The hooks, opcode by opcode *)

Lemma preDispatch_SLOAD remote scope (w : World) :
  preDispatch remote SLOAD scope w =
    (registerAddressStorage remote SLOAD scope (blockTag (BlockNumber w));;
     appendToAccessList SLOAD scope) w.
Proof. reflexivity. Qed.

Lemma preDispatch_SSTORE remote scope (w : World) :
  preDispatch remote SSTORE scope w = appendToAccessList SSTORE scope w.
Proof. reflexivity. Qed.

Lemma isCall_classes (op : Z) :
  isCall op = true → readStorage op = false ∧ interactWithStorage op = false.
Proof.
  unfold isCall, readStorage, interactWithStorage. rewrite !orb_true_iff, !bool_decide_eq_true.
  intros [[[->| ->]| ->]| ->]; by vm_compute.
Qed.

Lemma isExtCode_classes (op : Z) :
  isExtCode op = true →
  readStorage op = false ∧ isCall op = false ∧ interactWithStorage op = false.
Proof.
  unfold isExtCode, isCall, readStorage, interactWithStorage.
  rewrite !orb_true_iff, !bool_decide_eq_true.
  intros [[->| ->]| ->]; by vm_compute.
Qed.

Lemma preDispatch_call remote op scope (w : World) :
  isCall op = true →
  preDispatch remote op scope w =
    registerAddressCodeForCalls remote op scope (blockTag (BlockNumber w)) w.
Proof.
  intros Hc. destruct (isCall_classes op Hc) as [Hr Hi].
  unfold preDispatch. munfold. rewrite Hr, Hc, Hi.
  by destruct (registerAddressCodeForCalls _ _ _ _ _) as [w' [[]|e| |]].
Qed.

Lemma preDispatch_ext remote op scope (w : World) :
  isExtCode op = true →
  preDispatch remote op scope w =
    registerAddressCodeForExt remote op scope (blockTag (BlockNumber w)) w.
Proof.
  intros He. destruct (isExtCode_classes op He) as (Hr & Hc & Hi).
  unfold preDispatch. munfold. rewrite Hr, Hc, He, Hi.
  by destruct (registerAddressCodeForExt _ _ _ _ _) as [w' [[]|e| |]].
Qed.

Lemma readStorage_SLOAD (op : Z) : readStorage op = true → op = SLOAD.
Proof. unfold readStorage. by rewrite bool_decide_eq_true. Qed.

(** X11.  A fetch that fails leaves no mark.  When the first request of
    a hook (the slot of a storage read, the code of the target of a call
    or of an external-code read) is for a fact the record does not name
    and the remote node fails on it, the dispatch ends with the network
    error; the state, the three dedup sets and the access list are
    untouched, and only the request itself has been sent.  The fact is
    still unknown, so a later dispatch asks for it again. *)
Theorem failed_fetch_leaves_no_mark
    (remote : RemoteSource) (op : Z) (scope : ScopeContext) (w : World) (f : Fetch) :
  firstRequest op scope (blockTag (BlockNumber w)) = Some f →
  ¬ settled (interp w) (factOf f) →
  unanswered remote f →
  preDispatch remote op scope w = (logFetch f w, Err NetworkError).
Proof.
  unfold firstRequest. intros Hf Hnew Hdown.
  destruct (readStorage op) eqn:Hr.
  - apply readStorage_SLOAD in Hr as ->. rewrite preDispatch_SLOAD. munfold.
    rewrite registerAddressStorage_cases.
    destruct (last (Stack scope)) as [loc|]; [|done]. injection Hf as <-.
    simpl in Hnew, Hdown. cbv zeta.
    rewrite bool_decide_eq_false_2 by done. by rewrite Hdown.
  - destruct (isCall op) eqn:Hc.
    + rewrite preDispatch_call by done. rewrite registerAddressCodeForCalls_cases. cbv zeta.
      destruct (len (Stack scope) <? 3) eqn:Hlen; [done|].
      destruct (Stack scope !! Z.to_nat (len (Stack scope) - 2)) as [a|]; [|done].
      injection Hf as <-. simpl in Hnew, Hdown.
      assert (H3 : is_Some (Stack scope !! Z.to_nat (len (Stack scope) - 3))).
      { apply lookup_lt_is_Some. apply Z.ltb_ge in Hlen. unfold len in *. lia. }
      destruct H3 as [v ->].
      rewrite bool_decide_eq_false_2 by done. by rewrite Hdown.
    + destruct (isExtCode op) eqn:He; [|done].
      rewrite preDispatch_ext by done. rewrite registerAddressCodeForExt_cases.
      destruct (last (Stack scope)) as [a|]; [|done]. injection Hf as <-.
      simpl in Hnew, Hdown. cbv zeta.
      rewrite bool_decide_eq_false_2 by done. by rewrite Hdown.
Qed.

Lemma failed_fetch_leaves_no_mark_witness :
  preDispatch remoteDown SLOAD (scopeAt 17 [0]) (freshWorld emptyState 1)
  = (logFetch (FetchStorage 17 0 (BlockNum 1)) (freshWorld emptyState 1), Err NetworkError).
Proof.
  apply (failed_fetch_leaves_no_mark remoteDown SLOAD (scopeAt 17 [0])
           (freshWorld emptyState 1) (FetchStorage 17 0 (BlockNum 1))).
  - reflexivity.
  - simpl. rewrite lookup_empty. intros [v Hv]. discriminate.
  - reflexivity.
Defined.

(** X12.  A storage write is never fetched for.  Dispatching SSTORE on a
    stack that is not empty sends no request and changes neither the
    state nor the three dedup sets; it only enters the slot in the
    access list bookkeeping.  A slot that is written without having been
    read therefore never enters the storage map of the record. *)
Theorem sstore_hook_never_fetches
    (remote : RemoteSource) (scope : ScopeContext) (w : World) (loc : Z) :
  last (Stack scope) = Some loc →
  ∃ w', preDispatch remote SSTORE scope w = (w', Ok tt)
        ∧ rpcLog w' = rpcLog w
        ∧ db w' = db w
        ∧ addressCodeSet (interp w') = addressCodeSet (interp w)
        ∧ addressBalanceSet (interp w') = addressBalanceSet (interp w)
        ∧ addressStorageSet (interp w') = addressStorageSet (interp w)
        ∧ (Address scope, Bytes32 loc) ∈ addressSlotAccessListSet (interp w').
Proof.
  intros Hl. rewrite preDispatch_SSTORE.
  rewrite (appendToAccessList_touched SSTORE scope w (Address scope) (Bytes32 loc))
    by (unfold touched; by rewrite Hl).
  destruct (bool_decide _) eqn:Hb.
  - apply bool_decide_eq_true in Hb. exists w. by split_and!.
  - eexists. split_and!; try done. simpl. set_solver.
Qed.

Lemma sstore_hook_never_fetches_witness :
  ∃ w', preDispatch remoteDown SSTORE (scopeAt 17 [7; 0]) (freshWorld emptyState 1) = (w', Ok tt)
        ∧ rpcLog w' = []
        ∧ addressStorageSet (interp w') = ∅.
Proof.
  destruct (sstore_hook_never_fetches remoteDown (scopeAt 17 [7; 0])
              (freshWorld emptyState 1) 0) as (w' & Hrun & Hlog & _ & _ & _ & Hst & _).
  - reflexivity.
  - exists w'. split_and!; [exact Hrun|exact Hlog|exact Hst].
Defined.

Lemma GetState_SetState (s : StateDB) (a k v b j : Z) :
  GetState (SetState s a k v) b j =
    if decide (a = b ∧ k = j) then v else GetState s b j.
Proof.
  unfold GetState, SetState. rewrite getObject_setObject.
  destruct (decide (a = b)) as [->|Hne]; simpl.
  - destruct (decide (k = j)) as [->|Hk].
    + rewrite lookup_insert, decide_True by done. by rewrite decide_True.
    + rewrite lookup_insert_ne by done. by rewrite decide_False by (intros [_ ?]; done).
  - by rewrite decide_False by (intros [? _]; done).
Qed.

Lemma GetCode_SetState (s : StateDB) (a k v b : Z) :
  GetCode (SetState s a k v) b = GetCode s b.
Proof.
  unfold GetCode, SetState. rewrite getObject_setObject.
  by destruct (decide (a = b)) as [->|].
Qed.

Lemma GetBalance_SetState (s : StateDB) (a k v b : Z) :
  GetBalance (SetState s a k v) b = GetBalance s b.
Proof.
  unfold GetBalance, SetState. rewrite getObject_setObject.
  by destruct (decide (a = b)) as [->|].
Qed.

(** X13.  A storage read of a slot the record does not name installs the
    answer of the remote node: afterwards the state holds the fetched
    value for the slot, whatever it held before (a value written earlier
    by a storage write to that slot is replaced), the record names the
    slot with that value, and every other slot, every code and every
    balance read as before.  One request was sent. *)
Theorem sload_hook_installs_fetched_value
    (remote : RemoteSource) (scope : ScopeContext) (w : World) (loc v : Z) :
  last (Stack scope) = Some loc →
  addressStorageSet (interp w) !! (Address scope, Bytes32 loc) = None →
  eth_getStorageAt remote (Address scope) (Bytes32 loc) (blockTag (BlockNumber w)) = Some v →
  ∃ w', preDispatch remote SLOAD scope w = (w', Ok tt)
        ∧ GetState (db w') (Address scope) (Bytes32 loc) = v
        ∧ addressStorageSet (interp w') !! (Address scope, Bytes32 loc) = Some v
        ∧ (∀ a k, (a, k) ≠ (Address scope, Bytes32 loc) →
                  GetState (db w') a k = GetState (db w) a k)
        ∧ (∀ a, GetCode (db w') a = GetCode (db w) a)
        ∧ (∀ a, GetBalance (db w') a = GetBalance (db w) a)
        ∧ rpcLog w' = rpcLog w ++ [FetchStorage (Address scope) (Bytes32 loc)
                                     (blockTag (BlockNumber w))].
Proof.
  intros Hl Hnew Hv. rewrite preDispatch_SLOAD. munfold.
  rewrite registerAddressStorage_cases, Hl. cbv zeta.
  rewrite bool_decide_eq_false_2 by (rewrite Hnew; by intros [? ?]).
  rewrite Hv.
  rewrite (appendToAccessList_touched SLOAD scope _ (Address scope) (Bytes32 loc))
    by (unfold touched; by rewrite Hl).
  eexists. split; [done|].
  assert (Hgoal : ∀ w0 : World,
            db w0 = SetState (db w) (Address scope) (Bytes32 loc) v →
            addressStorageSet (interp w0)
              = <[(Address scope, Bytes32 loc) := v]> (addressStorageSet (interp w)) →
            rpcLog w0 = rpcLog w ++ [FetchStorage (Address scope) (Bytes32 loc)
                                       (blockTag (BlockNumber w))] →
            GetState (db w0) (Address scope) (Bytes32 loc) = v
            ∧ addressStorageSet (interp w0) !! (Address scope, Bytes32 loc) = Some v
            ∧ (∀ a k, (a, k) ≠ (Address scope, Bytes32 loc) →
                      GetState (db w0) a k = GetState (db w) a k)
            ∧ (∀ a, GetCode (db w0) a = GetCode (db w) a)
            ∧ (∀ a, GetBalance (db w0) a = GetBalance (db w) a)
            ∧ rpcLog w0 = rpcLog w ++ [FetchStorage (Address scope) (Bytes32 loc)
                                         (blockTag (BlockNumber w))]).
  { intros w0 Hdb Hst Hlog. rewrite Hdb, Hst. split_and!.
    - rewrite GetState_SetState. by rewrite decide_True.
    - by rewrite lookup_insert, decide_True.
    - intros a k Hne. rewrite GetState_SetState.
      rewrite decide_False; [done|]. intros [<- <-]. done.
    - intros a. apply GetCode_SetState.
    - intros a. apply GetBalance_SetState.
    - done. }
  destruct (bool_decide _); by apply Hgoal.
Qed.

Lemma sload_hook_installs_fetched_value_witness :
  ∃ w', preDispatch remoteZero SLOAD (scopeAt 17 [0]) (freshWorld stateAfterWrite 1) = (w', Ok tt)
        ∧ GetState stateAfterWrite 17 0 = 1
        ∧ GetState (db w') 17 0 = 0.
Proof.
  destruct (sload_hook_installs_fetched_value remoteZero (scopeAt 17 [0])
              (freshWorld stateAfterWrite 1) 0 0) as (w' & Hrun & Hv & _).
  - reflexivity.
  - reflexivity.
  - reflexivity.
  - exists w'. split_and!; [exact Hrun|reflexivity|exact Hv].
Defined.

Lemma getObject_missing (s : StateDB) (a : Z) :
  Exist s a = false → getObject s a = emptyAccount.
Proof.
  unfold Exist, getObject. intros He. apply bool_decide_eq_false in He.
  destruct (accounts s !! a); [|done]. exfalso. apply He. by eexists.
Qed.

Lemma installCode_reads (addr : Z) (code : list Z) (w : World) :
  (∀ b, GetCode (db (installCode addr code w)) b =
        if decide (addr = b) then code else GetCode (db w) b)
  ∧ (∀ b, GetBalance (db (installCode addr code w)) b = GetBalance (db w) b)
  ∧ (∀ b k, GetState (db (installCode addr code w)) b k = GetState (db w) b k)
  ∧ Exist (db (installCode addr code w)) addr = true
  ∧ rpcLog (installCode addr code w) = rpcLog w
  ∧ addressCodeSet (interp (installCode addr code w)) = {[addr]} ∪ addressCodeSet (interp w)
  ∧ addressBalanceSet (interp (installCode addr code w)) = addressBalanceSet (interp w)
  ∧ addressStorageSet (interp (installCode addr code w)) = addressStorageSet (interp w).
Proof.
  unfold installCode. cbn [db setInterp setDb interp rpcLog MarkAddressCode addressCodeSet
                             addressBalanceSet addressStorageSet].
  split_and!; try done.
  - intros b. unfold GetCode, SetCode. rewrite getObject_setObject.
    destruct (decide (addr = b)) as [->|Hne]; [done|].
    destruct (Exist (db w) addr); [done|].
    unfold CreateAccount. rewrite getObject_setObject. by rewrite decide_False.
  - intros b. unfold GetBalance, SetCode. rewrite getObject_setObject.
    destruct (decide (addr = b)) as [->|Hne]; simpl.
    + destruct (Exist (db w) b) eqn:He; [done|].
      unfold CreateAccount. rewrite getObject_setObject, decide_True by done.
      by rewrite getObject_missing.
    + destruct (Exist (db w) addr); [done|].
      unfold CreateAccount. rewrite getObject_setObject. by rewrite decide_False.
  - intros b k. unfold GetState, SetCode. rewrite getObject_setObject.
    destruct (decide (addr = b)) as [->|Hne]; simpl.
    + destruct (Exist (db w) b) eqn:He; [done|].
      unfold CreateAccount. rewrite getObject_setObject, decide_True by done.
      by rewrite getObject_missing.
    + destruct (Exist (db w) addr); [done|].
      unfold CreateAccount. rewrite getObject_setObject. by rewrite decide_False.
  - unfold SetCode. apply Exist_setObject. by left.
Qed.

(** X14.  The hook of an external-code read (EXTCODESIZE, EXTCODECOPY,
    EXTCODEHASH).  For a target that is already in the code set nothing
    happens at all.  For a target that is not, the code the remote node
    answers is installed, replacing whatever code the state held for the
    target; the account exists afterwards; every balance, every storage
    slot and the code of every other address read as before; the target
    enters the code set and one request was sent. *)
Theorem ext_hook_installs_code
    (remote : RemoteSource) (op : Z) (scope : ScopeContext) (w : World) (a : Z) :
  isExtCode op = true →
  last (Stack scope) = Some a →
  (Bytes20 a ∈ addressCodeSet (interp w) → preDispatch remote op scope w = (w, Ok tt))
  ∧ (∀ code,
       Bytes20 a ∉ addressCodeSet (interp w) →
       eth_getCode remote (Bytes20 a) (blockTag (BlockNumber w)) = Some code →
       ∃ w', preDispatch remote op scope w = (w', Ok tt)
             ∧ GetCode (db w') (Bytes20 a) = code
             ∧ Exist (db w') (Bytes20 a) = true
             ∧ (∀ b, b ≠ Bytes20 a → GetCode (db w') b = GetCode (db w) b)
             ∧ (∀ b, GetBalance (db w') b = GetBalance (db w) b)
             ∧ (∀ b k, GetState (db w') b k = GetState (db w) b k)
             ∧ addressCodeSet (interp w') = {[Bytes20 a]} ∪ addressCodeSet (interp w)
             ∧ rpcLog w' = rpcLog w ++ [FetchCode (Bytes20 a) (blockTag (BlockNumber w))]).
Proof.
  intros He Hl. rewrite preDispatch_ext by done.
  rewrite registerAddressCodeForExt_cases, Hl. cbv zeta. split.
  - intros Hin. by rewrite bool_decide_eq_true_2.
  - intros code Hnew Hcode. rewrite bool_decide_eq_false_2 by done. rewrite Hcode.
    eexists. split; [done|].
    destruct (installCode_reads (Bytes20 a) code
                (logFetch (FetchCode (Bytes20 a) (blockTag (BlockNumber w))) w))
      as (Hc & Hb & Hs & Hex & Hlog & Hset & _).
    split_and!; try done.
    + rewrite Hc. by rewrite decide_True.
    + intros b Hne. rewrite Hc. by rewrite decide_False.
Qed.

Lemma ext_hook_installs_code_witness :
  ∃ w', preDispatch remoteZero EXTCODESIZE (scopeAt 18 [17]) (freshWorld stateAfterWrite 1)
        = (w', Ok tt)
        ∧ GetCode stateAfterWrite 17 = [SLOAD]
        ∧ GetCode (db w') 17 = []
        ∧ GetState (db w') 17 0 = 1.
Proof.
  destruct (ext_hook_installs_code remoteZero EXTCODESIZE (scopeAt 18 [17])
              (freshWorld stateAfterWrite 1) 17) as [_ Hnew].
  - reflexivity.
  - reflexivity.
  - destruct (Hnew []) as (w' & Hrun & Hcode & _ & _ & _ & Hst & _).
    + apply (bool_decide_unpack _). vm_compute. exact I.
    + reflexivity.
    + exists w'. split_and!; [exact Hrun|reflexivity|exact Hcode|].
      rewrite Hst. reflexivity.
Defined.

(** X15.  DELEGATECALL and STATICCALL never lead to a balance request:
    their hook sends at most the one request for the code of the target,
    and leaves every balance in the state and the balance set as they
    were. *)
Theorem valueless_calls_never_fetch_balance
    (remote : RemoteSource) (op : Z) (scope : ScopeContext) (w : World) :
  op = DELEGATECALL ∨ op = STATICCALL →
  (∀ f, f ∈ rpcLog (preDispatch remote op scope w).1 →
        f ∈ rpcLog w ∨ ∃ a, f = FetchCode a (blockTag (BlockNumber w)))
  ∧ (length (rpcLog (preDispatch remote op scope w).1) ≤ S (length (rpcLog w)))%nat
  ∧ (∀ b, GetBalance (db (preDispatch remote op scope w).1) b = GetBalance (db w) b)
  ∧ addressBalanceSet (interp (preDispatch remote op scope w).1)
    = addressBalanceSet (interp w).
Proof.
  intros Hop.
  assert (Hc : isCall op = true) by (destruct Hop as [-> | ->]; reflexivity).
  assert (Hv : bool_decide (op = CALL) || bool_decide (op = CALLCODE) = false)
    by (destruct Hop as [-> | ->]; reflexivity).
  rewrite preDispatch_call by done.
  rewrite registerAddressCodeForCalls_cases. cbv zeta. rewrite Hv.
  destruct (len (Stack scope) <? 3); [by split_and!; auto|].
  destruct (Stack scope !! _) as [a|]; [|by split_and!; auto].
  destruct (Stack scope !! _) as [v|]; [|by split_and!; auto].
  destruct (bool_decide (Bytes20 a ∈ _)); [by split_and!; auto|].
  destruct (eth_getCode remote _ _) as [code|]; cbn [andb fst].
  - destruct (installCode_reads (Bytes20 a) code
                (logFetch (FetchCode (Bytes20 a) (blockTag (BlockNumber w))) w))
      as (_ & Hb & _ & _ & Hlog & _ & Hbs & _).
    rewrite Hlog, Hbs. split_and!; try done.
    + intros f Hf. simpl in Hf. apply elem_of_app in Hf as [Hf|Hf]; [by left|].
      apply list_elem_of_singleton in Hf as ->. right. by eexists.
    + simpl. rewrite length_app. simpl. lia.
  - split_and!; try done.
    + intros f Hf. simpl in Hf. apply elem_of_app in Hf as [Hf|Hf]; [by left|].
      apply list_elem_of_singleton in Hf as ->. right. by eexists.
    + simpl. rewrite length_app. simpl. lia.
Qed.

Lemma valueless_calls_never_fetch_balance_witness :
  rpcLog (preDispatch remoteTen DELEGATECALL callScope (freshWorld emptyState 1)).1
  = [FetchCode 18 (BlockNum 1)]
  ∧ GetBalance (db (preDispatch remoteTen DELEGATECALL callScope
                      (freshWorld emptyState 1)).1) 18 = 0.
Proof.
  destruct (valueless_calls_never_fetch_balance remoteTen DELEGATECALL callScope
              (freshWorld emptyState 1)) as (_ & _ & Hb & _).
  - left. reflexivity.
  - split; [reflexivity|]. rewrite Hb. reflexivity.
Defined.

(** *** The record only grows *)

Lemma extends_refl (i : EVMInterpreter) : extends i i.
Proof. by unfold extends. Qed.

Lemma extends_trans (i1 i2 i3 : EVMInterpreter) :
  extends i1 i2 → extends i2 i3 → extends i1 i3.
Proof.
  intros (Hc & Hb & Hs) (Hc' & Hb' & Hs'). unfold extends.
  split_and!; [set_solver|set_solver|by etrans].
Qed.

Ltac extends_step :=
  idtac;
  match goal with
  | H : extends ?i0 (interp ?w) |- extends ?i0 _ =>
      apply (extends_trans _ _ _ H); unfold extends; simpl;
      split_and!; [set_solver|set_solver|done]
  end.

Lemma registerAddressStorage_extends i0 remote op scope blk :
  preserves (λ w, extends i0 (interp w)) (registerAddressStorage remote op scope blk).
Proof.
  intros w Hw. rewrite registerAddressStorage_cases.
  destruct (last (Stack scope)) as [loc|]; [|done]. cbv zeta.
  destruct (bool_decide _) eqn:Hknown; [done|].
  destruct (eth_getStorageAt _ _ _ _) as [v|]; [|done].
  simpl. apply (extends_trans _ _ _ Hw). unfold extends. simpl. split_and!; try done.
  apply insert_subseteq. apply bool_decide_eq_false in Hknown.
  by apply eq_None_not_Some.
Qed.

Lemma preDispatch_extends i0 remote op scope :
  preserves (λ w, extends i0 (interp w)) (preDispatch remote op scope).
Proof.
  unfold preDispatch.
  apply preserves_bind; [apply preserves_gets|intros blk].
  apply preserves_bind.
  - destruct (readStorage op); [apply registerAddressStorage_extends|].
    destruct (isCall op).
    { unfold registerAddressCodeForCalls. preserve_with extends_step. }
    destruct (isExtCode op); [|apply (preserves_ret _ tt)].
    unfold registerAddressCodeForExt. preserve_with extends_step.
  - intros _. destruct (interactWithStorage op); [|apply (preserves_ret _ tt)].
    unfold appendToAccessList. preserve_with extends_step.
Qed.

Lemma runEvents_extends remote (es : list Event) :
  ∀ i0, preserves (λ w, extends i0 (interp w)) (runEvents remote es).
Proof.
  induction es as [|e es IH]; intros i0; [apply (preserves_ret _ tt)|].
  cbn [runEvents]. apply preserves_bind; [|intros _; apply IH].
  destruct e as [op scope|f|a|a|n]; cbn [runEvent].
  - apply preDispatch_extends.
  - unfold updDb. apply preserves_modify. by intros w Hw.
  - unfold updInterp. apply preserves_modify. intros w Hw. extends_step.
  - unfold updInterp. apply preserves_modify. intros w Hw. extends_step.
  - apply preserves_modify. intros w Hw. simpl.
    apply (extends_trans _ _ _ Hw). by unfold extends.
Qed.

(** X16.  Over the life of a record the dedup sets only grow and a
    recorded storage value never changes: whatever opcodes reach the
    hooks, whatever the execution does to the state in between, however
    many passes are started from the record of the pass before, and
    however the sequence ends, every address of the code set and of the
    balance set is still in its set, and every slot of the storage map
    is still there with the value it was first recorded with. *)
Theorem record_only_grows (remote : RemoteSource) (es : list Event) (w : World) :
  extends (interp w) (interp (runEvents remote es w).1).
Proof. apply (runEvents_extends remote es (interp w) w). apply extends_refl. Qed.

Lemma keepsRecord_execute table i0 op pc scope :
  keepsRecord table → preserves (λ w, extends i0 (interp w)) (execute (table op) pc scope).
Proof. intros [He _] w Hw. eapply extends_trans; [exact Hw|apply He]. Qed.

Lemma keepsRecord_dynamicGas table i0 op dyn scope m :
  keepsRecord table → dynamicGas (table op) = Some dyn →
  preserves (λ w, extends i0 (interp w)) (dyn scope m).
Proof. intros [_ Hd] Hdyn w Hw. eapply extends_trans; [exact Hw|by apply (Hd op)]. Qed.

Lemma chargeGas_extends table i0 op scope :
  keepsRecord table → preserves (λ w, extends i0 (interp w)) (chargeGas (table op) scope).
Proof.
  intros Hk. unfold chargeGas. cbv zeta.
  destruct (_ <? _); [apply preserves_fail|].
  destruct (_ <? _); [apply preserves_fail|].
  apply preserves_bind; [apply preserves_useGas|intros scope1].
  destruct (dynamicGas (table op)) as [dyn|] eqn:Hdyn; [|apply (preserves_ret _ scope1)].
  apply preserves_bind.
  { destruct (memorySize (table op)) as [f|]; [|apply (preserves_ret _ 0)].
    destruct (f (Stack scope1)) as [memSize overflow].
    destruct overflow; [apply preserves_fail|].
    destruct (SafeMul _ _) as [m overflow].
    destruct overflow; [apply preserves_fail|apply (preserves_ret _ m)]. }
  intros msize. apply preserves_bind; [by eapply keepsRecord_dynamicGas|].
  intros [d|]; [|apply preserves_fail].
  apply preserves_bind; [apply preserves_useGas|intros scope2].
  apply (preserves_ret _ _).
Qed.

Lemma Call_extends remote table i0 fuel caller addr input gas val :
  keepsRecord table →
  preserves (λ w, extends i0 (interp w)) (Call remote table fuel caller addr input gas val).
Proof.
  intros Hk. apply preserves_Call.
  - intros op scope. apply preserves_bind; [apply preDispatch_extends|].
    intros _. by apply chargeGas_extends.
  - intros op pc scope. by apply keepsRecord_execute.
  - by intros f Hf w Hw.
  - by intros w w' _ Hw'.
Qed.

Lemma Execute_extends remote table (fuel : nat) (address originBalance : Z)
    (code input : list Z) (cfg : Config) (record : option RecordToInitiateState) :
  keepsRecord table →
  hoare (λ _, True)
    (Execute remote table fuel address originBalance code input cfg record)
    (λ w, extends (NewEVMInterpreter record) (interp w)).
Proof.
  intros Hk. set (P := λ w : World, extends (NewEVMInterpreter record) (interp w)).
  unfold Execute. cbv zeta.
  apply (hoare_modify (λ _, True) (λ _, True)); [done|].
  apply (hoare_modify (λ _, True) P).
  { intros w _. unfold P. simpl. apply extends_refl. }
  apply hoare_preserves; [|done].
  apply preserves_bind; [apply preserves_gets|intros originAcc].
  apply preserves_bind; [unfold P; preserve_with extends_step|].
  intros _. apply preserves_bind; [unfold P; preserve_with extends_step|].
  intros _. apply preserves_bind; [unfold P; preserve_with extends_step|].
  intros _. apply preserves_bind; [apply preserves_gets|intros exists_].
  apply preserves_bind; [unfold P; preserve_with extends_step|].
  intros _. destruct (MustFromBig (Value (SetDefaults cfg))); [|apply preserves_panic].
  apply preserves_bind; [by apply Call_extends|]. intros [ret left].
  preserve_with ltac:(idtac; fail).
Qed.

Lemma Execute_recordExtends remote table (fuel : nat) (address originBalance : Z)
    (code input : list Z) (cfg : Config) (r : RecordToInitiateState)
    (w w' : World) (res : ExecutionResult) :
  keepsRecord table →
  Execute remote table fuel address originBalance code input cfg (Some r) w = (w', Ok res) →
  recordExtends r (Record_ res).
Proof.
  intros Hk H. rewrite (Execute_record _ _ _ _ _ _ _ _ _ _ _ _ H).
  pose proof (Execute_extends remote table fuel address originBalance code input cfg
                (Some r) Hk w I) as He.
  rewrite H in He. simpl in He. exact He.
Qed.

Lemma recordExtends_trans (r1 r2 r3 : RecordToInitiateState) :
  recordExtends r1 r2 → recordExtends r2 r3 → recordExtends r1 r3.
Proof.
  intros (Hc & Hb & Hs) (Hc' & Hb' & Hs'). unfold recordExtends.
  split_and!; [set_solver|set_solver|by etrans].
Qed.

Lemma keepsRecord_testInstructionSet : keepsRecord testInstructionSet.
Proof.
  split.
  - intros op pc scope w.
    assert (Hp : preserves (λ w0, extends (interp w) (interp w0))
                   (execute (testInstructionSet op) pc scope)).
    { unfold testInstructionSet. repeat case_bool_decide; cbn [execute];
        unfold opStop, opAdd, opCallDataLoad, opMstore, opSload, opSstore, opPush0, opPush1,
               opReturn, opUndefined;
        preserve_with extends_step. }
    apply Hp. apply extends_refl.
  - intros op dyn scope m w Hdyn.
    assert (Hp : preserves (λ w0, extends (interp w) (interp w0)) (dyn scope m)).
    { unfold testInstructionSet in Hdyn.
      repeat case_bool_decide; cbn [dynamicGas] in Hdyn; try discriminate;
        injection Hdyn as <-;
        unfold memoryGasCost, gasSLoadEIP2929, gasSStoreEIP3529;
        preserve_with extends_step. }
    apply Hp. apply extends_refl.
Qed.

(** X17.  A pass hands back at least what it was seeded with.  For a
    jump table whose entries leave the dedup sets to the hooks, the
    record a successful [Execute] returns holds every address and every
    slot of the record it was started from, the slots with the same
    values; and so does the record a successful [Simulate] returns with
    respect to the record of the caller, across both of its passes. *)
Theorem pass_returns_at_least_its_seed
    (remote : RemoteSource) (table : Z → operation) (fuel : nat) :
  keepsRecord table →
  (∀ address originBalance code input cfg r w w' res,
     Execute remote table fuel address originBalance code input cfg (Some r) w = (w', Ok res) →
     recordExtends r (Record_ res))
  ∧ (∀ sim r w w' res,
       Simulate remote table fuel sim (Some r) w = (w', Ok res) →
       recordExtends r (resRecord res)).
Proof.
  intros Hk. split.
  - intros address originBalance code input cfg r w w' res.
    by apply Execute_recordExtends.
  - intros sim r w w' res. rewrite Simulate_unfold. intros H.
    apply bind_Ok_inv in H as ([code balance] & w0 & _ & H).
    apply bind_Ok_inv in H as (pass1 & w1 & H1 & H).
    apply bind_Ok_inv in H as (idealState & w1' & [= <- <-] & H).
    apply bind_Ok_inv in H as ([st pass2] & w2 & H2 & H).
    injection H as <- <-. simpl.
    apply Execute_recordExtends in H1; [|done].
    unfold onState in H2.
    destruct (Execute _ _ _ _ _ _ _ _ _ (setDb _ w1)) as [w2' [p2|e| |]] eqn:He; try done.
    injection H2 as <- <- <-.
    apply Execute_recordExtends in He; [|done].
    eapply recordExtends_trans; [|exact He].
    eapply recordExtends_trans; [|exact H1].
    by unfold recordExtends.
Qed.

Lemma pass_returns_at_least_its_seed_witness :
  ∃ res,
    (Simulate remoteZero testInstructionSet 10 readTwice (Some recordAfterWrite)
       (freshWorld emptyState 1)).2 = Ok res
    ∧ recordExtends recordAfterWrite (resRecord res).
Proof.
  destruct (Simulate remoteZero testInstructionSet 10 readTwice (Some recordAfterWrite)
              (freshWorld emptyState 1)) as [w' r] eqn:Hs.
  assert (Hr : ∃ res, r = Ok res).
  { replace r with (Simulate remoteZero testInstructionSet 10 readTwice
                      (Some recordAfterWrite) (freshWorld emptyState 1)).2
      by (by rewrite Hs).
    eexists. vm_compute. reflexivity. }
  destruct Hr as [res ->]. exists res. split; [reflexivity|].
  destruct (pass_returns_at_least_its_seed remoteZero testInstructionSet 10
              keepsRecord_testInstructionSet) as [_ Hsim].
  exact (Hsim readTwice recordAfterWrite (freshWorld emptyState 1) w' res Hs).
Defined.

(** *** The order of hooks and validation in the loop *)

Lemma loop_head remote table (fuel : nat) (scope : ScopeContext) (pc : Z) (w : World) :
  loop remote table (S fuel) scope pc w =
    match preDispatch remote (GetOp (contract scope) pc) scope w with
    | (w1, Ok _) =>
        (scope' ← chargeGas (table (GetOp (contract scope) pc)) scope;
         out ← execute (table (GetOp (contract scope) pc)) pc scope';
         match eo_status out with
         | Continue => loop remote table fuel (eo_scope out) (u64 (eo_pc out + 1))
         | Stopped => mret (mkRunOut (eo_res out) (Gas (contract (eo_scope out))) false)
         | Reverted => mret (mkRunOut (eo_res out) (Gas (contract (eo_scope out))) true)
         end) w1
    | (w1, Err e) => (w1, Err e)
    | (w1, Panic) => (w1, Panic)
    | (w1, OutOfFuel) => (w1, OutOfFuel)
    end.
Proof.
  cbn [loop]. unfold mbind at 1, M_bind at 1, bind at 1.
  destruct (preDispatch _ _ _ w) as [w1 [[]|e| |]]; reflexivity.
Qed.

(** X18.  The hooks come first.  In one turn of the loop, an error of
    the hooks ends the run before the jump table is consulted.  When the
    hooks succeed and the opcode is then rejected (too few or too many
    stack elements, not enough gas for its constant cost), the run ends
    with that error in the world the hooks left behind: what the hooks
    fetched, wrote to the state and put on the access list stays. *)
Theorem hooks_run_before_validation
    (remote : RemoteSource) (table : Z → operation) (fuel : nat)
    (scope : ScopeContext) (pc : Z) (w : World) :
  (∀ w1 e, preDispatch remote (GetOp (contract scope) pc) scope w = (w1, Err e) →
           loop remote table (S fuel) scope pc w = (w1, Err e))
  ∧ (∀ w1, preDispatch remote (GetOp (contract scope) pc) scope w = (w1, Ok tt) →
           len (Stack scope) < minStack (table (GetOp (contract scope) pc)) →
           loop remote table (S fuel) scope pc w
           = (w1, Err (ErrStackUnderflow (len (Stack scope))
                         (minStack (table (GetOp (contract scope) pc))))))
  ∧ (∀ w1, preDispatch remote (GetOp (contract scope) pc) scope w = (w1, Ok tt) →
           minStack (table (GetOp (contract scope) pc)) ≤ len (Stack scope) →
           maxStack (table (GetOp (contract scope) pc)) < len (Stack scope) →
           loop remote table (S fuel) scope pc w
           = (w1, Err (ErrStackOverflow (len (Stack scope))
                         (maxStack (table (GetOp (contract scope) pc))))))
  ∧ (∀ w1, preDispatch remote (GetOp (contract scope) pc) scope w = (w1, Ok tt) →
           minStack (table (GetOp (contract scope) pc)) ≤ len (Stack scope) →
           len (Stack scope) ≤ maxStack (table (GetOp (contract scope) pc)) →
           Gas (contract scope) < constantGas (table (GetOp (contract scope) pc)) →
           loop remote table (S fuel) scope pc w = (w1, Err ErrOutOfGas)).
Proof.
  split_and!.
  - intros w1 e H. by rewrite loop_head, H.
  - intros w1 H Hlen. rewrite loop_head, H. unfold chargeGas. cbv zeta.
    unfold mbind at 1, M_bind at 1, bind at 1.
    by replace (_ <? _) with true by (symmetry; by apply Z.ltb_lt).
  - intros w1 H Hmin Hmax. rewrite loop_head, H. unfold chargeGas. cbv zeta.
    unfold mbind at 1, M_bind at 1, bind at 1.
    replace (len (Stack scope) <? _) with false by (symmetry; by apply Z.ltb_ge).
    by replace (_ <? _) with true by (symmetry; by apply Z.ltb_lt).
  - intros w1 H Hmin Hmax Hgas. rewrite loop_head, H. unfold chargeGas. cbv zeta.
    unfold mbind at 1, M_bind at 1, bind at 1.
    replace (len (Stack scope) <? _) with false by (symmetry; by apply Z.ltb_ge).
    replace (_ <? len (Stack scope)) with false by (symmetry; by apply Z.ltb_ge).
    unfold mbind at 1, M_bind at 1, bind at 1. unfold useGas, UseGas.
    by replace (_ <? _) with true by (symmetry; by apply Z.ltb_lt).
Qed.

(** X19.  The fetching hooks check the depth of the stack themselves.
    When a storage read, one of the four calls or one of the three
    external-code reads is dispatched on a stack shallower than what its
    hook reads (three elements for a call, one otherwise), the run ends
    with the insufficient-elements error of the hook, for every jump
    table: nothing is fetched and the world is left as it was. *)
Theorem fetch_hooks_reject_shallow_stack
    (remote : RemoteSource) (table : Z → operation) (fuel : nat)
    (scope : ScopeContext) (pc : Z) (w : World) :
  readStorage (GetOp (contract scope) pc) || isCall (GetOp (contract scope) pc)
    || isExtCode (GetOp (contract scope) pc) = true →
  len (Stack scope) < hookDepth (GetOp (contract scope) pc) →
  loop remote table (S fuel) scope pc w = (w, Err ErrInsufficientStackElements).
Proof.
  intros Hop Hlen. rewrite loop_head.
  by rewrite (preDispatch_shallow_fetching remote _ scope w Hop Hlen).
Qed.

Lemma fetch_hooks_reject_shallow_stack_witness :
  loop remoteZero testInstructionSet 1
    (mkScope [] [5; 18] (mkContract 0 17 0 [CALL] [] 100000)) 0 (freshWorld emptyState 1)
  = (freshWorld emptyState 1, Err ErrInsufficientStackElements).
Proof.
  apply (fetch_hooks_reject_shallow_stack remoteZero testInstructionSet 0
           (mkScope [] [5; 18] (mkContract 0 17 0 [CALL] [] 100000)) 0
           (freshWorld emptyState 1)).
  - reflexivity.
  - vm_compute. reflexivity.
Defined.

(** *** The combined request of the client *)


(** *** The block argument of the requests *)

Lemma hexValue_hexDigit (d : Z) : 0 ≤ d < 16 → hexValue (hexDigit d) = Some d.
Proof.
  intros Hd.
  assert (Hcases : d ∈ [0; 1; 2; 3; 4; 5; 6; 7; 8; 9; 10; 11; 12; 13; 14; 15]).
  { assert (d = 0 ∨ d = 1 ∨ d = 2 ∨ d = 3 ∨ d = 4 ∨ d = 5 ∨ d = 6 ∨ d = 7 ∨ d = 8 ∨ d = 9
            ∨ d = 10 ∨ d = 11 ∨ d = 12 ∨ d = 13 ∨ d = 14 ∨ d = 15) as H by lia.
    set_solver. }
  repeat (apply elem_of_cons in Hcases as [->|Hcases]; [by vm_compute|]).
  by apply elem_of_nil in Hcases.
Qed.

Lemma hexDigit_plain (d : Z) :
  0 ≤ d < 16 →
  hexDigit d ≠ "-"%char ∧ hexDigit d ≠ "+"%char ∧ hexDigit d ≠ "x"%char
  ∧ (0 < d → hexDigit d ≠ "0"%char).
Proof.
  intros Hd.
  assert (Hcases : d ∈ [0; 1; 2; 3; 4; 5; 6; 7; 8; 9; 10; 11; 12; 13; 14; 15]).
  { assert (d = 0 ∨ d = 1 ∨ d = 2 ∨ d = 3 ∨ d = 4 ∨ d = 5 ∨ d = 6 ∨ d = 7 ∨ d = 8 ∨ d = 9
            ∨ d = 10 ∨ d = 11 ∨ d = 12 ∨ d = 13 ∨ d = 14 ∨ d = 15) as H by lia.
    set_solver. }
  repeat (apply elem_of_cons in Hcases as [->|Hcases];
          [split_and!; unfold not; intros;
           first [lia | match goal with H : _ = _ |- _ => vm_compute in H; discriminate H end]|]).
  by apply elem_of_nil in Hcases.
Qed.

Lemma scanDigits_app (s1 s2 : string) :
  ∀ acc, scanDigits acc (s1 +:+ s2) =
         match scanDigits acc s1 with
         | Some acc' => scanDigits acc' s2
         | None => None
         end.
Proof.
  induction s1 as [|c s1 IH]; intros acc; [done|].
  simpl. destruct (hexValue c); [apply IH|done].
Qed.

Lemma scanDigits_hexDigits (fuel : nat) :
  ∀ n, 0 ≤ n < 16 ^ Z.of_nat fuel → scanDigits 0 (hexDigits fuel n) = Some n.
Proof.
  induction fuel as [|fuel IH]; intros n Hn.
  - simpl in *. f_equal. lia.
  - cbn [hexDigits]. rewrite scanDigits_app.
    assert (Hmod : 0 ≤ n mod 16 < 16) by (apply Z.mod_pos_bound; lia).
    destruct (n <? 16) eqn:Hsmall.
    + apply Z.ltb_lt in Hsmall. simpl. rewrite hexValue_hexDigit by done.
      simpl. f_equal. rewrite Z.mod_small by lia. lia.
    + apply Z.ltb_ge in Hsmall. rewrite IH.
      * simpl. rewrite hexValue_hexDigit by done. simpl. f_equal.
        pose proof (Z.div_mod n 16). lia.
      * split; [apply Z.div_pos; lia|].
        apply Z.div_lt_upper_bound; [lia|].
        rewrite Nat2Z.inj_succ, Z.pow_succ_r in Hn by lia. lia.
Qed.

Lemma hexDigits_head (fuel : nat) :
  ∀ n, 0 < n < 16 ^ Z.of_nat fuel →
       ∃ d s, hexDigits fuel n = String (hexDigit d) s ∧ 0 < d < 16.
Proof.
  induction fuel as [|fuel IH]; intros n Hn.
  - simpl in Hn. lia.
  - cbn [hexDigits]. destruct (n <? 16) eqn:Hsmall.
    + apply Z.ltb_lt in Hsmall. exists (n mod 16), EmptyString. split; [done|].
      rewrite Z.mod_small by lia. lia.
    + apply Z.ltb_ge in Hsmall. destruct (IH (n / 16)) as (d & s & -> & Hd).
      * split.
        -- apply Z.div_str_pos. lia.
        -- apply Z.div_lt_upper_bound; [lia|].
           rewrite Nat2Z.inj_succ, Z.pow_succ_r in Hn by lia. lia.
      * by eexists d, _.
Qed.

Lemma fuel_enough (n : Z) : 0 ≤ n → n < 16 ^ Z.of_nat (S (Z.to_nat (Z.log2 n))).
Proof.
  intros Hn. rewrite Nat2Z.inj_succ, Z2Nat.id by apply Z.log2_nonneg.
  destruct (decide (n = 0)) as [->|Hne]; [by vm_compute|].
  pose proof (Z.log2_spec n ltac:(lia)) as [_ Hlt].
  eapply Z.lt_le_trans; [exact Hlt|].
  apply Z.pow_le_mono_l. pose proof (Z.log2_nonneg n). lia.
Qed.

Lemma SetString16_hexDigits (n : Z) :
  0 ≤ n → SetString16 (hexDigits (S (Z.to_nat (Z.log2 n))) n) = Some n.
Proof.
  intros Hn. pose proof (fuel_enough n Hn) as Hfuel.
  pose proof (scanDigits_hexDigits _ n (conj Hn Hfuel)) as Hscan.
  destruct (decide (n = 0)) as [->|Hne]; [by vm_compute|].
  assert (Hpos : 0 < n) by lia.
  destruct (hexDigits_head _ n (conj Hpos Hfuel)) as (d & s & Heq & Hd).
  rewrite Heq in *. unfold SetString16.
  destruct (hexDigit_plain d (conj (Z.lt_le_incl _ _ (proj1 Hd)) (proj2 Hd))) as (Hm & Hp & _).
  by rewrite !bool_decide_eq_false_2 by done.
Qed.

Lemma SetString16_Text16 (n : Z) : SetString16 (Text16 n) = Some n.
Proof.
  unfold Text16. destruct (n <? 0) eqn:Hneg.
  - apply Z.ltb_lt in Hneg.
    assert (Hpos : 0 < - n) by lia. assert (Hnn : 0 ≤ - n) by lia.
    pose proof (fuel_enough (- n) Hnn) as Hfuel.
    destruct (hexDigits_head _ (- n) (conj Hpos Hfuel)) as (d & s & Heq & Hd).
    unfold SetString16. rewrite bool_decide_eq_true_2 by done.
    rewrite bool_decide_eq_false_2 by (by rewrite Heq).
    rewrite scanDigits_hexDigits by lia. simpl. f_equal. lia.
  - apply Z.ltb_ge in Hneg. by apply SetString16_hexDigits.
Qed.

Lemma TrimLeft_prefix (c : ascii) (s : string) :
  c ≠ "0"%char → c ≠ "x"%char → TrimLeft ("0x" +:+ String c s) "0x" = String c s.
Proof.
  intros H0 Hx.
  change ("0x" +:+ String c s) with (String "0" (String "x" (String c s))).
  cbn [TrimLeft inCutset].
  rewrite (bool_decide_eq_true_2 ("0"%char = "0"%char)) by done.
  rewrite (bool_decide_eq_true_2 ("x"%char = "x"%char)) by done.
  rewrite (bool_decide_eq_false_2 ("x"%char = "0"%char)) by done.
  rewrite (bool_decide_eq_false_2 (c = "0"%char)) by done.
  rewrite (bool_decide_eq_false_2 (c = "x"%char)) by done.
  done.
Qed.

Lemma normaliseBlock_hookBlock (n : Z) :
  normaliseBlock (hookBlock n) = tagString (blockTag n).
Proof.
  unfold normaliseBlock, hookBlock, blockTag.
  destruct (0 <? n) eqn:Hpos.
  - apply Z.ltb_lt in Hpos. unfold Text16 at 1.
    replace (n <? 0) with false by (symmetry; apply Z.ltb_ge; lia).
    assert (Hnn : 0 ≤ n) by lia.
    pose proof (fuel_enough n Hnn) as Hfuel.
    destruct (hexDigits_head _ n (conj Hpos Hfuel)) as (d & s & Heq & Hd).
    destruct (hexDigit_plain d (conj (Z.lt_le_incl _ _ (proj1 Hd)) (proj2 Hd))) as (_ & _ & Hx & H0).
    assert (Htrim : TrimLeft ("0x" +:+ hexDigits (S (Z.to_nat (Z.log2 n))) n) "0x"
                    = hexDigits (S (Z.to_nat (Z.log2 n))) n).
    { rewrite Heq. apply TrimLeft_prefix; [apply H0; lia|done]. }
    rewrite Htrim, SetString16_hexDigits by lia.
    replace (n <=? 0) with false by (symmetry; apply Z.leb_gt; lia).
    unfold tagString, Text16. by replace (n <? 0) with false by (symmetry; apply Z.ltb_ge; lia).
  - apply Z.ltb_ge in Hpos. destruct (decide (n = 0)) as [->|Hne]; [by vm_compute|].
    assert (Hneg : n < 0) by lia.
    assert (Htrim : TrimLeft ("0x" +:+ Text16 n) "0x" = Text16 n).
    { unfold Text16. replace (n <? 0) with true by (symmetry; by apply Z.ltb_lt).
      by apply TrimLeft_prefix. }
    rewrite Htrim, SetString16_Text16.
    by replace (n <=? 0) with true by (symmetry; apply Z.leb_le; lia).
Qed.

(** X21.  The block argument survives the client exactly when the block
    number is positive.  For a positive number the argument the hooks
    and the simulator build, the prefix [0x] followed by the number in
    hexadecimal, passes through the client unchanged: stripping the
    prefix and reading the rest back gives the number again.  For zero
    and for a negative number the client asks for the latest block,
    whether it was handed the hexadecimal string or the empty one. *)
Theorem block_argument_round_trip (n : Z) :
  normaliseBlock (hookBlock n) = tagString (blockTag n)
  ∧ normaliseBlock (simulatorBlock n) = tagString (blockTag n)
  ∧ SetString16 (Text16 n) = Some n
  ∧ (0 < n → SetString16 (TrimLeft (hookBlock n) "0x") = Some n).
Proof.
  split_and!.
  - apply normaliseBlock_hookBlock.
  - unfold simulatorBlock. destruct (0 <? n) eqn:Hpos.
    + pose proof (normaliseBlock_hookBlock n) as H. unfold hookBlock in H. exact H.
    + unfold blockTag. rewrite Hpos. reflexivity.
  - apply SetString16_Text16.
  - intros Hpos. unfold hookBlock, Text16.
    replace (n <? 0) with false by (symmetry; apply Z.ltb_ge; lia).
    assert (Hnn : 0 ≤ n) by lia.
    pose proof (fuel_enough n Hnn) as Hfuel.
    destruct (hexDigits_head _ n (conj Hpos Hfuel)) as (d & s & Heq & Hd).
    destruct (hexDigit_plain d (conj (Z.lt_le_incl _ _ (proj1 Hd)) (proj2 Hd))) as (_ & _ & Hx & H0).
    assert (Htrim : TrimLeft ("0x" +:+ hexDigits (S (Z.to_nat (Z.log2 n))) n) "0x"
                    = hexDigits (S (Z.to_nat (Z.log2 n))) n).
    { rewrite Heq. apply TrimLeft_prefix; [apply H0; lia|done]. }
    rewrite Htrim. apply SetString16_hexDigits. lia.
Qed.

(** *** Runs end *)

Lemma post_ret {A} (a : A) (Q : A → Prop) : Q a → post (mret a) Q.
Proof. by intros Ha w. Qed.

Lemma post_fail {A} (e : Error) (Q : A → Prop) : post (fail e) Q.
Proof. by intros w. Qed.

Lemma post_panic {A} (Q : A → Prop) : post panic Q.
Proof. by intros w. Qed.

Lemma post_gets {A} (f : World → A) (Q : A → Prop) : (∀ w, Q (f w)) → post (gets f) Q.
Proof. intros H w. apply H. Qed.

Lemma post_modify (f : World → World) (Q : unit → Prop) : Q tt → post (modify f) Q.
Proof. by intros H w. Qed.

Lemma post_bind {A B} (c : M World A) (k : A → M World B) (R : A → Prop) (Q : B → Prop) :
  post c R → (∀ a, R a → post (k a) Q) → post (c ≫= k) Q.
Proof.
  intros Hc Hk w. unfold mbind, M_bind, bind. specialize (Hc w).
  destruct (c w) as [w1 [a|e| |]]; simpl in *; try done. by apply Hk.
Qed.

Lemma post_weaken {A} (c : M World A) (R Q : A → Prop) :
  post c R → (∀ a, R a → Q a) → post c Q.
Proof.
  intros Hc HRQ w. specialize (Hc w). destruct (c w) as [w1 [a|e| |]]; simpl in *; auto.
Qed.

Lemma post_any {A} (c : M World A) (Q : A → Prop) : post c Q → post c (λ _, True).
Proof. intros Hc. by apply (post_weaken c Q). Qed.

Lemma post_index (l : list Z) (i : Z) : post (index l i) (λ _, True).
Proof.
  unfold index. destruct (i <? 0); [apply post_panic|].
  destruct (l !! Z.to_nat i); [by apply (post_ret _ (λ _, True))|apply post_panic].
Qed.

Lemma post_onError {A} (c : M World A) (h : World → World) (Q : A → Prop) :
  post c Q → post (onError c h) Q.
Proof.
  intros Hc w. unfold onError. specialize (Hc w).
  by destruct (c w) as [w1 [a|e| |]].
Qed.

Lemma post_onState {A} (st : StateDB) (c : M World A) :
  post c (λ _, True) → post (onState st c) (λ _, True).
Proof.
  intros Hc w. unfold onState. specialize (Hc (setDb st w)).
  by destruct (c (setDb st w)) as [w1 [a|e| |]].
Qed.

(** Break a computation that ignores what its steps return down to
    its steps. *)
Ltac returns_step :=
  first
    [ apply (post_ret _ (λ _, True)); exact I
    | apply post_fail | apply post_panic
    | apply post_gets; intros ?; exact I
    | apply post_modify; exact I
    | apply post_index
    | apply (post_bind _ _ (λ _, True)); [|intros ? _]
    | match goal with
      | |- post (match ?x with _ => _ end) _ => destruct x
      | |- post (let '(_, _) := ?x in _) _ => destruct x
      end
    | progress unfold updDb, updInterp, GetCodeRpc, GetStorageAtRpc, GetBalanceRpc,
                      fetchAndInstallCode, peek
    | progress cbv zeta ].

Lemma preDispatch_returns remote op scope : post (preDispatch remote op scope) (λ _, True).
Proof.
  unfold preDispatch, registerAddressStorage, registerAddressCodeForCalls,
    registerAddressCodeForExt, appendToAccessList.
  repeat returns_step.
Qed.

Lemma useGas_post (scope : ScopeContext) (cost : Z) :
  post (useGas scope cost)
       (λ s, Gas (contract s) = Gas (contract scope) - cost ∧ 0 ≤ Gas (contract s)).
Proof.
  intros w. unfold useGas, UseGas. destruct (_ <? _) eqn:Hlt; [done|].
  apply Z.ltb_ge in Hlt. simpl. lia.
Qed.

Lemma Resize_contract (scope : ScopeContext) (size : Z) :
  contract (Resize scope size) = contract scope.
Proof. unfold Resize. by destruct (_ <? _). Qed.

Lemma chargeGas_post (table : Z → operation) (floor : Z → Z) (op : Z)
    (scope : ScopeContext) :
  0 ≤ constantGas (table op) →
  0 ≤ floor op →
  (∀ dyn scope m, dynamicGas (table op) = Some dyn →
     post (dyn scope m) (λ r, ∀ d, r = Some d → floor op ≤ d)) →
  post (chargeGas (table op) scope)
       (λ s, 0 ≤ Gas (contract s)
             ∧ Gas (contract s)
               ≤ Gas (contract scope) - constantGas (table op) - dynamicFloor table floor op).
Proof.
  intros Hconst Hfloor Hdyn.
  unfold chargeGas, dynamicFloor. cbv zeta.
  destruct (_ <? _); [apply post_fail|].
  destruct (_ <? _); [apply post_fail|].
  eapply post_bind; [apply useGas_post|]. intros scope1 [Hg1 Hn1].
  destruct (dynamicGas (table op)) as [dyn|] eqn:Hd.
  - eapply (post_bind _ _ (λ _, True)).
    { destruct (memorySize (table op)) as [f|]; [|by apply (post_ret _ (λ _, True))].
      destruct (f (Stack scope1)) as [memSize overflow].
      destruct overflow; [apply post_fail|].
      destruct (SafeMul _ _) as [m overflow].
      destruct overflow; [apply post_fail|by apply (post_ret _ (λ _, True))]. }
    intros msize _. eapply post_bind; [by apply Hdyn|].
    intros [d|] Hr; [|apply post_fail].
    specialize (Hr d eq_refl).
    eapply post_bind; [apply useGas_post|]. intros scope2 [Hg2 Hn2].
    apply post_ret.
    assert (Hc : contract (if 0 <? msize then Resize scope2 msize else scope2)
                 = contract scope2)
      by (destruct (0 <? msize); [apply Resize_contract|done]).
    rewrite Hc. split; lia.
  - apply post_ret. split; lia.
Qed.

Lemma loop_returns remote (table : Z → operation) :
  metered table →
  ∀ fuel scope pc,
  0 ≤ Gas (contract scope) < Z.of_nat fuel →
  post (loop remote table fuel scope pc) (λ _, True).
Proof.
  intros [floor Hm]. induction fuel as [|fuel IH]; intros scope pc Hgas; [simpl in Hgas; lia|].
  cbn [loop].
  destruct (Hm (GetOp (contract scope) pc)) as (Hconst & Hfloor & Hdyn & Hex).
  eapply post_bind; [apply preDispatch_returns|]. intros _ _.
  eapply post_bind; [by apply (chargeGas_post table floor)|]. intros scope1 (Hn1 & Hc1).
  eapply post_bind; [apply Hex|]. intros out Hout.
  destruct (eo_status out) eqn:Hst; [|by apply (post_ret _ (λ _, True))..].
  destruct (Hout Hst) as [Hg Hcost]. specialize (Hg Hn1).
  apply IH. lia.
Qed.

Lemma Run_returns remote (table : Z → operation) fuel c input :
  metered table → 0 ≤ Gas c < Z.of_nat fuel →
  post (Run remote table fuel c input) (λ _, True).
Proof.
  intros Hm Hgas. unfold Run.
  destruct (len (Code c) =? 0); [by apply (post_ret _ (λ _, True))|].
  by apply loop_returns.
Qed.

Lemma Call_returns remote (table : Z → operation) fuel caller addr input gas val :
  metered table → 0 ≤ gas < Z.of_nat fuel →
  post (Call remote table fuel caller addr input gas val) (λ _, True).
Proof.
  intros Hm Hgas. unfold Call.
  apply (post_bind _ _ (λ _, True)); [by apply post_gets|]. intros canTransfer _.
  destruct (negb canTransfer); [apply post_fail|].
  apply (post_bind _ _ (λ _, True)); [by apply post_gets|]. intros snapshot _.
  apply (post_bind _ _ (λ _, True)); [by apply post_gets|]. intros exists_ _.
  destruct (negb exists_ && (val =? 0)); [by apply (post_ret _ (λ _, True))|].
  apply post_onError.
  apply (post_bind _ _ (λ _, True)).
  { destruct (negb exists_); repeat returns_step. }
  intros _ _. apply (post_bind _ _ (λ _, True)); [repeat returns_step|].
  intros _ _. apply (post_bind _ _ (λ _, True)); [by apply post_gets|]. intros code _.
  destruct (len code =? 0); [by apply (post_ret _ (λ _, True))|].
  apply (post_bind _ _ (λ _, True)); [by apply Run_returns|]. intros out _.
  destruct (ro_reverted out); [apply post_fail|by apply (post_ret _ (λ _, True))].
Qed.

Lemma Execute_returns remote (table : Z → operation) fuel address originBalance code input
    cfg record :
  metered table → 0 < GasLimit cfg < Z.of_nat fuel →
  post (Execute remote table fuel address originBalance code input cfg record) (λ _, True).
Proof.
  intros Hm Hgas. unfold Execute. cbv zeta.
  assert (Hlimit : GasLimit (SetDefaults cfg) = GasLimit cfg).
  { unfold SetDefaults. simpl. destruct (GasLimit cfg =? 0) eqn:H0; [|done].
    apply Z.eqb_eq in H0. lia. }
  rewrite Hlimit.
  do 8 (apply (post_bind _ _ (λ _, True)); [repeat returns_step|intros ? _]).
  destruct (MustFromBig _); [|apply post_panic].
  apply (post_bind _ _ (λ _, True)); [apply Call_returns; [done|lia]|]. intros [ret left] _.
  repeat returns_step.
Qed.

Lemma resolveCode_returns remote sim : post (resolveCode remote sim) (λ _, True).
Proof. unfold resolveCode. repeat returns_step. Qed.

Lemma Simulate_returns remote (table : Z → operation) fuel sim prior :
  metered table → 0 < simGasLimit sim < Z.of_nat fuel →
  post (Simulate remote table fuel sim prior) (λ _, True).
Proof.
  intros Hm Hgas. unfold Simulate. cbv zeta.
  apply (post_bind _ _ (λ _, True)); [apply resolveCode_returns|intros code _].
  apply (post_bind _ _ (λ _, True)); [by apply post_gets|intros stateBalance _].
  apply (post_bind _ _ (λ _, True)); [repeat returns_step|intros balance _].
  apply (post_bind _ _ (λ _, True)); [by apply Execute_returns|intros result _].
  apply (post_bind _ _ (λ _, True)); [by apply post_gets|intros idealState _].
  apply (post_bind _ _ (λ _, True)).
  { apply post_onState. by apply Execute_returns. }
  intros [st result2] _. by apply (post_ret _ (λ _, True)).
Qed.

Lemma unoptimalSimulation_returns remote (table : Z → operation) fuel sim prior :
  metered table → 0 < simGasLimit sim < Z.of_nat fuel →
  post (unoptimalSimulation remote table fuel sim prior) (λ _, True).
Proof.
  intros Hm Hgas. unfold unoptimalSimulation. cbv zeta.
  apply (post_bind _ _ (λ _, True)); [apply resolveCode_returns|intros code _].
  apply (post_bind _ _ (λ _, True)); [by apply post_gets|intros stateBalance _].
  apply (post_bind _ _ (λ _, True)); [repeat returns_step|intros balance _].
  destruct (balance <? simValue sim); [apply post_fail|].
  apply (post_bind _ _ (λ _, True)); [by apply Execute_returns|intros result _].
  by apply (post_ret _ (λ _, True)).
Qed.

Lemma discoverAll_returns remote (table : Z → operation) fuel (sims : list Simulation) :
  metered table → Forall (λ sim, 0 < simGasLimit sim < Z.of_nat fuel) sims →
  ∀ prior, post (discoverAll remote table fuel sims prior) (λ _, True).
Proof.
  intros Hm Hall. induction Hall as [|sim sims Hsim Hall IH]; intros prior.
  - by apply (post_ret _ (λ _, True)).
  - cbn [discoverAll].
    apply (post_bind _ _ (λ _, True)); [by apply unoptimalSimulation_returns|intros res _].
    cbv zeta. apply (post_bind _ _ (λ _, True)); [apply IH|intros [lists final] _].
    by apply (post_ret _ (λ _, True)).
Qed.

Lemma accountAll_returns remote (table : Z → operation) fuel (sims : list Simulation) :
  metered table → Forall (λ sim, 0 < simGasLimit sim < Z.of_nat fuel) sims →
  ∀ lists st rec, post (accountAll remote table fuel sims lists st rec) (λ _, True).
Proof.
  intros Hm Hall. induction Hall as [|sim sims Hsim Hall IH]; intros lists st rec.
  - by apply (post_ret _ (λ _, True)).
  - destruct lists as [|l lists]; [by apply (post_ret _ (λ _, True))|].
    cbn [accountAll]. cbv zeta.
    apply (post_bind _ _ (λ _, True)).
    { apply post_onState. by apply unoptimalSimulation_returns. }
    intros [st' res] _. cbv zeta.
    apply (post_bind _ _ (λ _, True)); [apply IH|intros results _].
    by apply (post_ret _ (λ _, True)).
Qed.

Lemma SimulateBundle_returns remote (table : Z → operation) fuel (sims : list Simulation)
    prior :
  metered table → Forall (λ sim, 0 < simGasLimit sim < Z.of_nat fuel) sims →
  post (SimulateBundle remote table fuel sims prior) (λ _, True).
Proof.
  intros Hm Hall. unfold SimulateBundle.
  apply (post_bind _ _ (λ _, True)); [by apply discoverAll_returns|].
  intros [lists [final|]] _; [|apply post_panic].
  apply (post_bind _ _ (λ _, True)); [by apply post_gets|intros st _].
  apply (post_bind _ _ (λ _, True)); [by apply accountAll_returns|intros result _].
  by apply (post_ret _ (λ _, True)).
Qed.

Lemma post_not_OutOfFuel {A} (c : M World A) (Q : A → Prop) (w : World) :
  post c Q → (c w).2 ≠ OutOfFuel.
Proof. intros Hc H. specialize (Hc w). by rewrite H in Hc. Qed.

Lemma totalFee_mono (a b : Z) : 0 ≤ a ≤ b → totalFee a ≤ totalFee b.
Proof.
  intros Hab. unfold totalFee, MemoryGas, QuadCoeffDiv.
  assert (a * a ≤ b * b) by nia.
  assert (a * a / 512 ≤ b * b / 512) by (apply Z.div_le_mono; lia).
  lia.
Qed.

Lemma memoryGasCost_post (scope : ScopeContext) (m : Z) :
  post (memoryGasCost scope m) (λ r, ∀ d, r = Some d → 0 ≤ d).
Proof.
  unfold memoryGasCost.
  destruct (m =? 0); [apply post_ret; by intros d [= <-]|].
  destruct (_ <? m); [by apply post_ret|]. cbv zeta.
  destruct (_ <? _) eqn:Hlt; [|apply post_ret; by intros d [= <-]].
  apply Z.ltb_lt in Hlt. apply post_ret. intros d [= <-].
  assert (0 ≤ len (Memory scope)) by (unfold len; lia).
  assert (0 ≤ len (Memory scope) / 32) by (apply Z.div_pos; lia).
  assert (len (Memory scope) / 32 < toWordSize m) by (apply Z.div_lt_upper_bound; lia).
  pose proof (totalFee_mono (len (Memory scope) / 32) (toWordSize m)). lia.
Qed.

Lemma gasSLoadEIP2929_post (scope : ScopeContext) (m : Z) :
  post (gasSLoadEIP2929 scope m) (λ r, ∀ d, r = Some d → WarmStorageReadCostEIP2929 ≤ d).
Proof.
  unfold gasSLoadEIP2929. cbv zeta.
  apply (post_bind _ _ (λ _, True)); [repeat returns_step|intros loc _].
  apply (post_bind _ _ (λ _, True)); [by apply post_gets|intros present _].
  destruct present.
  - apply (post_bind _ _ (λ _, True)); [by apply post_modify|intros _ _].
    apply post_ret. by intros d [= <-].
  - apply (post_bind _ _ (λ _, True)); [repeat returns_step|intros _ _].
    apply (post_bind _ _ (λ _, True)); [by apply post_modify|intros _ _].
    apply post_ret. by intros d [= <-].
Qed.

Ltac gas_step :=
  first
    [ apply post_ret; intros ? ?; simplify_eq; repeat case_match;
      unfold ColdSloadCostEIP2929, WarmStorageReadCostEIP2929, SstoreSetGasEIP2200,
        SstoreResetGasEIP2200; lia
    | apply (post_bind _ _ (λ _, True)); [repeat returns_step; fail|intros ? _]
    | match goal with
      | |- post (match ?x with _ => _ end) _ => destruct x
      | |- post (if ?x then _ else _) _ => destruct x
      end
    | progress cbv zeta ].

Lemma gasSStoreEIP3529_post (scope : ScopeContext) (m : Z) :
  post (gasSStoreEIP3529 scope m) (λ r, ∀ d, r = Some d → WarmStorageReadCostEIP2929 ≤ d).
Proof.
  unfold gasSStoreEIP3529. repeat gas_step.
Qed.

Lemma pop_post (scope : ScopeContext) :
  post (pop scope) (λ p, contract p.2 = contract scope).
Proof.
  unfold pop. apply (post_bind _ _ (λ _, True)); [repeat returns_step|intros x _].
  by apply post_ret.
Qed.

Lemma next_post (pc : Z) (scope scope0 : ScopeContext) :
  contract scope = contract scope0 →
  post (next pc scope)
       (λ out, eo_status out = Continue →
               0 ≤ Gas (contract scope0) →
               0 ≤ Gas (contract (eo_scope out)) ≤ Gas (contract scope0)).
Proof. intros Hc. unfold next. apply post_ret. simpl. rewrite Hc. lia. Qed.

Ltac exec_step :=
  first
    [ apply next_post; simpl; congruence
    | apply post_ret; simpl; intros; discriminate
    | apply post_fail | apply post_panic
    | eapply post_bind; [apply pop_post|intros [? ?] ?; simpl in *]
    | apply (post_bind _ _ (λ _, True)); [repeat returns_step; fail|intros ? _]
    | match goal with
      | |- post (if ?x then _ else _) _ => destruct x
      end
    | progress cbv zeta ].

Lemma execute_gas_kept (op pc : Z) (scope : ScopeContext) :
  post (execute (testInstructionSet op) pc scope)
       (λ out, eo_status out = Continue →
               0 ≤ Gas (contract scope) →
               0 ≤ Gas (contract (eo_scope out)) ≤ Gas (contract scope)).
Proof.
  unfold testInstructionSet. repeat case_bool_decide; cbn [execute];
    unfold opStop, opAdd, opCallDataLoad, opMstore, opSload, opSstore, opPush0, opPush1,
           opReturn, opUndefined;
    repeat exec_step.
Qed.

Ltac cost_step :=
  first
    [ apply post_ret; simpl; intros ?; first [discriminate | by vm_compute]
    | apply post_fail | apply post_panic
    | apply (post_bind _ _ (λ _, True)); [repeat returns_step; fail|intros ? _]
    | match goal with
      | |- post (if ?x then _ else _) _ => destruct x
      | |- post (let '(_, _) := ?x in _) _ => destruct x
      end
    | progress unfold pop, next
    | progress cbv zeta ].

Lemma execute_cost (op pc : Z) (scope : ScopeContext) :
  post (execute (testInstructionSet op) pc scope)
       (λ out, eo_status out = Continue →
               1 ≤ constantGas (testInstructionSet op)
                   + dynamicFloor testInstructionSet testFloor op).
Proof.
  unfold dynamicFloor, testFloor, testInstructionSet.
  repeat case_bool_decide; subst;
    cbn [execute constantGas dynamicGas];
    unfold opStop, opAdd, opCallDataLoad, opMstore, opSload, opSstore, opPush0, opPush1,
           opReturn, opUndefined;
    repeat cost_step.
Qed.

Lemma post_and {A} (c : M World A) (Q1 Q2 : A → Prop) :
  post c Q1 → post c Q2 → post c (λ a, Q1 a ∧ Q2 a).
Proof.
  intros H1 H2 w. specialize (H1 w). specialize (H2 w).
  by destruct (c w) as [w1 [a|e| |]].
Qed.

Lemma metered_testInstructionSet : metered testInstructionSet.
Proof.
  exists testFloor. intros op. split_and!.
  - unfold testInstructionSet. repeat case_bool_decide; by vm_compute.
  - unfold testFloor. destruct (_ || _); by vm_compute.
  - intros dyn scope m Hdyn. unfold testFloor.
    unfold testInstructionSet in Hdyn.
    repeat case_bool_decide; subst; cbn [dynamicGas] in Hdyn; try discriminate;
      injection Hdyn as <-; cbn [orb].
    + apply memoryGasCost_post.
    + apply gasSLoadEIP2929_post.
    + apply gasSStoreEIP3529_post.
    + apply memoryGasCost_post.
  - intros pc scope.
    eapply post_weaken; [apply (post_and _ _ _ (execute_gas_kept op pc scope)
                                              (execute_cost op pc scope))|].
    intros out [Hg Hc] Hst. split; [by apply Hg|by apply Hc].
Qed.

(** X22.  Runs end.  For a jump table that charges for every step, the
    gas bounds the number of opcodes a run executes: with more fuel than
    the contract has gas, the loop ends by itself (with a result, an
    error or a panic).  Hence a simulation whose gas limit is positive
    and below the fuel always comes back from both of its passes, and so
    does a bundle all of whose transactions have such a gas limit. *)
Theorem runs_end_within_gas (remote : RemoteSource) (table : Z → operation) :
  metered table →
  (∀ fuel c input w,
     0 ≤ Gas c < Z.of_nat fuel → (Run remote table fuel c input w).2 ≠ OutOfFuel)
  ∧ (∀ fuel sim prior w,
       0 < simGasLimit sim < Z.of_nat fuel →
       (Simulate remote table fuel sim prior w).2 ≠ OutOfFuel)
  ∧ (∀ fuel sims prior w,
       Forall (λ sim, 0 < simGasLimit sim < Z.of_nat fuel) sims →
       (SimulateBundle remote table fuel sims prior w).2 ≠ OutOfFuel).
Proof.
  intros Hm. split_and!.
  - intros fuel c input w Hgas. eapply post_not_OutOfFuel. by apply Run_returns.
  - intros fuel sim prior w Hgas. eapply post_not_OutOfFuel. by apply Simulate_returns.
  - intros fuel sims prior w Hall. eapply post_not_OutOfFuel.
    by apply SimulateBundle_returns.
Qed.

Lemma runs_end_within_gas_witness :
  (Simulate remoteZero testInstructionSet (Z.to_nat 300001) readTwice None
     (freshWorld emptyState 1)).2 ≠ OutOfFuel.
Proof.
  destruct (runs_end_within_gas remoteZero testInstructionSet metered_testInstructionSet)
    as (_ & Hsim & _).
  apply Hsim. change (simGasLimit readTwice) with 300000.
  rewrite Z2Nat.id by lia. lia.
Defined.

(** *** Failures of the look-ups before the first pass *)

(** X23.  A look-up that fails ends the simulation before any pass.
    When the simulation brings no code, the state has none for the
    target and the remote node fails on the code request, both entry
    points return the network error in the world they started in, but
    for the one logged request.  When the code is available, the
    simulation carries a value, the state holds no balance for the
    sender and the remote node fails on the balance request, both return
    the network error with the state untouched and no pass started. *)
Theorem failed_lookup_ends_simulation
    (remote : RemoteSource) (table : Z → operation) (fuel : nat)
    (sim : Simulation) (prior : option RecordToInitiateState) (w : World) :
  (simCode sim = [] →
   GetCodeSize (db w) (To sim) = 0 →
   eth_getCode remote (To sim) (blockTag (simBlockNumber sim)) = None →
   Simulate remote table fuel sim prior w
   = (logFetch (FetchCode (To sim) (blockTag (simBlockNumber sim))) w, Err NetworkError)
   ∧ unoptimalSimulation remote table fuel sim prior w
     = (logFetch (FetchCode (To sim) (blockTag (simBlockNumber sim))) w, Err NetworkError))
  ∧ (codeAvailable remote sim w →
     0 < simValue sim →
     GetBalance (db w) (From sim) ≤ 0 →
     eth_getBalance remote (From sim) (blockTag (simBlockNumber sim)) = None →
     ((Simulate remote table fuel sim prior w).2 = Err NetworkError
      ∧ db (Simulate remote table fuel sim prior w).1 = db w
      ∧ passes (Simulate remote table fuel sim prior w).1 = passes w)
     ∧ ((unoptimalSimulation remote table fuel sim prior w).2 = Err NetworkError
        ∧ db (unoptimalSimulation remote table fuel sim prior w).1 = db w
        ∧ passes (unoptimalSimulation remote table fuel sim prior w).1 = passes w)).
Proof.
  split.
  - intros Hcode Hsize Hdown.
    assert (Hrc : resolveCode remote sim w
                  = (logFetch (FetchCode (To sim) (blockTag (simBlockNumber sim))) w,
                     Err NetworkError)).
    { rewrite resolveCode_cases. cbv zeta. by rewrite Hcode, Hsize, Hdown. }
    unfold Simulate, unoptimalSimulation. munfold. by rewrite Hrc.
  - intros Hav Hval Hbal Hdown.
    destruct (resolveCode_available remote sim w Hav)
      as (w0 & code & Hrc & Hdb & _ & _ & _ & Hps & _).
    unfold Simulate, unoptimalSimulation. munfold. rewrite Hrc, Hdb.
    replace (0 <? simValue sim) with true by (symmetry; by apply Z.ltb_lt).
    replace (GetBalance (db w) (From sim) <=? 0) with true by (symmetry; by apply Z.leb_le).
    simpl. unfold GetBalanceRpc. munfold. rewrite Hdown. simpl. by split_and!.
Qed.

(** *** The code a pass installs *)


Lemma GetCode_CreateAccount (s : StateDB) (a b : Z) :
  a ≠ b → GetCode (CreateAccount s a) b = GetCode s b.
Proof.
  intros Hne. unfold GetCode, CreateAccount. rewrite getObject_setObject.
  by rewrite decide_False.
Qed.

Lemma accounts_Prepare (s : StateDB) (sender coinbase dst : Z) (pre : list Z)
    (l : list AccessTuple) :
  accounts (Prepare s sender coinbase dst pre l) = accounts s.
Proof.
  unfold Prepare. cbv zeta. cbn [AddAddressToAccessList accounts].
  assert (Ht : ∀ l s0, accounts (foldl warmTuple s0 l) = accounts s0).
  { clear. induction l as [|t l IH]; intros s0; [done|]. simpl. rewrite IH.
    unfold warmTuple.
    assert (Hk : ∀ ks s1, accounts (foldl (λ s k, AddSlotToAccessList s (at_Address t) k) s1 ks)
                          = accounts s1).
    { clear. induction ks as [|k ks IH]; intros s1; [done|]. simpl. by rewrite IH. }
    by rewrite Hk. }
  assert (Hp : ∀ l s0, accounts (foldl AddAddressToAccessList s0 l) = accounts s0).
  { clear. induction l as [|t l IH]; intros s0; [done|]. simpl. by rewrite IH. }
  by rewrite Ht, Hp.
Qed.

Lemma GetCode_Prepare (s : StateDB) (sender coinbase dst : Z) (pre : list Z)
    (l : list AccessTuple) (b : Z) :
  GetCode (Prepare s sender coinbase dst pre l) b = GetCode s b.
Proof. unfold GetCode, getObject. by rewrite accounts_Prepare. Qed.



















(** *** Defaults of the configuration *)


